(** * Collect Files: a shallow embedding of [collect_files.py]

    The development follows the source file top to bottom.  Python text is
    modelled by [string], one [ascii] per code point, so the model covers
    file names whose code points are below 256; on that range the regular
    expression class [\d] is exactly the ten characters 0-9 and
    [str.lower] only ever produces an ASCII letter from an ASCII letter.
    Path functions are those of [posixpath].  Integers are [Z]; a padding
    width, being a length or the value of a digit string, is a [nat]. *)

From Stdlib Require Import ZArith Lia Strings.String Strings.Ascii.
From Stdlib Require Import Numbers.DecimalString Numbers.DecimalZ Numbers.DecimalNat.
From stdpp Require Import gmap strings list.

Local Open Scope Z_scope.

(* ===================================================================== *)
(** ** Python [str] methods used by the source *)
(* ===================================================================== *)

Module Str.

Definition is_digit (c : ascii) : bool :=
  (48 <=? N_of_ascii c)%N && (N_of_ascii c <=? 57)%N.

(** Whether a text consists of the characters 0-9 only. *)
Fixpoint all_digits (s : string) : bool :=
  match s with
  | EmptyString => true
  | String c s' => is_digit c && all_digits s'
  end.

(** [s.startswith(c)] for a one-character prefix. *)
Definition startswith (c : ascii) (s : string) : bool :=
  match s with
  | String c' _ => bool_decide (c' = c)
  | EmptyString => false
  end.

(** [s.endswith(c)] for a one-character suffix. *)
Fixpoint endswith (c : ascii) (s : string) : bool :=
  match s with
  | EmptyString => false
  | String c' EmptyString => bool_decide (c' = c)
  | String _ s' => endswith c s'
  end.

(** [c * n] *)
Fixpoint repeat (c : ascii) (n : nat) : string :=
  match n with
  | O => EmptyString
  | S n' => String c (repeat c n')
  end.

(** [str(n)] for a natural number. *)
Definition of_nat (n : nat) : string := NilZero.string_of_uint (Nat.to_uint n).

(** [str(z)] for an [int]. *)
Definition of_Z (z : Z) : string := NilZero.string_of_int (Z.to_int z).

(** [int(s)] on a decimal numeral with an optional minus sign; [None]
    stands for [ValueError]. *)
Definition to_Z (s : string) : option Z :=
  Z.of_int <$> NilZero.int_of_string s.

(** [int(s)] on a string of decimal digits (the only strings the source
    passes to [int] are matches of [\d+]). *)
Definition to_nat (s : string) : nat :=
  match NilEmpty.uint_of_string s with
  | Some d => Nat.of_uint d
  | None => O
  end.

(** [s.zfill(width)]: zeros go after a leading sign; a string already
    [width] long or longer is returned as it is. *)
Definition zfill (width : nat) (s : string) : string :=
  let fill := (width - String.length s)%nat in
  match s with
  | String c s' =>
      if bool_decide (c = "-"%char) || bool_decide (c = "+"%char)
      then String c (repeat "0" fill +:+ s')
      else repeat "0" fill +:+ s
  | EmptyString => repeat "0" fill
  end.

(** [c.lower()] on code points below 256: A-Z, and the Latin-1 capitals
    U+00C0..U+00DE except the multiplication sign U+00D7. *)
Definition lower_char (c : ascii) : ascii :=
  let n := N_of_ascii c in
  if ((65 <=? n) && (n <=? 90))%N then ascii_of_N (n + 32)
  else if ((192 <=? n) && (n <=? 222) && negb (n =? 215))%N
       then ascii_of_N (n + 32)
       else c.

Fixpoint lower (s : string) : string :=
  match s with
  | EmptyString => EmptyString
  | String c s' => String (lower_char c) (lower s')
  end.

(** [s.rstrip(c)] for a one-character set. *)
Fixpoint rstrip (c : ascii) (s : string) : string :=
  match s with
  | EmptyString => EmptyString
  | String c' s' =>
      match rstrip c s' with
      | EmptyString => if bool_decide (c' = c) then EmptyString
                       else String c' EmptyString
      | r => String c' r
      end
  end.

(** [s.split(c)] *)
Fixpoint split (c : ascii) (s : string) : list string :=
  match s with
  | EmptyString => [EmptyString]
  | String c' s' =>
      if bool_decide (c' = c) then EmptyString :: split c s'
      else match split c s' with
           | w :: ws => String c' w :: ws
           | [] => [String c' EmptyString]
           end
  end.

(** [sep.join(parts)] *)
Fixpoint join (sep : string) (parts : list string) : string :=
  match parts with
  | [] => EmptyString
  | [p] => p
  | p :: ps => p +:+ sep +:+ join sep ps
  end.

(** The part of [s] after the last [c] (all of [s] when there is none),
    i.e. [s[s.rfind(c) + 1:]]. *)
Fixpoint after_last (c : ascii) (s : string) : string :=
  match s with
  | EmptyString => EmptyString
  | String c' s' =>
      if existsb (fun x => bool_decide (x = c)) (list_ascii_of_string s')
      then after_last c s'
      else if bool_decide (c' = c) then s' else s
  end.

(** The part of [s] up to and including the last [c] (empty when there
    is none), i.e. [s[:s.rfind(c) + 1]]. *)
Fixpoint upto_last (c : ascii) (s : string) : string :=
  match s with
  | EmptyString => EmptyString
  | String c' s' =>
      if existsb (fun x => bool_decide (x = c)) (list_ascii_of_string s')
      then String c' (upto_last c s')
      else if bool_decide (c' = c) then String c' EmptyString
           else EmptyString
  end.

End Str.

(* ===================================================================== *)
(** ** The fragment of [re] used by the source

    The three patterns of the source, [(%0?\d*d|#+)], [%0?\d*d], [#+] and
    [\d+], only repeat single characters, so repetition is over atoms.
    Matching is by backtracking in Python's order: alternatives left to
    right, [?], [*] and [+] greedy. *)
(* ===================================================================== *)

Module Re.

Inductive atom :=
| Lit (c : ascii)       (* a literal character *)
| Digit.                (* \d *)

Inductive regex :=
| Atom (a : atom)
| Opt (a : atom)        (* a? *)
| Star (a : atom)       (* a* *)
| Plus (a : atom)       (* a+ *)
| Seq (r1 r2 : regex)
| Alt (r1 r2 : regex).  (* r1|r2 *)

Definition atom_ok (a : atom) (c : ascii) : bool :=
  match a with
  | Lit c' => bool_decide (c = c')
  | Digit => Str.is_digit c
  end.

Definition or_else {A} (x y : option A) : option A :=
  match x with Some _ => x | None => y end.

(** [k] receives what is left of the subject after the part matched so
    far; the first continuation that succeeds decides the match. *)
Fixpoint match_star {A} (a : atom) (s : string) (k : string -> option A)
  : option A :=
  match s with
  | String c s' =>
      if atom_ok a c then or_else (match_star a s' k) (k s) else k s
  | EmptyString => k s
  end.

Fixpoint match_re {A} (r : regex) (s : string) (k : string -> option A)
  : option A :=
  match r with
  | Atom a =>
      match s with
      | String c s' => if atom_ok a c then k s' else None
      | EmptyString => None
      end
  | Opt a =>
      match s with
      | String c s' => if atom_ok a c then or_else (k s') (k s) else k s
      | EmptyString => k s
      end
  | Star a => match_star a s k
  | Plus a =>
      match s with
      | String c s' => if atom_ok a c then match_star a s' k else None
      | EmptyString => None
      end
  | Seq r1 r2 => match_re r1 s (fun s' => match_re r2 s' k)
  | Alt r1 r2 => or_else (match_re r1 s k) (match_re r2 s k)
  end.

Fixpoint take (n : nat) (s : string) : string :=
  match n, s with
  | S n', String c s' => String c (take n' s')
  | _, _ => EmptyString
  end.

(** [re.match(r, s)]: the matched text and the rest of [s]. *)
Definition match_at (r : regex) (s : string) : option (string * string) :=
  match match_re r s Some with
  | Some rest =>
      Some (take (String.length s - String.length rest) s, rest)
  | None => None
  end.

(** [re.search(r, s)]: the text before the leftmost match, the match
    itself ([group()]), and the text after it. *)
Fixpoint search (r : regex) (s : string) : option (string * string * string) :=
  match match_at r s with
  | Some (m, rest) => Some (EmptyString, m, rest)
  | None =>
      match s with
      | String c s' =>
          match search r s' with
          | Some (before, m, rest) => Some (String c before, m, rest)
          | None => None
          end
      | EmptyString => None
      end
  end.

(** [re.sub(r, repl, s)] for a replacement free of backslashes: every
    non-overlapping match, leftmost first, is replaced by [repl].  [skip]
    counts the characters of the current match still to be dropped.  An
    empty match inserts [repl] and moves on by one character. *)
Fixpoint sub_from (r : regex) (repl s : string) (skip : nat) : string :=
  match skip with
  | S n =>
      match s with
      | String _ s' => sub_from r repl s' n
      | EmptyString => EmptyString
      end
  | O =>
      match match_at r s with
      | Some (m, _) =>
          repl +:+
          match s with
          | String c s' =>
              match String.length m with
              | O => String c (sub_from r repl s' O)
              | S n => sub_from r repl s' n
              end
          | EmptyString => EmptyString
          end
      | None =>
          match s with
          | String c s' => String c (sub_from r repl s' O)
          | EmptyString => EmptyString
          end
      end
  end.

Definition sub (r : regex) (repl s : string) : string := sub_from r repl s O.

End Re.

(* ===================================================================== *)
(** ** [posixpath] *)
(* ===================================================================== *)

Module Path.

Definition sep : ascii := "/"%char.

(** [os.path.basename(p)]: [p[p.rfind('/') + 1:]]. *)
Definition basename (p : string) : string := Str.after_last sep p.

(** [os.path.dirname(p)]: the head up to the last slash, with trailing
    slashes removed unless the head consists of slashes only. *)
Definition dirname (p : string) : string :=
  let head := Str.upto_last sep p in
  match Str.rstrip sep head with
  | EmptyString => head
  | stripped => stripped
  end.

(** [os.path.join(a, b)] *)
Definition join (a b : string) : string :=
  if Str.startswith sep b then b
  else match a with
       | EmptyString => b
       | _ => if Str.endswith sep a then a +:+ b
              else a +:+ String sep b
       end.

Fixpoint all_dots (s : string) : bool :=
  match s with
  | EmptyString => true
  | String c s' => bool_decide (c = "."%char) && all_dots s'
  end.

(** [os.path.splitext(p)[-1]]: the extension, with its dot; a leading run
    of dots of the last component does not start an extension. *)
Definition splitext_ext (p : string) : string :=
  let name := basename p in
  let stem := Str.upto_last "." name in
  match stem with
  | EmptyString => EmptyString
  | _ => if all_dots stem then EmptyString
         else String "." (Str.after_last "." name)
  end.

(** [os.path.normpath(p)] *)
Fixpoint norm_comps (initial_slashes : bool) (comps : list string)
                    (new_comps : list string) : list string :=
  match comps with
  | [] => new_comps
  | comp :: rest =>
      if bool_decide (comp = EmptyString) || bool_decide (comp = ".")
      then norm_comps initial_slashes rest new_comps
      else if negb (bool_decide (comp = ".."))
              || (negb initial_slashes && bool_decide (new_comps = []))
              || bool_decide (last new_comps = Some "..")
           then norm_comps initial_slashes rest (new_comps ++ [comp])
           else norm_comps initial_slashes rest (removelast new_comps)
  end.

Definition normpath (p : string) : string :=
  match p with
  | EmptyString => "."
  | _ =>
      let slashes :=
        match p with
        | String "/" (String "/" (String "/" _)) => 1%nat
        | String "/" (String "/" _) => 2%nat
        | String "/" _ => 1%nat
        | _ => 0%nat
        end in
      let comps :=
        norm_comps (negb (Nat.eqb slashes 0)) (Str.split sep p) [] in
      match Str.repeat sep slashes +:+ Str.join "/" comps with
      | EmptyString => "."
      | path => path
      end
  end.

(** The names a path goes through on the way to its last component: its
    text up to each separator ([/a/b/c] goes through [/a] and [/a/b], and
    [/a/b/] through [/a] and [/a/b]). *)
Fixpoint walked_from (seen p : string) : list string :=
  match p with
  | EmptyString => []
  | String c p' =>
      (if bool_decide (c = sep) && negb (bool_decide (seen = EmptyString))
       then [seen] else [])
      ++ walked_from (seen +:+ String c EmptyString) p'
  end.

Definition walked (p : string) : list string := walked_from EmptyString p.

End Path.


(* ===================================================================== *)
(** ** The world the collector runs in *)
(* ===================================================================== *)

(** The file system, as far as the collector looks at it: which normalised
    paths are regular files and which are directories. *)
Record filesystem := Filesystem {
  files : gset string;
  dirs : gset string;
}.

(** A node of the host graph.  [knobs] is the key set of [node.knobs()];
    the three value fields are what [node['file'].value()],
    [node['first'].value()] and [node['last'].value()] return when the node
    has that knob (a file knob holds text, the frame knobs hold integers). *)
Record node := Node {
  node_name : string;
  knobs : gset string;
  file_value : string;
  first_value : Z;
  last_value : Z;
}.

(** What [nuke.tprint] is called with. *)
Inductive msg :=
| MsgCopy (src dst : string)
| MsgMissing (src : string)
| MsgException (src dst e : string)
| MsgSequence (basename : string) (frame_start frame_end : Z)
| MsgOutputFolder (new_dir : string)
| MsgNoPadding (basename : string)
| MsgFrame (name : string)
| MsgUpdate (name new_path : string)
| MsgPanelCancelled
| MsgDone.

Definition newline : string := String (ascii_of_nat 10) EmptyString.

(** The text of each message, as the source's f-strings build it. *)
Definition render (m : msg) : string :=
  match m with
  | MsgCopy src dst => "[COPY] " +:+ src +:+ " -> " +:+ dst
  | MsgMissing src => "[ERROR] Source file does not exist: " +:+ src
  | MsgException src dst e =>
      "[EXCEPTION] Copy failed: " +:+ src +:+ " -> " +:+ dst +:+ newline +:+ e
  | MsgSequence basename frame_start frame_end =>
      "[INFO] Copying sequence: " +:+ basename +:+ " (Frames "
      +:+ Str.of_Z frame_start +:+ "~" +:+ Str.of_Z frame_end +:+ ")"
  | MsgOutputFolder new_dir => "[INFO] Output folder: " +:+ new_dir
  | MsgNoPadding basename =>
      "[ERROR] No recognized padding found in: " +:+ basename
  | MsgFrame name => "[FRAME] Copying frame " +:+ name
  | MsgUpdate name new_path =>
      "[UPDATE] Node " +:+ name +:+ " file path updated to: " +:+ new_path
  | MsgPanelCancelled =>
      "[CANCELLED] Collect cancelled or no output path specified."
  | MsgDone => "Collect done!"
  end.

(* ===================================================================== *)
(** ** The conversion of gizmos to groups *)
(* ===================================================================== *)

Module Gizmo.

(** [needle in s] *)
Fixpoint prefix (needle s : string) : bool :=
  match needle, s with
  | EmptyString, _ => true
  | String a needle', String b s' => bool_decide (a = b) && prefix needle' s'
  | String _ _, EmptyString => false
  end.

Fixpoint contains (needle s : string) : bool :=
  prefix needle s
  || match s with
     | String _ s' => contains needle s'
     | EmptyString => false
     end.

(** [l.remove(x)]: the first element equal to [x] goes. *)
Fixpoint remove (x : nat) (l : list nat) : list nat :=
  match l with
  | [] => []
  | y :: l' => if bool_decide (y = x) then l' else y :: remove x l'
  end.

(** What the host contributes to a conversion.  Nodes are host objects,
    told apart by a number. *)
Record host := Host {
  (** [nuke.allNodes()] when the conversion starts *)
  allNodes : list nat;
  (** ['gizmo_file' in node.knobs()] *)
  gizmo_file : nat -> bool;
  (** [node.knob('name').value()] when the node's turn comes *)
  name : nat -> string;
  (** [node.maxInputs()] and [node.input(f)] *)
  maxInputs : nat -> nat;
  input : nat -> nat -> option nat;
  (** whether [nuke.tcl('copy_gizmo_to_group [selected_node]')] raises
      when this gizmo is the selected node *)
  tcl_raises : nat -> bool;
  (** the node [nuke.selectedNode()] returns after that call *)
  selectedNode : nat -> nat;
}.

(** A value written to a knob: a constant, or the value that was read
    from a knob of a node. *)
Inductive value :=
| VBool (b : bool)
| VText (s : string)
| VKnob (node : nat) (knob : string).

(** The calls that act on the host, in the order they are made. *)
Inductive event :=
| DeselectAll                  (* lines 231-232 *)
| SetValue (node : nat) (knob : string) (v : value)
| Tcl (node : nat)             (* line 236, with [node] selected *)
| TprintError (node_name : string)
| SetInput (node : nat) (num : nat) (to : option nat)
| Delete (node : nat)
| Alert (text : string).

(** The lists of the function and the calls made so far. *)
Record state := State {
  gizmo_selection : list nat;
  group_selection : list nat;
  error_selection : list nat;
  trace : list event;
}.

(** Lines 219-226 and 251-258: the knobs whose values go from the gizmo
    to the group. *)
Definition attributes : list string :=
  ["xpos"; "ypos"; "hide_input"; "cached"; "postage_stamp"; "disable";
   "dope_sheet"; "tile_color"].

(** Lines 217-271: the body of the conversion loop for one gizmo. *)
Definition convert_one (h : host) (node : nat) (st : state) : state :=
  let node_name := name h node in
  let isolate :=
    [DeselectAll; SetValue node "selected" (VBool true); Tcl node] in
  if tcl_raises h node && negb (contains "ImagePlane" node_name) then
    State (remove node (gizmo_selection st))
          (group_selection st)
          (error_selection st ++ [node])
          (trace st ++ isolate ++ [TprintError node_name])
  else
    let new_group := selectedNode h node in
    let input_list := input h node <$> seq 0 (maxInputs h node) in
    State (gizmo_selection st)
          (group_selection st ++ [new_group])
          (error_selection st)
          (trace st ++ isolate
           ++ ((fun knob => SetValue new_group knob (VKnob node knob))
               <$> attributes)
           ++ imap (fun num _ => SetInput new_group num None) input_list
           ++ imap (fun num s => SetInput new_group num s) input_list
           ++ [SetValue node "name" (VText (node_name +:+ "_gizmo"));
               SetValue new_group "name" (VText node_name);
               SetValue new_group "selected" (VBool false)]).

(** Line 216, [for node in gizmo_selection]: the iterator holds the index
    of the next element of the list, as the list is when the element is
    asked for.  [fuel] bounds the number of turns. *)
Fixpoint convert_loop (h : host) (fuel i : nat) (st : state) : option state :=
  match gizmo_selection st !! i with
  | None => Some st
  | Some node =>
      match fuel with
      | O => None
      | S fuel' => convert_loop h fuel' (S i) (convert_one h node st)
      end
  end.

Definition select (node : nat) : event :=
  SetValue node "selected" (VBool true).

(** Lines 274-283. *)
Definition cleanup (no_gizmo_selection : list nat) (st : state) : list event :=
  trace st
  ++ (gizmo_selection st ≫= fun y => [select y; Delete y])
  ++ (select <$> group_selection st)
  ++ (select <$> no_gizmo_selection)
  ++ match error_selection st with
     | [] => []
     | _ :: _ =>
         [Alert ("Failed to convert "
                 +:+ Str.of_nat (length (error_selection st))
                 +:+ " gizmos to groups.")]
     end.

(** Lines 203-283: the calls the conversion makes on the host. *)
Definition convert_gizmo_to_group (h : host) : option (list event) :=
  match allNodes h with
  | [] => Some []
  | _ :: _ =>
      let gizmo_selection :=
        filter (fun n => gizmo_file h n = true) (allNodes h) in
      let no_gizmo_selection :=
        filter (fun n => gizmo_file h n = false) (allNodes h) in
      st ← convert_loop h (length gizmo_selection) 0
             (State gizmo_selection [] [] []);
      Some (cleanup no_gizmo_selection st)
  end.

(** *** Vocabulary *)

(** A conversion that fails and is reported: the call raises and the name
    of the gizmo does not hold [ImagePlane]. *)
Definition fails (h : host) (node : nat) : bool :=
  tcl_raises h node && negb (contains "ImagePlane" (name h node)).

(** The gizmos the loop comes to: after one that fails, the next one in
    the list is passed over. *)
Fixpoint visited (h : host) (gizmos : list nat) : list nat :=
  match gizmos with
  | [] => []
  | node :: rest =>
      node :: if fails h node
              then match rest with
                   | [] => []
                   | _ :: rest' => visited h rest'
                   end
              else visited h rest
  end.

(** The gizmos that are in the list when the loop ends: one that fails
    has left it, and the one behind it stays though the loop passes it
    over. *)
Fixpoint remaining (h : host) (gizmos : list nat) : list nat :=
  match gizmos with
  | [] => []
  | node :: rest =>
      if fails h node
      then match rest with
           | [] => []
           | next :: rest' => next :: remaining h rest'
           end
      else node :: remaining h rest
  end.

(** The gizmos of the graph, and its other nodes. *)
Definition gizmos (h : host) : list nat :=
  filter (fun n => gizmo_file h n = true) (allNodes h).

Definition others (h : host) : list nat :=
  filter (fun n => gizmo_file h n = false) (allNodes h).

(** The text of the alert for [n] failures. *)
Definition alert_text (n : nat) : string :=
  "Failed to convert " +:+ Str.of_nat n +:+ " gizmos to groups.".

(** The gizmos the conversion was called on, and the nodes deleted, in a
    trace. *)
Definition tcl_of (e : event) : option nat :=
  match e with
  | Tcl node => Some node
  | _ => None
  end.

Definition converted (t : list event) : list nat := omap tcl_of t.

Definition delete_of (e : event) : option nat :=
  match e with
  | Delete node => Some node
  | _ => None
  end.

Definition deleted (t : list event) : list nat := omap delete_of t.

Definition alert_of (e : event) : option string :=
  match e with
  | Alert text => Some text
  | _ => None
  end.

Definition alerts (t : list event) : list string := omap alert_of t.

(** A graph with three gizmos, the first of which cannot be converted. *)
Definition sample_host : host :=
  Host [1; 2; 3; 4]%nat
       (fun n => bool_decide (n <> 4%nat))
       (fun n => "Node" +:+ Str.of_nat n)
       (fun _ => 1%nat)
       (fun _ _ => Some 4%nat)
       (fun n => bool_decide (n = 1%nat))
       (fun n => (n + 10)%nat).

End Gizmo.

(* ===================================================================== *)
(** ** The calls of a run *)
(* ===================================================================== *)

(** The calls the collector makes on the host and on the worker pool, in
    the order it makes them.  The host's calls are taken to return
    normally. *)
Inductive event :=
| Tprint (m : msg)                 (* nuke.tprint *)
| SetProgress (percent : Z)        (* self.task.setProgress *)
| SetMessage (text : string)       (* self.task.setMessage *)
| Submit (src dst : string)        (* executor.submit(self.copy_file, src, dst) *)
| Message (text : string)          (* nuke.message *)
| ScriptSaveAs (path : string)     (* nuke.scriptSaveAs *)
| Conversion (call : Gizmo.event). (* a call of convert_gizmo_to_group *)

Record world := World {
  fs : filesystem;
  nodes : list node;       (* the graph, as nuke.allNodes() lists it *)
  polls : nat;             (* calls of self.task.isCancelled() so far *)
  cancelled : bool;        (* self.cancelled *)
  trace : list event;      (* oldest first *)
}.

(** The outcome of one call of [copy_file], read off the line it prints. *)
Inductive outcome :=
| Copied (src dst : string)
| SourceMissing (src : string)
| Failed (src dst reason : string).

Definition outcome_of (e : event) : option outcome :=
  match e with
  | Tprint (MsgCopy src dst) => Some (Copied src dst)
  | Tprint (MsgMissing src) => Some (SourceMissing src)
  | Tprint (MsgException src dst e) => Some (Failed src dst e)
  | _ => None
  end.

(** The outcomes recorded in a trace, one per copy job that ran. *)
Definition outcomes (t : list event) : list outcome := omap outcome_of t.

Definition submission_of (e : event) : option (string * string) :=
  match e with
  | Submit src dst => Some (src, dst)
  | _ => None
  end.

(** The jobs handed to the pool in a trace. *)
Definition submissions (t : list event) : list (string * string) :=
  omap submission_of t.

(* ===================================================================== *)
(** ** Computations: state passing with Python exceptions

    A computation returns normally or raises; either way the world it
    leaves behind is kept, as the effects of a Python statement that
    raises are.  [Raise e] is an instance of [Exception] whose text is
    [e]. *)
(* ===================================================================== *)

Inductive result (A : Type) :=
| Ok (a : A)
| Raise (e : string).
Arguments Ok {A} a.
Arguments Raise {A} e.

Definition M (A : Type) : Type := world -> result A * world.

#[global] Instance M_ret : MRet M := fun A a w => (Ok a, w).

#[global] Instance M_bind : MBind M := fun A B f m w =>
  match m w with
  | (Ok a, w') => f a w'
  | (Raise e, w') => (Raise e, w')
  end.

Definition raise {A} (e : string) : M A := fun w => (Raise e, w).

(** [try: body except Exception as e: handler(e)] *)
Definition try_except {A} (body : M A) (handler : string -> M A) : M A :=
  fun w =>
    match body w with
    | (Ok a, w') => (Ok a, w')
    | (Raise e, w') => handler e w'
    end.

(** A job run by a pool worker: an exception it raises is stored in its
    future, which the source never asks for its result. *)
Definition run_future (job : M unit) : M unit :=
  fun w => (Ok tt, snd (job w)).

Definition emit (e : event) : M unit := fun w =>
  (Ok tt, World (fs w) (nodes w) (polls w) (cancelled w) (trace w ++ [e])).

Definition tprint (m : msg) : M unit := emit (Tprint m).

Definition set_cancelled : M unit := fun w =>
  (Ok tt, World (fs w) (nodes w) (polls w) true (trace w)).

Definition get_cancelled : M bool := fun w => (Ok (cancelled w), w).

Definition get_nodes : M (list node) := fun w => (Ok (nodes w), w).

(** Whether none of the names a path goes through is a regular file: a
    path through a regular file names nothing.  The file system holds its
    files and directories by the normal forms of their paths; a component
    [..] is resolved on the text, as [normpath] resolves it. *)
Definition passes (p : string) (f : filesystem) : bool :=
  forallb (fun t => negb (bool_decide (Path.normpath t ∈ files f)))
          (Path.walked p).

(** [os.path.exists(p)], [os.path.isfile(p)] *)
Definition exists_in (f : filesystem) (p : string) : bool :=
  negb (bool_decide (p = EmptyString)) && passes p f
  && bool_decide (Path.normpath p ∈ files f ∪ dirs f).

Definition isfile_in (f : filesystem) (p : string) : bool :=
  negb (bool_decide (p = EmptyString)) && passes p f
  && bool_decide (Path.normpath p ∈ files f).

Definition path_exists (p : string) : M bool := fun w =>
  (Ok (exists_in (fs w) p), w).

Definition path_isfile (p : string) : M bool := fun w =>
  (Ok (isfile_in (fs w) p), w).

(** The path itself and the directories above it, nearest first. *)
Fixpoint lineage (fuel : nat) (p : string) : list string :=
  match fuel with
  | O => []
  | S n =>
      match p with
      | EmptyString => []
      | _ => p :: lineage n (Path.dirname p)
      end
  end.

(** [knob in node.knobs()] *)
Definition has_knob (n : node) (knob : string) : bool :=
  bool_decide (knob ∈ knobs n).

(** [node[knob]] raises when the node has no such knob. *)
Definition knob_value {A} (n : node) (knob : string) (v : node -> A) : M A :=
  if has_knob n knob then mret (v n) else raise ("NameError: " +:+ knob).

(** [node['file'].setValue(new_path)] on the [i]-th node of the graph. *)
Definition set_file_value (new_path : string) (n : node) : node :=
  Node (node_name n) (knobs n) new_path (first_value n) (last_value n).

Definition set_node_file (i : nat) (new_path : string) : M unit := fun w =>
  (Ok tt,
   World (fs w) (alter (set_file_value new_path) i (nodes w))
         (polls w) (cancelled w) (trace w)).

Definition video_exts : list string :=
  ["mov"; "avi"; "mp4"; "mpeg"; "mpg"; "r3d"; "mxf"; "mkv"; "flv"; "webm"].

(** [os.path.splitext(file_path)[-1][1:].lower()] *)
Definition extension (file_path : string) : string :=
  Str.lower (match Path.splitext_ext file_path with
             | String _ rest => rest
             | EmptyString => EmptyString
             end).

(** [range(frame_start, frame_end + 1)] *)
Definition frame_range (frame_start frame_end : Z) : list Z :=
  (fun i => frame_start + Z.of_nat i) <$>
  seq 0 (Z.to_nat (frame_end + 1 - frame_start)).

(** The three patterns of [copy_sequence_parallel]. *)
Definition printf_pattern : Re.regex :=
  Re.Seq (Re.Atom (Re.Lit "%"))
    (Re.Seq (Re.Opt (Re.Lit "0"))
       (Re.Seq (Re.Star Re.Digit) (Re.Atom (Re.Lit "d")))).

Definition hash_pattern : Re.regex := Re.Plus (Re.Lit "#").

Definition padding_pattern : Re.regex := Re.Alt printf_pattern hash_pattern.

Definition digits_pattern : Re.regex := Re.Plus Re.Digit.

(** Lines 79-91: the padding token of a base name, the width it asks for
    and the pattern its family is replaced by; [None] when the base name
    has no token. *)
Record padding := Padding {
  pad_token : string;
  pad_len : nat;
  pattern : Re.regex;
}.

Definition parse_padding (basename : string) : option padding :=
  match Re.search padding_pattern basename with
  | None => None
  | Some (_, pad_token, _) =>
      if Str.startswith "%" pad_token then
        let pad_len :=
          match Re.search digits_pattern pad_token with
          | Some (_, digits, _) => Str.to_nat digits
          | None => 1%nat
          end in
        Some (Padding pad_token pad_len printf_pattern)
      else
        Some (Padding pad_token (String.length pad_token) hash_pattern)
  end.

(** Lines 95-96: the file name of one frame. *)
Definition frame_name (p : padding) (basename : string) (frame : Z) : string :=
  let frame_str := Str.zfill (pad_len p) (Str.of_Z frame) in
  Re.sub (pattern p) frame_str basename.

(** Lines 93-99: the task list, one [(src, dst, file_name)] per frame. *)
Definition sequence_tasks (p : padding) (dirpath new_dir basename : string)
    (frame_start frame_end : Z) : list (string * string * string) :=
  (fun frame =>
     let file_name := frame_name p basename frame in
     (Path.join dirpath file_name, Path.join new_dir file_name, file_name))
  <$> frame_range frame_start frame_end.

(** Lines 119-125: where [update_node_path] points a node. *)
Definition root_dir : string := "[file dirname [value root.name]]".

Definition new_path (n : node) : M string :=
  file_path ← knob_value n "file" file_value;
  let basename := Path.basename file_path in
  is_sequence ←
    (if has_knob n "first" then
       first ← knob_value n "first" first_value;
       last ← knob_value n "last" last_value;
       mret (negb (first =? last)
             && negb (bool_decide (extension file_path ∈ video_exts)))
     else mret false);
  if is_sequence : bool then
    let subdir := Path.basename (Path.dirname file_path) in
    mret (root_dir +:+ "/footage/" +:+ subdir +:+ "/" +:+ basename)
  else
    mret (root_dir +:+ "/footage/" +:+ basename).

(** What the host and the operating system contribute to a run and the
    source does not determine. *)
Record host := Host {
  (** the answer of the [n]-th call of [self.task.isCancelled()] *)
  isCancelled : nat -> bool;
  (** [shutil.copy2(src, dst)]: returns or raises, and the file system it
      leaves *)
  shutil_copy2 : string -> string -> filesystem -> result unit * filesystem;
  (** [panel.show()] and [panel.value("Output Path:")] *)
  panel_result : Z;
  panel_value : string;
  (** the answer to [nuke.ask("Directory does not exist. Create now?")] *)
  ask_create : bool;
  (** [nuke.root()['name'].value()] *)
  root_name : string;
  (** the error [os.makedirs] raises when it cannot make a missing
      directory (no permission, a disk that is full or read-only), for the
      directory of that normal form on that file system; [None] when it
      makes it *)
  makedirs_fails : string -> filesystem -> option string;
  (** of the jobs the pool still has to finish, the position (counted
      round the list) of the one that finishes next *)
  finishes_next : list (string * string) -> nat;
  (** the gizmos of the script, as [convert_gizmo_to_group] meets them *)
  conversion : Gizmo.host;
}.

Section Collector.

Variable h : host.

Definition is_cancelled : M bool := fun w =>
  (Ok (isCancelled h (polls w)),
   World (fs w) (nodes w) (S (polls w)) (cancelled w) (trace w)).

Definition copy2 (src dst : string) : M unit := fun w =>
  let '(r, fs') := shutil_copy2 h src dst (fs w) in
  (r, World fs' (nodes w) (polls w) (cancelled w) (trace w)).

(** [os.makedirs(p, exist_ok=exist_ok)] raises an [OSError] when the
    path names a regular file or goes through one (FileExistsError,
    NotADirectoryError), when the directory is there and [exist_ok] is
    false (FileExistsError), and when the host cannot make a directory
    that is missing; [None] when the call returns. *)
Definition makedirs_error (exist_ok : bool) (p : string) (f : filesystem)
  : option string :=
  let q := Path.normpath p in
  if bool_decide (q ∈ files f) || negb (passes p f) then Some "OSError"
  else if bool_decide (q ∈ dirs f)
       then (if exist_ok then None else Some "OSError")
       else makedirs_fails h q f.

(** When the call returns, the directory and the missing ones above it
    exist; when it raises, nothing was made. *)
Definition makedirs (exist_ok : bool) (p : string) : M unit := fun w =>
  match makedirs_error exist_ok p (fs w) with
  | Some e => (Raise e, w)
  | None =>
      let q := Path.normpath p in
      let made := list_to_set (lineage (String.length q) q) in
      (Ok tt,
       World (Filesystem (files (fs w)) (dirs (fs w) ∪ made))
             (nodes w) (polls w) (cancelled w) (trace w))
  end.

(** Lines 34-52. *)
Definition copy_file (src dst : string) : M unit :=
  let src := Path.normpath src in
  let dst := Path.normpath dst in
  try_except
    (found ← path_exists src;
     if found : bool then
       copy2 src dst;;
       tprint (MsgCopy src dst)
     else
       tprint (MsgMissing src))
    (fun e => tprint (MsgException src dst e)).

(** Lines 102-109: the submission loop; the result is [futures]. *)
Fixpoint submit_tasks (tasks : list (string * string * string))
    (futures : list (string * string)) : M (list (string * string)) :=
  match tasks with
  | [] => mret futures
  | (src, dst, name) :: rest =>
      stop ← is_cancelled;
      if stop : bool then
        set_cancelled;;
        mret futures
      else
        tprint (MsgFrame name);;
        emit (SetMessage ("Collecting frame: " +:+ name));;
        emit (Submit src dst);;
        submit_tasks rest (futures ++ [(src, dst)])
  end.

(** The order in which the pool finishes the jobs it was given: again and
    again the one the host names among the jobs still to finish. *)
Fixpoint completion (fuel : nat) (pending : list (string * string))
  : list (string * string) :=
  match fuel, pending with
  | S fuel', first :: _ =>
      let i := (finishes_next h pending `mod` length pending)%nat in
      nth i pending first :: completion fuel' (delete i pending)
  | _, _ => []
  end.

(** The jobs run by the workers, each printing its line as it finishes. *)
Fixpoint run_jobs (jobs : list (string * string)) : M unit :=
  match jobs with
  | [] => mret tt
  | (src, dst) :: rest =>
      run_future (copy_file src dst);;
      run_jobs rest
  end.

(** Line 110 and the end of the [with] block: every submitted job has
    run when the coordinator goes on.  The pool finishes the jobs in an
    order of its own, which is the host's; the lines they print are put
    here, in that order. *)
Definition wait (futures : list (string * string)) : M unit :=
  run_jobs (completion (length futures) futures).

(** Lines 54-110. *)
Definition copy_sequence_parallel (file_path output_dir : string)
    (frame_start frame_end : Z) : M unit :=
  let basename := Path.basename file_path in
  let dirpath := Path.dirname file_path in
  let dirname := Path.basename dirpath in
  let new_dir := Path.join output_dir dirname in
  makedirs true new_dir;;
  tprint (MsgSequence basename frame_start frame_end);;
  tprint (MsgOutputFolder new_dir);;
  match parse_padding basename with
  | None => tprint (MsgNoPadding basename)
  | Some p =>
      let tasks :=
        sequence_tasks p dirpath new_dir basename frame_start frame_end in
      futures ← submit_tasks tasks [];
      wait futures
  end.

(** Lines 112-127, on the [i]-th node of the graph. *)
Definition update_node_path (i : nat) : M unit :=
  all ← get_nodes;
  match all !! i with
  | None => raise "ValueError: no such node"
  | Some n =>
      path ← new_path n;
      tprint (MsgUpdate (node_name n) path);;
      set_node_file i path
  end.

(** Lines 165-187: the body of the main loop after the progress calls. *)
Definition collect_node (footage_path : string) (n : node) : M unit :=
  if negb (has_knob n "file") || has_knob n "Render" then mret tt
  else
    file_path ← knob_value n "file" file_value;
    if bool_decide (file_path = EmptyString) then mret tt
    else
      let ext := extension file_path in
      if bool_decide (ext ∈ video_exts) then
        copy_file file_path
          (Path.join footage_path (Path.basename file_path))
      else if has_knob n "first" then
        first ← knob_value n "first" first_value;
        last ← knob_value n "last" last_value;
        if first =? last then
          copy_file file_path
            (Path.join footage_path (Path.basename file_path))
        else
          copy_sequence_parallel file_path footage_path first last
      else
        copy_file file_path
          (Path.join footage_path (Path.basename file_path)).

(** Lines 157-187: [for i, node in enumerate(all_nodes)], from the node
    of index [i] on; [total] is [len(all_nodes)]. *)
Fixpoint collect_nodes (footage_path : string) (total i : nat)
    (all_nodes : list node) : M unit :=
  match all_nodes with
  | [] => mret tt
  | n :: rest =>
      stop ← is_cancelled;
      if stop : bool then set_cancelled
      else
        emit (SetProgress (Z.of_nat i * 100 / Z.of_nat total));;
        emit (SetMessage ("Processing node: " +:+ node_name n));;
        collect_node footage_path n;;
        collect_nodes footage_path total (S i) rest
  end.

(** Lines 196-198. *)
Fixpoint update_nodes (i : nat) (all_nodes : list node) : M unit :=
  match all_nodes with
  | [] => mret tt
  | n :: rest =>
      (if has_knob n "file" && negb (has_knob n "Render")
       then update_node_path i else mret tt);;
      update_nodes (S i) rest
  end.

(** Lines 133-147: the way to the output directory; [None] when
    [collect] returns before it collects anything. *)
Definition preflight : M (option string) :=
  if negb (panel_result h =? 1) || bool_decide (panel_value h = EmptyString)
  then
    tprint MsgPanelCancelled;;
    mret None
  else
    is_file ← path_isfile (panel_value h);
    let target_path :=
      if is_file : bool then Path.dirname (panel_value h)
      else panel_value h in
    let target_path := Str.rstrip Path.sep target_path +:+ "/" in
    found ← path_exists target_path;
    if found : bool then mret (Some target_path)
    else if ask_create h then
      makedirs false target_path;;
      mret (Some target_path)
    else
      emit (Message "Cannot proceed without valid target directory.");;
      mret None.

(** Line 153: the calls of the conversion go into the trace.  What the
    conversion makes of the graph is the host's: [nodes] is the graph as
    [nuke.allNodes()] lists it after the conversion, at line 155.  The
    conversion always returns ([None] stands for a loop that does not
    end, which the loop of [Gizmo.convert_loop] never is). *)
Definition convert_gizmo_to_group : M unit := fun w =>
  match Gizmo.convert_gizmo_to_group (conversion h) with
  | Some calls =>
      (Ok tt,
       World (fs w) (nodes w) (polls w) (cancelled w)
             (trace w ++ (Conversion <$> calls)))
  | None => (Raise "RecursionError", w)
  end.

(** Lines 149-201. *)
Definition collect_into (target_path : string) : M unit :=
  let footage_path := Path.join target_path "footage" in
  makedirs true footage_path;;
  let script_name := Path.basename (root_name h) in
  convert_gizmo_to_group;;
  all_nodes ← get_nodes;
  collect_nodes footage_path (length all_nodes) 0 all_nodes;;
  stop ← get_cancelled;
  if stop : bool then emit (Message "Collect cancelled.")
  else
    let new_script_path := Path.join target_path script_name in
    emit (ScriptSaveAs new_script_path);;
    update_nodes 0 all_nodes;;
    tprint MsgDone;;
    emit (Message "Collect done!").

(** Lines 129-201. *)
Definition collect : M unit :=
  target ← preflight;
  match target with
  | None => mret tt
  | Some target_path => collect_into target_path
  end.

End Collector.

(* ===================================================================== *)
(** ** Vocabulary of the statements *)
(* ===================================================================== *)

(** A padding token is a percent sign, any number of digits and the letter
    d (with digits: an explicit width, as in %04d; without: the bare %d),
    or a run of hash signs. *)
Definition printf_token (digits : string) : string :=
  "%" +:+ digits +:+ "d".

Definition token (t : string) : Prop :=
  (exists digits, Str.all_digits digits = true /\ t = printf_token digits) \/
  (exists n, t = Str.repeat "#" (S n)).

Definition occurs (t s : string) : Prop :=
  exists before after, s = before +:+ t +:+ after.

(** No padding token occurs anywhere in the text. *)
Definition token_free (s : string) : Prop :=
  forall t, token t -> ~ occurs t s.

(** A text a printf token cannot run into: it is empty or starts with a
    character that is neither a digit nor the letter d. *)
Definition closes_token (s : string) : Prop :=
  match s with
  | EmptyString => True
  | String c _ => Str.is_digit c = false /\ c <> "d"%char
  end.

(** The source path an outcome is about. *)
Definition outcome_src (o : outcome) : string :=
  match o with
  | Copied src _ => src
  | SourceMissing src => src
  | Failed src _ _ => src
  end.

(** The sources of the copy jobs that ran, in the order they ran. *)
Definition attempted (t : list event) : list string :=
  outcome_src <$> outcomes t.

(** A node whose frame knobs come as a pair, as they do on the host's
    reading nodes: with a [first] knob there is a [last] knob. *)
Definition node_ok (n : node) : bool :=
  implb (has_knob n "first") (has_knob n "last").

(** The job of a task, as it is handed to the pool. *)
Definition task_job (t : string * string * string) : string * string :=
  (t.1.1, t.1.2).

(** All answers to the polls from the [from]-th up to, not including, the
    [to]-th are "not cancelled". *)
Definition quiet (h : host) (from to : nat) : Prop :=
  forall k, (from <= k < to)%nat -> isCancelled h k = false.

(** The new location [update_node_path] computes for a node. *)
Definition relocated (n : node) : string :=
  let file_path := file_value n in
  if has_knob n "first" && negb (first_value n =? last_value n)
     && negb (bool_decide (extension file_path ∈ video_exts))
  then root_dir +:+ "/footage/"
       +:+ Path.basename (Path.dirname file_path)
       +:+ "/" +:+ Path.basename file_path
  else root_dir +:+ "/footage/" +:+ Path.basename file_path.

(** What the post-pass makes of a node. *)
Definition rewritten (n : node) : node :=
  if has_knob n "file" && negb (has_knob n "Render")
  then set_file_value (relocated n) n
  else n.

(** The updates the post-pass reports, one per node it rewrites. *)
Definition update_of (e : event) : option (string * string) :=
  match e with
  | Tprint (MsgUpdate name new_path) => Some (name, new_path)
  | _ => None
  end.

Definition updates (t : list event) : list (string * string) :=
  omap update_of t.

(** [p] is an entry of the directory [d]. *)
Definition entry_of (d p : string) : Prop :=
  p <> d /\ Path.dirname p = d.

(** Nothing in the file system is an entry of [d]. *)
Definition dir_empty (d : string) (f : filesystem) : Prop :=
  forall p, p ∈ files f ∪ dirs f -> ~ entry_of d p.

(** The directory a sequence is collected into, and the world as
    [copy_sequence_parallel] has made it when it looks for the padding
    token: the directory made, the two information lines printed. *)
Definition sequence_dir (file_path output_dir : string) : string :=
  Path.join output_dir (Path.basename (Path.dirname file_path)).

Definition made_dirs (p : string) : gset string :=
  list_to_set (lineage (String.length (Path.normpath p)) (Path.normpath p)).

Definition sequence_started (file_path output_dir : string)
    (frame_start frame_end : Z) (w : world) : world :=
  World (Filesystem (files (fs w))
           (dirs (fs w) ∪ made_dirs (sequence_dir file_path output_dir)))
        (nodes w) (polls w) (cancelled w)
        (trace w ++
         [Tprint (MsgSequence (Path.basename file_path) frame_start frame_end);
          Tprint (MsgOutputFolder (sequence_dir file_path output_dir))]).

(** The task list of a sequence reference. *)
Definition reference_tasks (p : padding) (file_path output_dir : string)
    (frame_start frame_end : Z) : list (string * string * string) :=
  sequence_tasks p (Path.dirname file_path)
    (sequence_dir file_path output_dir) (Path.basename file_path)
    frame_start frame_end.

(** What the post-pass reports for a node: its name and new location when
    it rewrites the node, nothing otherwise. *)
Definition reported_update (n : node) : option (string * string) :=
  if has_knob n "file" && negb (has_knob n "Render")
  then Some (node_name n, relocated n)
  else None.

(** The destination of a reference that is copied as a single file. *)
Definition single_file_dst (footage_path file_path : string) : string :=
  Path.join footage_path (Path.basename file_path).

(** The copy jobs of a reference, in the words of the specification: none
    for a node without a path or with a Render knob; one, to the footage
    directory, for a video container, a node without frame range or one
    whose range is a single frame; one per frame for a sequence, and none
    for a sequence whose base name has no padding token. *)
Definition reference_jobs (footage_path : string) (n : node)
  : list (string * string) :=
  let path := file_value n in
  if negb (has_knob n "file") || has_knob n "Render" then []
  else if bool_decide (path = "") then []
  else if bool_decide (extension path ∈ video_exts)
          || negb (has_knob n "first")
          || (first_value n =? last_value n)
       then [(path, single_file_dst footage_path path)]
       else match parse_padding (Path.basename path) with
            | None => []
            | Some p =>
                task_job <$>
                reference_tasks p path footage_path
                  (first_value n) (last_value n)
            end.

(** Lines 165-185: whether [collect] hands the node to
    [copy_sequence_parallel]. *)
Definition batched (n : node) : bool :=
  has_knob n "file" && negb (has_knob n "Render")
  && negb (bool_decide (file_value n = ""))
  && negb (bool_decide (extension (file_value n) ∈ video_exts))
  && has_knob n "first" && negb (first_value n =? last_value n).

(** What [os.makedirs] raises when [collect] comes to the node on the
    file system [f]: the error of the call for the directory of the
    sequence, for a node that is handed to [copy_sequence_parallel]; no
    other node has a directory made. *)
Definition node_error (h : host) (footage_path : string) (n : node)
    (f : filesystem) : option string :=
  if batched n
  then makedirs_error h true (sequence_dir (file_value n) footage_path) f
  else None.

(** Lines 138-140: the output directory [collect] works with, on the
    file system [f]. *)
Definition chosen_target (h : host) (f : filesystem) : string :=
  Str.rstrip Path.sep
    (if isfile_in f (panel_value h) then Path.dirname (panel_value h)
     else panel_value h)
  +:+ "/".

(** The calls of the conversion of line 153. *)
Definition conversion_calls (g : Gizmo.host) : list Gizmo.event :=
  default [] (Gizmo.convert_gizmo_to_group g).

(** The world as [collect] has made it when the main loop starts: the
    footage directory made, the gizmos converted. *)
Definition collection_started (h : host) (target_path : string) (w : world)
  : world :=
  World (Filesystem (files (fs w))
           (dirs (fs w) ∪ made_dirs (Path.join target_path "footage")))
        (nodes w) (polls w) (cancelled w)
        (trace w ++ (Conversion <$> conversion_calls (conversion h))).

(** Where the script is saved. *)
Definition new_script_path (h : host) (target_path : string) : string :=
  Path.join target_path (Path.basename (root_name h)).

(** The sources of the copy jobs of a list of references, as [copy_file]
    reports them. *)
Definition reference_sources (footage_path : string) (all : list node)
  : list string :=
  all ≫= fun n => Path.normpath ∘ fst <$> reference_jobs footage_path n.

(* ===================================================================== *)
(** ** A sample scene *)
(* ===================================================================== *)

(** A disk on which one destination cannot be written. *)
Definition sample_copy2 (unwritable src dst : string) (f : filesystem)
  : result unit * filesystem :=
  if bool_decide (dst = unwritable) then (Raise "disk full", f)
  else (Ok tt, Filesystem (files f ∪ {[dst]}) (dirs f)).

(** A script of four nodes, none of them a gizmo. *)
Definition sample_conversion : Gizmo.host :=
  Gizmo.Host [1; 2; 3; 4]%nat (fun _ => false)
             (fun n => "Node" +:+ Str.of_nat n)
             (fun _ => 0%nat) (fun _ _ => None) (fun _ => false)
             (fun n => n).

(** A host on which the user asks to cancel just before the poll of index
    [cancel_from], and not before; every directory can be made, and of
    the jobs still to finish the second finishes first. *)
Definition sample_host (cancel_from : nat) : host :=
  Host (fun k => cancel_from <=? k)%nat
       (sample_copy2 "/out/footage/shots/plate.0002.dpx")
       1 "/out" true "/proj/shot.nk"
       (fun _ _ => None) (fun _ => 1%nat) sample_conversion.

Definition plate : node :=
  Node "Read1" {["file"; "first"; "last"]} "/proj/shots/plate.####.dpx" 1 3.

Definition clip : node :=
  Node "Read2" {["file"; "first"; "last"]} "/proj/clip.MOV" 1 100.

Definition write : node :=
  Node "Write1" {["file"; "Render"]} "/proj/out.exr" 1 100.

Definition still : node :=
  Node "Read3" {["file"]} "/proj/still.exr" 0 0.

Definition untokened : node :=
  Node "Read4" {["file"; "first"; "last"]} "/proj/takes/take.exr" 1 5.

Definition sample_world : world :=
  World (Filesystem {["/proj/shots/plate.0001.dpx";
                      "/proj/shots/plate.0002.dpx";
                      "/proj/clip.MOV"]}
                    {["/proj"; "/proj/shots"]})
        [plate; clip; write; still] 0 false [].

(** What is left to match behind the digits of a printf token. *)
Abbreviation then_d :=
  (fun s : string => Re.match_re (Re.Atom (Re.Lit "d")) s Some).

(* ===================================================================== *)
(** ** The entry point, and more vocabulary *)
(* ===================================================================== *)

(** Lines 286-288 with lines 14-15: a run on a fresh collector, whose flag
    is clear and whose progress task has not been polled. *)
Definition main (h : host) (f : filesystem) (graph : list node)
  : result unit * world :=
  collect h (World f graph 0 false []).

(** Whether one of the polls made between two worlds of a run answered
    "cancelled". *)
Definition observed (h : host) (w w' : world) : bool :=
  existsb (isCancelled h) (seq (polls w) (polls w' - polls w)).

(** From [w] to [w'] polls were only added, and the flag of [w'] is the
    flag of [w] or an answer "cancelled" in between. *)
Definition tracks (h : host) (w w' : world) : Prop :=
  (polls w <= polls w')%nat /\
  cancelled w' = cancelled w || observed h w w'.

(** The paths the script was saved to, and the texts of the dialogs shown
    ([nuke.message] and the [nuke.alert] of the conversion), in a trace. *)
Definition save_of (e : event) : option string :=
  match e with
  | ScriptSaveAs path => Some path
  | _ => None
  end.

Definition saves (t : list event) : list string := omap save_of t.

Definition dialog_of (e : event) : option string :=
  match e with
  | Message text => Some text
  | Conversion (Gizmo.Alert text) => Some text
  | _ => None
  end.

Definition dialogs (t : list event) : list string := omap dialog_of t.

(** A host on which nobody asks to cancel. *)
Definition patient_host : host :=
  Host (fun _ => false)
       (sample_copy2 "/out/footage/shots/plate.0002.dpx")
       1 "/out" true "/proj/shot.nk"
       (fun _ _ => None) (fun _ => 1%nat) sample_conversion.

(** The values the progress bar was set to, in a trace. *)
Definition progress_of (e : event) : option Z :=
  match e with
  | SetProgress p => Some p
  | _ => None
  end.

Definition progress (t : list event) : list Z := omap progress_of t.

(** Line 162: the value the bar is set to at the node of index [i]. *)
Definition percent (total i : nat) : Z := Z.of_nat i * 100 / Z.of_nat total.

(** A host on which the user leaves the panel by its Cancel button. *)
Definition declining_host : host :=
  Host (fun _ => false)
       (sample_copy2 "/out/footage/shots/plate.0002.dpx")
       0 "/out" true "/proj/shot.nk"
       (fun _ _ => None) (fun _ => 1%nat) sample_conversion.

(** A host on which the user names a directory that does not exist and
    declines to have it made. *)
Definition refusing_host : host :=
  Host (fun _ => false)
       (sample_copy2 "/out/footage/shots/plate.0002.dpx")
       1 "/elsewhere" false "/proj/shot.nk"
       (fun _ _ => None) (fun _ => 1%nat) sample_conversion.

(** A scene in which a single file is collected under the name of the
    directory a later sequence needs. *)
Definition takes_file : node := Node "Read6" {["file"]} "/a/takes" 0 0.

Definition conflicting_world : world :=
  World (Filesystem {["/a/takes"]} {["/a"; "/out"]})
        [takes_file; untokened] 0 false [].

(** A sequence that lies in the root directory. *)
Definition rooted : node :=
  Node "Read5" {["file"; "first"; "last"]} "/plate.####.dpx" 1 3.

(** Line 121: whether [update_node_path] takes the node for a sequence. *)
Definition is_sequence (n : node) : bool :=
  has_knob n "first" && negb (first_value n =? last_value n)
  && negb (bool_decide (extension (file_value n) ∈ video_exts)).

(** The text holds the character. *)
Definition has_char (c : ascii) (s : string) : bool :=
  existsb (fun x => bool_decide (x = c)) (list_ascii_of_string s).

(** What a computation adds to the trace holds no save, no dialog and no
    progress value. *)
Definition silent (w w' : world) : Prop :=
  exists evs,
    trace w' = trace w ++ evs /\
    saves evs = [] /\ dialogs evs = [] /\ progress evs = [].

(* ===================================================================== *)
(** ** The model at work *)
(* ===================================================================== *)

Example basename_shot :
  Path.basename "/proj/renders/shot010/shot010.%04d.exr" = "shot010.%04d.exr".
Proof. reflexivity. Qed.

Example dirname_shot :
  Path.dirname "/proj/renders/shot010/shot010.%04d.exr"
  = "/proj/renders/shot010".
Proof. reflexivity. Qed.

Example join_footage : Path.join "/out/" "footage" = "/out/footage".
Proof. reflexivity. Qed.

Example normpath_dots :
  Path.normpath "/out//footage/./a/../b/" = "/out/footage/b".
Proof. reflexivity. Qed.

Example extension_upper : extension "/proj/clip.MOV" = "mov".
Proof. reflexivity. Qed.

Example extension_hidden : extension "/proj/.hidden" = "".
Proof. reflexivity. Qed.

Example zfill_negative : Str.zfill 4 (Str.of_Z (-7)) = "-007".
Proof. reflexivity. Qed.

Example zfill_long : Str.zfill 2 (Str.of_Z 1001) = "1001".
Proof. reflexivity. Qed.

Example search_leftmost :
  Re.search padding_pattern "a%0%d#" = Some ("a%0", "%d", "#").
Proof. reflexivity. Qed.

Example sub_every_run : Re.sub hash_pattern "7" "a#b##c" = "a7b7c".
Proof. reflexivity. Qed.

Example parse_without_zero_flag :
  parse_padding "a.%4d.exr" = Some (Padding "%4d" 4 printf_pattern).
Proof. reflexivity. Qed.

(** The sequence shot010.%04d.exr in /proj/renders/shot010, frames 1001 to
    1003, collected under /out/footage. *)
Example shot010_tasks :
  reference_tasks (Padding "%04d" 4 printf_pattern)
    "/proj/renders/shot010/shot010.%04d.exr" "/out/footage" 1001 1003
  = [("/proj/renders/shot010/shot010.1001.exr",
      "/out/footage/shot010/shot010.1001.exr", "shot010.1001.exr");
     ("/proj/renders/shot010/shot010.1002.exr",
      "/out/footage/shot010/shot010.1002.exr", "shot010.1002.exr");
     ("/proj/renders/shot010/shot010.1003.exr",
      "/out/footage/shot010/shot010.1003.exr", "shot010.1003.exr")].
Proof. reflexivity. Qed.

(** The sample scene, never cancelled: three frames are tried, of which
    one is copied, one fails and one is missing, their lines coming in
    the order in which the pool finishes them; then the clip and the
    still; the Write node is left alone. *)
Example sample_run_outcomes :
  outcomes (trace (snd (collect (sample_host 100) sample_world)))
  = [Failed "/proj/shots/plate.0002.dpx" "/out/footage/shots/plate.0002.dpx"
            "disk full";
     SourceMissing "/proj/shots/plate.0003.dpx";
     Copied "/proj/shots/plate.0001.dpx" "/out/footage/shots/plate.0001.dpx";
     Copied "/proj/clip.MOV" "/out/footage/clip.MOV";
     SourceMissing "/proj/still.exr"].
Proof. vm_compute. reflexivity. Qed.

(** The file [/a/takes] is copied to [/out/footage/takes]; the directory
    of that name, which the sequence that follows needs, can then not be
    made: the run raises, its flag clear, no node rewritten and no dialog
    shown. *)
Example conflicting_run_raises :
  let run := collect (sample_host 100) conflicting_world in
  fst run = Raise "OSError" /\
  cancelled (snd run) = false /\
  nodes (snd run) = nodes conflicting_world /\
  attempted (trace (snd run)) = ["/a/takes"] /\
  updates (trace (snd run)) = [] /\
  dialogs (trace (snd run)) = [].
Proof. vm_compute. by split_and!. Qed.

(* ===================================================================== *)
(** ** Text *)
(* ===================================================================== *)


Lemma str_app_cons c (s t : string) : String c s +:+ t = String c (s +:+ t).
Proof. reflexivity. Qed.

Lemma str_app_empty_l (s : string) : "" +:+ s = s.
Proof. reflexivity. Qed.

Lemma str_app_empty_r (s : string) : s +:+ "" = s.
Proof. induction s as [|c s IH]; [done|]. by rewrite str_app_cons, IH. Qed.

Lemma str_app_assoc (s t u : string) : (s +:+ t) +:+ u = s +:+ t +:+ u.
Proof. induction s as [|c s IH]; [done|]. by rewrite !str_app_cons, IH. Qed.

Lemma str_length_app (s t : string) :
  String.length (s +:+ t) = (String.length s + String.length t)%nat.
Proof. induction s as [|c s IH]; [done|]. rewrite str_app_cons. simpl. by rewrite IH. Qed.

Lemma str_length_repeat c n : String.length (Str.repeat c n) = n.
Proof. induction n as [|n IH]; simpl; congruence. Qed.

Lemma str_take_app (s t : string) : Re.take (String.length s) (s +:+ t) = s.
Proof. induction s as [|c s IH]; [by destruct t|]. rewrite str_app_cons. simpl. by rewrite IH. Qed.

(** Two ways of cutting one text: the shorter head is a head of the
    longer. *)
Lemma str_app_eq_app (a b c d : string) :
  a +:+ b = c +:+ d ->
  (exists x, c = a +:+ x /\ b = x +:+ d) \/
  (exists x, a = c +:+ x /\ d = x +:+ b).
Proof.
  revert c. induction a as [|ch a IH]; intros c E.
  - left. exists c. by rewrite str_app_empty_l in *.
  - destruct c as [|ch' c].
    + right. exists (String ch a). by rewrite str_app_empty_l in *.
    + rewrite !str_app_cons in E. injection E as -> E.
      destruct (IH _ E) as [[x [-> ->]]|[x [-> ->]]]; [left|right];
        exists x; by rewrite str_app_cons.
Qed.

Lemma str_app_inv_length (a b c d : string) :
  a +:+ b = c +:+ d -> String.length a = String.length c -> a = c /\ b = d.
Proof.
  revert c. induction a as [|ch a IH]; intros [|ch' c] E L; try done.
  rewrite !str_app_cons in E. injection E as -> E. simpl in L.
  destruct (IH c E) as [-> ->]; [lia|done].
Qed.


(* ===================================================================== *)
(** ** The matcher on the source's patterns *)
(* ===================================================================== *)

Lemma digit_not_d c : Str.is_digit c = true -> c <> "d"%char.
Proof. intros H ->. discriminate. Qed.

(** [match_at] returns the head it matched. *)
Lemma match_at_intro r t rest :
  Re.match_re r (t +:+ rest) Some = Some rest ->
  Re.match_at r (t +:+ rest) = Some (t, rest).
Proof.
  intros E. unfold Re.match_at. rewrite E, str_length_app.
  replace (String.length t + String.length rest - String.length rest)%nat
    with (String.length t) by lia.
  by rewrite str_take_app.
Qed.

Lemma match_at_none r s :
  Re.match_re r s Some = None -> Re.match_at r s = None.
Proof. intros E. unfold Re.match_at. by rewrite E. Qed.

Lemma match_at_none_inv r s :
  Re.match_at r s = None -> Re.match_re r s Some = None.
Proof. unfold Re.match_at. by destruct (Re.match_re r s Some). Qed.

Lemma match_at_rest r s t rest :
  Re.match_at r s = Some (t, rest) -> Re.match_re r s Some = Some rest.
Proof.
  unfold Re.match_at. destruct (Re.match_re r s Some); [|done].
  by intros [= _ ->].
Qed.

(** *** [\d*d] and [%0?\d*d] *)

Lemma digits_then_d_intro ds rest :
  Str.all_digits ds = true ->
  Re.match_star Re.Digit (ds +:+ String "d" rest) then_d = Some rest.
Proof.
  induction ds as [|c ds IH]; intros D; [done|].
  simpl in D. apply andb_true_iff in D as [Dc D].
  rewrite str_app_cons. cbn [Re.match_star Re.atom_ok]. rewrite Dc.
  by rewrite IH.
Qed.

Lemma digits_then_d_elim s rest :
  Re.match_star Re.Digit s then_d = Some rest ->
  exists ds, Str.all_digits ds = true /\ s = ds +:+ String "d" rest.
Proof.
  induction s as [|c s IH]; [done|]. cbn [Re.match_star Re.atom_ok].
  destruct (Str.is_digit c) eqn:Dc.
  - destruct (Re.match_star Re.Digit s then_d) as [r|] eqn:E.
    + intros [= ->]. destruct (IH eq_refl) as (ds & D & ->).
      exists (String c ds). simpl. by rewrite Dc, D.
    + cbn. case_bool_decide as Hc; [|done].
      by apply digit_not_d in Dc.
  - cbn. case_bool_decide as Hc; [|done]. intros [= ->]. subst c.
    by exists "".
Qed.

Lemma printf_unfold s :
  Re.match_re printf_pattern s Some =
  match s with
  | String "%" s1 =>
      match s1 with
      | String "0" s2 =>
          Re.or_else (Re.match_star Re.Digit s2 then_d)
                     (Re.match_star Re.Digit s1 then_d)
      | _ => Re.match_star Re.Digit s1 then_d
      end
  | _ => None
  end.
Proof.
  destruct s as [|c s]; [done|].
  cbn [Re.match_re printf_pattern Re.atom_ok].
  case_bool_decide as Hc.
  - subst c. destruct s as [|c s]; [done|]. cbn [Re.atom_ok].
    case_bool_decide as Hc; [by subst c|].
    destruct c as [[] [] [] [] [] [] [] []]; done.
  - destruct c as [[] [] [] [] [] [] [] []]; done.
Qed.

Lemma printf_match_intro ds rest :
  Str.all_digits ds = true ->
  Re.match_re printf_pattern (printf_token ds +:+ rest) Some = Some rest.
Proof.
  intros D. unfold printf_token. rewrite !str_app_assoc, str_app_cons, str_app_empty_l.
  change ("d" +:+ rest) with (String "d" rest).
  rewrite printf_unfold.
  pose proof (digits_then_d_intro ds rest D) as E.
  destruct ds as [|c ds]; [done|].
  rewrite str_app_cons in *.
  assert (Re.match_star Re.Digit (ds +:+ String "d" rest) then_d = Some rest)
    as E'.
  { apply digits_then_d_intro. simpl in D. by apply andb_true_iff in D as [_ D]. }
  destruct c as [[] [] [] [] [] [] [] []]; try exact E.
  by rewrite E'.
Qed.

Lemma printf_match_elim s rest :
  Re.match_re printf_pattern s Some = Some rest ->
  exists ds, Str.all_digits ds = true /\ s = printf_token ds +:+ rest.
Proof.
  unfold printf_token. rewrite printf_unfold.
  assert (forall s', Re.match_star Re.Digit s' then_d = Some rest ->
            exists ds, Str.all_digits ds = true /\
                       String "%" s' = ("%" +:+ ds +:+ "d") +:+ rest) as K.
  { intros s' E. destruct (digits_then_d_elim _ _ E) as (ds & D & ->).
    exists ds. split; [done|]. by rewrite !str_app_assoc. }
  destruct s as [|c s]; [done|].
  destruct c as [[] [] [] [] [] [] [] []]; try done.
  destruct s as [|c s]; [apply K|].
  destruct c as [[] [] [] [] [] [] [] []]; try apply K.
  destruct (Re.match_star Re.Digit s then_d) as [r|] eqn:E.
  - intros [= ->]. destruct (digits_then_d_elim _ _ E) as (ds & D & ->).
    exists (String "0" ds). split; [done|]. by rewrite !str_app_assoc.
  - apply K.
Qed.

(** *** [#+] *)

Lemma hashes_intro n rest :
  Str.startswith "#" rest = false ->
  Re.match_star (Re.Lit "#") (Str.repeat "#" n +:+ rest) Some = Some rest.
Proof.
  intros H. induction n as [|n IH]; simpl.
  - rewrite str_app_empty_l. destruct rest as [|c rest]; [done|].
    simpl in *. by rewrite H.
  - by rewrite IH.
Qed.

Lemma hashes_elim s rest :
  Re.match_star (Re.Lit "#") s Some = Some rest ->
  exists n, s = Str.repeat "#" n +:+ rest /\ Str.startswith "#" rest = false.
Proof.
  induction s as [|c s IH]; simpl.
  - intros [= <-]. by exists 0%nat.
  - case_bool_decide as Hc.
    + subst c. destruct (Re.match_star (Re.Lit "#") s Some) as [r|] eqn:E; simpl.
      * intros [= ->]. destruct (IH eq_refl) as (n & -> & H).
        by exists (S n).
      * clear IH. exfalso. revert E. clear. induction s as [|c s IH]; [done|].
        simpl. case_bool_decide; [|done].
        destruct (Re.match_star (Re.Lit "#") s Some); [done|]. by intros.
    + intros [= <-]. exists 0%nat. split; [done|]. simpl.
      by rewrite bool_decide_eq_false_2.
Qed.

Lemma hash_match_intro n rest :
  Str.startswith "#" rest = false ->
  Re.match_re hash_pattern (Str.repeat "#" (S n) +:+ rest) Some = Some rest.
Proof. intros H. simpl. by apply hashes_intro. Qed.

Lemma hash_match_elim s rest :
  Re.match_re hash_pattern s Some = Some rest ->
  exists n, s = Str.repeat "#" (S n) +:+ rest /\
            Str.startswith "#" rest = false.
Proof.
  destruct s as [|c s]; [done|]. simpl.
  case_bool_decide as Hc; [subst c|done].
  intros E. destruct (hashes_elim _ _ E) as (n & -> & H). by exists n.
Qed.

Lemma hash_match_some s :
  is_Some (Re.match_re hash_pattern (String "#" s) Some).
Proof.
  simpl. induction s as [|c s IH]; simpl; [by eexists|].
  case_bool_decide; [|by eexists].
  destruct IH as [r ->]. by eexists.
Qed.

(** A printf token does not start with a hash sign and a hash run does not
    start with a percent sign, so the two alternatives of the padding
    pattern never compete. *)
Lemma printf_match_head s rest :
  Re.match_re printf_pattern s Some = Some rest -> Str.startswith "%" s = true.
Proof.
  intros E. destruct (printf_match_elim _ _ E) as (ds & _ & ->).
  done.
Qed.

Lemma hash_match_head s rest :
  Re.match_re hash_pattern s Some = Some rest -> Str.startswith "#" s = true.
Proof.
  intros E. destruct (hash_match_elim _ _ E) as (n & -> & _). done.
Qed.

Lemma padding_match s :
  Re.match_re padding_pattern s Some =
  if Str.startswith "%" s then Re.match_re printf_pattern s Some
  else Re.match_re hash_pattern s Some.
Proof.
  change (Re.match_re padding_pattern s Some) with
    (Re.or_else (Re.match_re printf_pattern s Some)
                (Re.match_re hash_pattern s Some)).
  destruct (Re.match_re printf_pattern s Some) as [r|] eqn:E; simpl.
  - by rewrite (printf_match_head _ _ E).
  - destruct (Str.startswith "%" s) eqn:H; [|done].
    destruct (Re.match_re hash_pattern s Some) as [r|] eqn:E'; [|done].
    apply hash_match_head in E'. destruct s as [|c s]; [done|].
    simpl in *. repeat case_bool_decide; congruence.
Qed.

(** *** [re.search] *)

Lemma search_unfold r s :
  Re.search r s =
  match Re.match_at r s with
  | Some (m, rest) => Some ("", m, rest)
  | None =>
      match s with
      | String c s' =>
          match Re.search r s' with
          | Some (before, m, rest) => Some (String c before, m, rest)
          | None => None
          end
      | EmptyString => None
      end
  end.
Proof. by destruct s. Qed.

(** The leftmost position at which the pattern matches is the one
    [search] reports. *)
Lemma search_found r pre s t rest :
  (forall a b, pre = a +:+ b -> b <> "" -> Re.match_at r (b +:+ s) = None) ->
  Re.match_at r s = Some (t, rest) ->
  Re.search r (pre +:+ s) = Some (pre, t, rest).
Proof.
  intros Hpre Hs. induction pre as [|c pre IH].
  - rewrite str_app_empty_l, search_unfold. by rewrite Hs.
  - rewrite search_unfold.
    rewrite (Hpre "" (String c pre)) by done.
    rewrite str_app_cons, IH; [done|].
    intros a b -> Hb. apply (Hpre (String c a) b); by rewrite ?str_app_cons.
Qed.

Lemma search_elim r s pre t rest :
  Re.search r s = Some (pre, t, rest) ->
  exists s', s = pre +:+ s' /\ Re.match_at r s' = Some (t, rest) /\
    forall a b, pre = a +:+ b -> b <> "" -> Re.match_at r (b +:+ s') = None.
Proof.
  revert pre. induction s as [|c s IH]; intros pre; rewrite search_unfold.
  - destruct (Re.match_at r "") as [[m r']|] eqn:E; [|done].
    intros [= <- <- <-]. exists "". split_and!; [done..|].
    intros [|] b; [|done]. rewrite str_app_empty_l. by intros <-.
  - destruct (Re.match_at r (String c s)) as [[m r']|] eqn:E.
    + intros [= <- <- <-]. exists (String c s). split_and!; [done..|].
      intros [|] b; [|done]. rewrite str_app_empty_l. by intros <-.
    + destruct (Re.search r s) as [[[before m] r']|] eqn:E'; [|done].
      intros [= <- <- <-].
      destruct (IH _ eq_refl) as (s' & -> & Hm & Hpre).
      exists s'. split_and!; [done..|].
      intros [|c' a] b.
      * rewrite str_app_empty_l. intros <- _. by rewrite str_app_cons.
      * rewrite str_app_cons. intros [= <- ->] Hb. by apply (Hpre a b).
Qed.

Lemma search_none r s :
  Re.search r s = None <->
  forall a b, s = a +:+ b -> Re.match_at r b = None.
Proof.
  split.
  - induction s as [|c s IH]; rewrite search_unfold.
    + destruct (Re.match_at r "") as [[m r']|] eqn:E; [done|].
      intros _ [|] b; [|done]. rewrite str_app_empty_l. by intros <-.
    + destruct (Re.match_at r (String c s)) as [[m r']|] eqn:E; [done|].
      destruct (Re.search r s) as [[[before m] r']|] eqn:E'; [done|].
      intros _ [|c' a] b.
      * rewrite str_app_empty_l. by intros <-.
      * rewrite str_app_cons. intros [= <- ->]. by apply (IH eq_refl a).
  - intros H. induction s as [|c s IH]; rewrite search_unfold.
    + by rewrite (H "" "").
    + rewrite (H "" (String c s)) by done.
      rewrite IH; [done|]. intros a b ->. by apply (H (String c a) b).
Qed.

(** *** The padding pattern at one position *)

Lemma padding_at_printf ds rest :
  Str.all_digits ds = true ->
  Re.match_at padding_pattern (printf_token ds +:+ rest)
  = Some (printf_token ds, rest).
Proof.
  intros D. apply match_at_intro. rewrite padding_match.
  replace (Str.startswith "%" (printf_token ds +:+ rest)) with true by done.
  by apply printf_match_intro.
Qed.

Lemma padding_at_hash n rest :
  Str.startswith "#" rest = false ->
  Re.match_at padding_pattern (Str.repeat "#" (S n) +:+ rest)
  = Some (Str.repeat "#" (S n), rest).
Proof.
  intros H. apply match_at_intro. rewrite padding_match.
  replace (Str.startswith "%" (Str.repeat "#" (S n) +:+ rest)) with false
    by done.
  by apply hash_match_intro.
Qed.

Lemma padding_at_elim s t rest :
  Re.match_at padding_pattern s = Some (t, rest) ->
  s = t +:+ rest /\
  ((exists ds, Str.all_digits ds = true /\ t = printf_token ds) \/
   (exists n, t = Str.repeat "#" (S n) /\ Str.startswith "#" rest = false)).
Proof.
  intros E. pose proof (match_at_rest _ _ _ _ E) as E'.
  rewrite padding_match in E'.
  destruct (Str.startswith "%" s).
  - destruct (printf_match_elim _ _ E') as (ds & D & ->).
    rewrite (padding_at_printf ds rest D) in E. injection E as <-.
    split; [done|]. left. by exists ds.
  - destruct (hash_match_elim _ _ E') as (n & -> & H).
    rewrite (padding_at_hash n rest H) in E. injection E as <-.
    split; [done|]. right. by exists n.
Qed.

Lemma padding_at_token s t rest :
  Re.match_at padding_pattern s = Some (t, rest) -> token t.
Proof.
  intros E. destruct (padding_at_elim _ _ _ E) as [_ [(ds & D & ->)|(n & -> & _)]].
  - left. by exists ds.
  - right. by exists n.
Qed.

(** *** Token-free text *)

Lemma digits_d_tail ds b c x :
  Str.all_digits ds = true ->
  ds +:+ "d" = b +:+ String c x ->
  Str.is_digit c = true \/ c = "d"%char.
Proof.
  revert b. induction ds as [|c' ds IH]; intros b D E.
  - rewrite str_app_empty_l in E. destruct b as [|c'' [|]]; try done.
    injection E as <-. by right.
  - simpl in D. apply andb_true_iff in D as [Dc D].
    destruct b as [|c'' b].
    + rewrite str_app_empty_l, str_app_cons in E. injection E as <- _. by left.
    + rewrite !str_app_cons in E. injection E as _ E. by apply (IH b).
Qed.

Lemma token_free_no_match pre s :
  token_free pre -> closes_token s ->
  forall a b, pre = a +:+ b -> b <> "" ->
    Re.match_at padding_pattern (b +:+ s) = None.
Proof.
  intros F Hs a b -> Hb.
  destruct (Re.match_at padding_pattern (b +:+ s)) as [[t rest]|] eqn:E;
    [exfalso|done].
  destruct (padding_at_elim _ _ _ E) as [Hcut [(ds & D & ->)|(n & -> & _)]].
  - apply str_app_eq_app in Hcut as [(x & Ht & ->)|(x & -> & _)].
    + destruct x as [|c x].
      * rewrite str_app_empty_r in Ht. subst b.
        apply (F (printf_token ds)); [left; by exists ds|].
        exists a, "". by rewrite str_app_empty_r.
      * destruct b as [|c' b]; [done|].
        unfold printf_token in Ht. rewrite !str_app_cons, str_app_empty_l in Ht.
        injection Ht as <- Ht.
        destruct (digits_d_tail _ _ _ _ D Ht) as [Hc| ->];
          simpl in Hs; destruct Hs; congruence.
    + apply (F (printf_token ds)); [left; by exists ds|].
      by exists a, x.
  - destruct b as [|c b]; [done|].
    simpl in Hcut. rewrite !str_app_cons in Hcut. injection Hcut as -> _.
    apply (F "#"); [right; by exists 0%nat|].
    by exists a, b.
Qed.

Lemma token_free_search s :
  token_free s <-> Re.search padding_pattern s = None.
Proof.
  split.
  - intros F. apply search_none. intros a b ->.
    destruct b as [|c b]; [done|].
    rewrite <- (str_app_empty_r (String c b)).
    by apply (token_free_no_match (a +:+ String c b) "" F I a).
  - intros E t Ht (a & b & ->).
    pose proof (proj1 (search_none _ _) E a (t +:+ b) eq_refl) as N.
    destruct Ht as [(ds & D & ->)|(n & ->)].
    + by rewrite padding_at_printf in N.
    + apply match_at_none_inv in N.
      rewrite padding_match in N. simpl in N.
      destruct (hash_match_some (Str.repeat "#" n +:+ b)) as [r Hr].
      simpl in Hr. congruence.
Qed.

(** *** Decimal text *)

Lemma all_digits_uint d : Str.all_digits (NilEmpty.string_of_uint d) = true.
Proof. induction d; simpl; auto. Qed.

Lemma all_digits_of_nat n : Str.all_digits (Str.of_nat n) = true.
Proof.
  unfold Str.of_nat, NilZero.string_of_uint.
  destruct (Nat.to_uint n); try done; simpl; apply all_digits_uint.
Qed.

Lemma to_nat_of_nat n : Str.to_nat (Str.of_nat n) = n.
Proof.
  unfold Str.to_nat, Str.of_nat, NilZero.string_of_uint.
  pose proof (DecimalNat.Unsigned.of_to n) as E.
  destruct (Nat.to_uint n) eqn:U; try (rewrite NilEmpty.usu; exact E).
  exact E.
Qed.

(** A zero in front does not change the number. *)
Lemma to_nat_zero s : Str.to_nat (String "0" s) = Str.to_nat s.
Proof.
  unfold Str.to_nat. simpl.
  by destruct (NilEmpty.uint_of_string s).
Qed.

Lemma digits_star ds rest :
  Str.all_digits ds = true ->
  Re.match_star Re.Digit (ds +:+ String "d" rest) Some
  = Some (String "d" rest).
Proof.
  induction ds as [|c ds IH]; intros D; [done|].
  simpl in D. apply andb_true_iff in D as [Dc D].
  simpl. rewrite Dc. by rewrite IH.
Qed.

Lemma search_digits_of_token ds :
  Str.all_digits ds = true -> ds <> "" ->
  Re.search digits_pattern (printf_token ds) = Some ("%", ds, "d").
Proof.
  intros D Hne. unfold printf_token.
  apply search_found.
  - intros [|c a] b; rewrite ?str_app_empty_l.
    + by intros <-.
    + rewrite str_app_cons. intros [= <- E] Hb. by destruct a, b.
  - apply match_at_intro. destruct ds as [|c ds]; [done|].
    simpl in D. apply andb_true_iff in D as [Dc D].
    simpl. rewrite Dc. by apply digits_star.
Qed.

(** *** The parse of a base name whose leftmost token is known *)

Lemma closes_token_printf ds rest : closes_token (printf_token ds +:+ rest).
Proof. done. Qed.

Lemma closes_token_hash n rest :
  closes_token (Str.repeat "#" (S n) +:+ rest).
Proof. done. Qed.

Lemma search_printf pre ds rest :
  token_free pre -> Str.all_digits ds = true ->
  Re.search padding_pattern (pre +:+ printf_token ds +:+ rest)
  = Some (pre, printf_token ds, rest).
Proof.
  intros F D. apply search_found.
  - apply token_free_no_match; [done|]. apply closes_token_printf.
  - by apply padding_at_printf.
Qed.

Lemma search_hash pre n rest :
  token_free pre -> Str.startswith "#" rest = false ->
  Re.search padding_pattern (pre +:+ Str.repeat "#" (S n) +:+ rest)
  = Some (pre, Str.repeat "#" (S n), rest).
Proof.
  intros F H. apply search_found.
  - apply token_free_no_match; [done|]. apply closes_token_hash.
  - by apply padding_at_hash.
Qed.

Lemma parse_printf_width pre ds rest :
  token_free pre -> Str.all_digits ds = true -> ds <> "" ->
  parse_padding (pre +:+ printf_token ds +:+ rest)
  = Some (Padding (printf_token ds) (Str.to_nat ds) printf_pattern).
Proof.
  intros F D Hne. unfold parse_padding.
  rewrite (search_printf pre ds rest F D).
  replace (Str.startswith "%" (printf_token ds)) with true by done.
  by rewrite (search_digits_of_token ds D Hne).
Qed.

Lemma parse_printf_bare pre rest :
  token_free pre ->
  parse_padding (pre +:+ "%d" +:+ rest)
  = Some (Padding "%d" 1 printf_pattern).
Proof.
  intros F. unfold parse_padding.
  change "%d" with (printf_token "").
  by rewrite (search_printf pre "" rest F eq_refl).
Qed.

Lemma parse_hash pre n rest :
  token_free pre -> Str.startswith "#" rest = false ->
  parse_padding (pre +:+ Str.repeat "#" (S n) +:+ rest)
  = Some (Padding (Str.repeat "#" (S n)) (S n) hash_pattern).
Proof.
  intros F H. unfold parse_padding.
  rewrite (search_hash pre n rest F H).
  replace (Str.startswith "%" (Str.repeat "#" (S n))) with false by done.
  by rewrite str_length_repeat.
Qed.

Lemma parse_none s : parse_padding s = None <-> token_free s.
Proof.
  rewrite token_free_search. unfold parse_padding.
  destruct (Re.search padding_pattern s) as [[[pre t] rest]|]; [|done].
  by destruct (Str.startswith "%" t).
Qed.

(** *** [re.sub] *)

Lemma sub_skip r x t s :
  Re.sub_from r x (t +:+ s) (String.length t) = Re.sub_from r x s 0.
Proof. induction t as [|c t IH]; [done|]. simpl. apply IH. Qed.

Lemma sub_hit r x t rest :
  t <> "" -> Re.match_at r (t +:+ rest) = Some (t, rest) ->
  Re.sub r x (t +:+ rest) = x +:+ Re.sub r x rest.
Proof.
  intros Ht E. destruct t as [|c t]; [done|].
  unfold Re.sub. rewrite str_app_cons in *.
  cbn [Re.sub_from]. rewrite E. cbn [String.length].
  by rewrite sub_skip.
Qed.

Lemma sub_miss r x c s :
  Re.match_at r (String c s) = None ->
  Re.sub r x (String c s) = String c (Re.sub r x s).
Proof. intros E. unfold Re.sub. cbn [Re.sub_from]. by rewrite E. Qed.

Lemma sub_before r x pre s :
  (forall a b, pre = a +:+ b -> b <> "" -> Re.match_at r (b +:+ s) = None) ->
  Re.sub r x (pre +:+ s) = pre +:+ Re.sub r x s.
Proof.
  intros Hpre. induction pre as [|c pre IH]; [done|].
  rewrite !str_app_cons, sub_miss.
  - rewrite IH; [done|]. intros a b -> Hb.
    apply (Hpre (String c a) b); by rewrite ?str_app_cons.
  - rewrite <- str_app_cons. by apply (Hpre "" (String c pre)).
Qed.

(** The length of the result is affine in the length of the replacement. *)
Lemma sub_length r s :
  forall k, exists a n, forall x,
    String.length (Re.sub_from r x s k)
    = (a + n * String.length x)%nat.
Proof.
  induction s as [|c s IH]; intros k.
  - destruct k as [|k]; [|by exists 0%nat, 0%nat].
    cbn [Re.sub_from]. destruct (Re.match_at r "") as [[m r']|].
    + exists 0%nat, 1%nat. intros x. rewrite str_app_empty_r. lia.
    + by exists 0%nat, 0%nat.
  - destruct k as [|k]; cbn [Re.sub_from]; [|apply IH].
    destruct (Re.match_at r (String c s)) as [[m r']|].
    + destruct (String.length m) as [|j].
      * destruct (IH 0%nat) as (a & n & H). exists (S a), (S n). intros x.
        rewrite str_length_app. simpl. rewrite H. lia.
      * destruct (IH j) as (a & n & H). exists a, (S n). intros x.
        rewrite str_length_app, H. lia.
    + destruct (IH 0%nat) as (a & n & H). exists (S a), n. intros x.
      simpl. by rewrite H.
Qed.

(** Where the padding pattern does not match, neither family does; where
    it matches, the family of the token matches the same text. *)
Lemma padding_none_families s :
  Re.match_at padding_pattern s = None ->
  Re.match_at printf_pattern s = None /\ Re.match_at hash_pattern s = None.
Proof.
  intros E. apply match_at_none_inv in E.
  change (Re.match_re padding_pattern s Some) with
    (Re.or_else (Re.match_re printf_pattern s Some)
                (Re.match_re hash_pattern s Some)) in E.
  destruct (Re.match_re printf_pattern s Some) eqn:E1; [done|].
  simpl in E. split; by apply match_at_none.
Qed.

Lemma padding_some_family s t rest :
  Re.match_at padding_pattern s = Some (t, rest) ->
  Re.match_at (if Str.startswith "%" t then printf_pattern else hash_pattern) s
  = Some (t, rest).
Proof.
  intros E. destruct (padding_at_elim _ _ _ E) as [-> _].
  pose proof (match_at_rest _ _ _ _ E) as E'.
  rewrite padding_match in E'.
  apply match_at_intro.
  destruct t as [|c t].
  - rewrite str_app_empty_l in *.
    destruct (padding_at_elim _ _ _ E) as [_ [(ds & _ & ?)|(n & ? & _)]]; done.
  - rewrite str_app_cons in *. cbn [Str.startswith] in *.
    by destruct (bool_decide (c = "%"%char)).
Qed.

Lemma parse_elim basename p :
  parse_padding basename = Some p ->
  exists pre rest,
    Re.search padding_pattern basename = Some (pre, pad_token p, rest) /\
    pattern p = (if Str.startswith "%" (pad_token p)
                 then printf_pattern else hash_pattern).
Proof.
  unfold parse_padding.
  destruct (Re.search padding_pattern basename) as [[[pre t] rest]|]; [|done].
  destruct (Str.startswith "%" t) eqn:H; intros [= <-]; exists pre, rest;
    simpl; by rewrite H.
Qed.

(** The rendered name: the text before the token, the frame string in
    place of the whole token, and the rest with its further tokens of the
    same family replaced likewise. *)
Lemma sub_token basename p pre rest x :
  parse_padding basename = Some p ->
  Re.search padding_pattern basename = Some (pre, pad_token p, rest) ->
  Re.sub (pattern p) x basename = pre +:+ x +:+ Re.sub (pattern p) x rest.
Proof.
  intros P Hs. destruct (parse_elim _ _ P) as (pre' & rest' & Hs' & ->).
  clear pre' rest' Hs'.
  destruct (search_elim _ _ _ _ _ Hs) as (s' & -> & M & Hpre).
  pose proof (padding_at_elim _ _ _ M) as [-> Htok].
  rewrite sub_before.
  - rewrite sub_hit; [done| |by apply padding_some_family].
    destruct Htok as [(ds & _ & ->)|(n & -> & _)]; done.
  - intros a b Hab Hb. specialize (Hpre a b Hab Hb).
    apply padding_none_families in Hpre as [? ?].
    by destruct (Str.startswith "%" (pad_token p)).
Qed.

(** *** [str] and [zfill] *)

Lemma uint_of_zeros k s d :
  NilEmpty.uint_of_string s = Some d ->
  NilEmpty.uint_of_string (Str.repeat "0" k +:+ s)
  = Some (Nat.iter k Decimal.D0 d).
Proof.
  intros E. induction k as [|k IH]; [done|].
  simpl. by rewrite IH.
Qed.

Lemma Z_of_uint_zeros k d :
  Z.of_uint (Nat.iter k Decimal.D0 d) = Z.of_uint d.
Proof. induction k as [|k IH]; [done|]. simpl. exact IH. Qed.

Lemma uint_string_head d :
  d <> Decimal.Nil ->
  exists c s, NilEmpty.string_of_uint d = String c s /\
              Str.is_digit c = true.
Proof. destruct d; [done|..]; intros _; simpl; by eauto. Qed.

Lemma to_Z_digits k d :
  d <> Decimal.Nil ->
  Str.to_Z (Str.repeat "0" k +:+ NilEmpty.string_of_uint d)
  = Some (Z.of_uint d).
Proof.
  intros Hd. unfold Str.to_Z.
  pose proof (uint_of_zeros k _ d (NilEmpty.usu d)) as E.
  destruct (uint_string_head d Hd) as (c & s & Hs & Dc).
  assert (exists c' s', Str.repeat "0" k +:+ NilEmpty.string_of_uint d
                        = String c' s' /\ Str.is_digit c' = true)
    as (c' & s' & Hs' & Dc').
  { destruct k as [|k]; [by exists c, s|].
    exists "0"%char. by eexists. }
  rewrite Hs' in *. unfold NilZero.int_of_string.
  replace (c' =? "-")%char with false.
  - unfold NilZero.uint_of_string. rewrite E. simpl.
    by rewrite Z_of_uint_zeros.
  - symmetry. apply Ascii.eqb_neq. intros ->. discriminate.
Qed.

Lemma of_Z_pos p :
  Str.of_Z (Z.pos p) = NilEmpty.string_of_uint (Pos.to_uint p).
Proof.
  unfold Str.of_Z. simpl.
  pose proof (DecimalPos.Unsigned.to_uint_nonnil p).
  by destruct (Pos.to_uint p).
Qed.

Lemma of_Z_neg p :
  Str.of_Z (Z.neg p) = String "-" (NilEmpty.string_of_uint (Pos.to_uint p)).
Proof.
  unfold Str.of_Z. simpl.
  pose proof (DecimalPos.Unsigned.to_uint_nonnil p).
  by destruct (Pos.to_uint p).
Qed.

Lemma zfill_digits w d :
  d <> Decimal.Nil ->
  Str.zfill w (NilEmpty.string_of_uint d)
  = Str.repeat "0" (w - String.length (NilEmpty.string_of_uint d))
    +:+ NilEmpty.string_of_uint d.
Proof.
  intros Hd. destruct (uint_string_head d Hd) as (c & s & Hs & Dc).
  rewrite Hs. unfold Str.zfill.
  rewrite !bool_decide_eq_false_2; [done|intros ->; discriminate..].
Qed.

(** Reading the frame string back gives the frame: the string is the
    decimal numeral of the frame, with zeros in front of its digits. *)
Lemma to_Z_zfill w (f : Z) : Str.to_Z (Str.zfill w (Str.of_Z f)) = Some f.
Proof.
  destruct f as [|p|p].
  - change (Str.of_Z 0) with (NilEmpty.string_of_uint (Decimal.D0 Decimal.Nil)).
    rewrite zfill_digits by done. by rewrite to_Z_digits.
  - rewrite of_Z_pos.
    pose proof (DecimalPos.Unsigned.to_uint_nonnil p) as Hd.
    rewrite zfill_digits by done. rewrite to_Z_digits by done.
    unfold Z.of_uint. by rewrite DecimalPos.Unsigned.of_to.
  - rewrite of_Z_neg.
    pose proof (DecimalPos.Unsigned.to_uint_nonnil p) as Hd.
    unfold Str.zfill. rewrite bool_decide_eq_true_2 by done.
    cbn [orb]. unfold Str.to_Z, NilZero.int_of_string.
    rewrite Ascii.eqb_refl.
    pose proof (to_Z_digits
      (w - String.length (String "-" (NilEmpty.string_of_uint (Pos.to_uint p))))
      _ Hd) as E.
    unfold Str.to_Z, NilZero.int_of_string in E.
    destruct (Str.repeat "0" _ +:+ _) as [|c s] eqn:Hs; [done|].
    destruct (c =? "-")%char eqn:Hc.
    + exfalso. apply Ascii.eqb_eq in Hc as ->.
      destruct (uint_string_head _ Hd) as (c & s' & Hs' & Dc).
      rewrite Hs' in Hs.
      destruct (w - _)%nat; simpl in Hs; [|done].
      rewrite str_app_empty_l in Hs. injection Hs as -> _. discriminate.
    + unfold NilZero.uint_of_string in *.
      destruct (NilEmpty.uint_of_string (String c s)) as [d|]; [|done].
      simpl in *. injection E as E. rewrite E.
      unfold Z.of_uint. by rewrite DecimalPos.Unsigned.of_to.
Qed.

Lemma zfill_inj w (f g : Z) :
  Str.zfill w (Str.of_Z f) = Str.zfill w (Str.of_Z g) -> f = g.
Proof.
  intros E. pose proof (to_Z_zfill w f) as Hf.
  rewrite E, to_Z_zfill in Hf. congruence.
Qed.

(** For a frame that is not negative the frame string is its decimal
    numeral behind as many zeros as it is shorter than the width. *)
Lemma zfill_nonneg w (f : Z) :
  0 <= f ->
  Str.zfill w (Str.of_Z f)
  = Str.repeat "0" (w - String.length (Str.of_Z f)) +:+ Str.of_Z f.
Proof.
  intros Hf. destruct f as [|p|p]; [| |lia].
  - change (Str.of_Z 0) with (NilEmpty.string_of_uint (Decimal.D0 Decimal.Nil)).
    by rewrite zfill_digits.
  - rewrite of_Z_pos. apply zfill_digits, DecimalPos.Unsigned.to_uint_nonnil.
Qed.

Lemma zfill_length w s :
  String.length (Str.zfill w s) = Nat.max w (String.length s).
Proof.
  unfold Str.zfill. destruct s as [|c s].
  - rewrite str_length_repeat. simpl. lia.
  - destruct (_ || _); cbn [String.length];
      rewrite ?str_app_cons, str_length_app, str_length_repeat; simpl; lia.
Qed.

Lemma sub_none r x s : Re.search r s = None -> Re.sub r x s = s.
Proof.
  intros E. pose proof (proj1 (search_none _ _) E) as N.
  rewrite <- (str_app_empty_r s) at 1. rewrite sub_before.
  - unfold Re.sub. cbn [Re.sub_from]. rewrite (N s "") by by rewrite str_app_empty_r.
    by rewrite str_app_empty_r.
  - intros a b -> _. rewrite str_app_empty_r. by apply (N a b).
Qed.

Lemma of_Z_nonempty (f : Z) : Str.of_Z f <> "".
Proof.
  destruct f as [|p|p]; [done| |by rewrite of_Z_neg].
  rewrite of_Z_pos.
  destruct (uint_string_head _ (DecimalPos.Unsigned.to_uint_nonnil p))
    as (c & s & -> & _).
  done.
Qed.

(** A base name that parses is cut in three by its leftmost token. *)
Lemma parse_cut basename p :
  parse_padding basename = Some p ->
  exists pre rest,
    basename = pre +:+ pad_token p +:+ rest /\ token_free pre /\
    token (pad_token p) /\
    Re.search padding_pattern basename = Some (pre, pad_token p, rest).
Proof.
  intros P. destruct (parse_elim _ _ P) as (pre & rest & Hs & _).
  exists pre, rest.
  destruct (search_elim _ _ _ _ _ Hs) as (s' & -> & M & Hpre).
  pose proof (padding_at_elim _ _ _ M) as [-> Htok].
  split_and!; [done| |by eapply padding_at_token|done].
  apply token_free_search, search_none. intros a b ->.
  destruct b as [|c b]; [done|].
  specialize (Hpre a (String c b) eq_refl ltac:(done)).
  destruct (Re.match_at padding_pattern (String c b)) as [[t r]|] eqn:E;
    [exfalso|done].
  (* a token inside [pre] would also match with more text behind it,
     unless it is a hash run that the text behind makes longer; either
     way the pattern matches at that position *)
  apply match_at_none_inv in Hpre. rewrite padding_match in Hpre.
  pose proof (padding_at_elim _ _ _ E) as [Hb [(ds & D & ->)|(n & -> & _)]].
  - rewrite Hb in Hpre. rewrite str_app_assoc in Hpre.
    replace (Str.startswith "%" (printf_token ds +:+ r +:+ pad_token p +:+ rest))
      with true in Hpre by done.
    by rewrite printf_match_intro in Hpre.
  - rewrite Hb in Hpre. rewrite str_app_assoc in Hpre.
    replace (Str.startswith "%" (Str.repeat "#" (S n) +:+ r +:+ pad_token p +:+ rest))
      with false in Hpre by done.
    destruct (hash_match_some (Str.repeat "#" n +:+ r +:+ pad_token p +:+ rest))
      as [r' Hr'].
    simpl in Hpre, Hr'. congruence.
Qed.

(* ===================================================================== *)
(** ** Rendering frame names *)
(* ===================================================================== *)

Lemma frame_name_cut basename p pre rest frame :
  parse_padding basename = Some p ->
  Re.search padding_pattern basename = Some (pre, pad_token p, rest) ->
  frame_name p basename frame
  = pre +:+ Str.zfill (pad_len p) (Str.of_Z frame)
    +:+ Re.sub (pattern p) (Str.zfill (pad_len p) (Str.of_Z frame)) rest.
Proof. intros P Hs. unfold frame_name. by apply sub_token. Qed.

(** Different frames get different names. *)
Lemma frame_name_inj basename p (f g : Z) :
  parse_padding basename = Some p ->
  frame_name p basename f = frame_name p basename g -> f = g.
Proof.
  intros P E. destruct (parse_cut _ _ P) as (pre & rest & _ & _ & _ & Hs).
  rewrite !(frame_name_cut _ _ pre rest) in E by done.
  apply String.app_inj in E.
  destruct (sub_length (pattern p) rest 0) as (a & n & L).
  apply (zfill_inj (pad_len p)).
  apply (str_app_inv_length _ _ _ _ E).
  apply (f_equal String.length) in E. rewrite !str_length_app in E.
  unfold Re.sub in E. rewrite !L in E. nia.
Qed.

Lemma frame_range_length (first last : Z) :
  first <= last ->
  Z.of_nat (length (frame_range first last)) = last - first + 1.
Proof. intros H. unfold frame_range. rewrite length_fmap, length_seq. lia. Qed.

Lemma frame_range_lookup (first last : Z) i :
  (i < length (frame_range first last))%nat ->
  frame_range first last !! i = Some (first + Z.of_nat i).
Proof.
  unfold frame_range. rewrite length_fmap, length_seq. intros H.
  rewrite list_lookup_fmap, lookup_seq_lt by done. done.
Qed.

Lemma frame_range_NoDup (first last : Z) : NoDup (frame_range first last).
Proof.
  unfold frame_range. apply NoDup_fmap_2_strong; [|apply NoDup_seq].
  intros i j _ _. lia.
Qed.

(** C3. For a base name with a padding token and a frame range with
    [first <= last], the task list has exactly [last - first + 1] entries;
    the entry of index [i] is the job of frame [first + i], so the jobs
    come in increasing frame order; no two entries have the same file
    name; and each file name is the base name with the leftmost token
    replaced by the frame's decimal numeral zero-filled to the parsed
    width: a text that reads back as the frame number, is as long as the
    width or the numeral, whichever is longer, and for a frame that is not
    negative is the numeral behind the missing zeros. *)
Theorem sequence_tasks_one_per_frame
    p (dirpath new_dir basename : string) (first last : Z) :
  parse_padding basename = Some p -> first <= last ->
  let tasks := sequence_tasks p dirpath new_dir basename first last in
  Z.of_nat (length tasks) = last - first + 1 /\
  (forall i, (i < length tasks)%nat ->
     let name := frame_name p basename (first + Z.of_nat i) in
     tasks !! i = Some (Path.join dirpath name, Path.join new_dir name, name)) /\
  NoDup (snd <$> tasks) /\
  exists pre rest,
    basename = pre +:+ pad_token p +:+ rest /\ token_free pre /\
    forall frame,
      let frame_str := Str.zfill (pad_len p) (Str.of_Z frame) in
      frame_name p basename frame
      = pre +:+ frame_str +:+ Re.sub (pattern p) frame_str rest /\
      Str.to_Z frame_str = Some frame /\
      String.length frame_str
      = Nat.max (pad_len p) (String.length (Str.of_Z frame)) /\
      (0 <= frame ->
       frame_str
       = Str.repeat "0" (pad_len p - String.length (Str.of_Z frame))
         +:+ Str.of_Z frame).
Proof.
  intros P Hle tasks. subst tasks. unfold sequence_tasks.
  split_and!.
  - rewrite length_fmap. by apply frame_range_length.
  - intros i Hi. cbv zeta. rewrite length_fmap in Hi.
    by rewrite list_lookup_fmap, frame_range_lookup.
  - rewrite <- list_fmap_compose.
    apply NoDup_fmap_2_strong; [|apply frame_range_NoDup].
    intros f g _ _ E. simpl in E. by apply (frame_name_inj basename p).
  - destruct (parse_cut _ _ P) as (pre & rest & Hcut & F & _ & Hs).
    exists pre, rest. split_and!; [done..|].
    intros frame. cbv zeta. split_and!.
    + by apply frame_name_cut.
    + apply to_Z_zfill.
    + apply zfill_length.
    + apply zfill_nonneg.
Qed.

Lemma sequence_tasks_one_per_frame_witness :
  let p := Padding "%04d" 4 printf_pattern in
  let tasks :=
    sequence_tasks p "/proj/renders/shot010" "/out/footage/shot010"
                   "shot010.%04d.exr" 1001 1003 in
  Z.of_nat (length tasks) = 3 /\ NoDup (snd <$> tasks).
Proof.
  intros p tasks.
  destruct (sequence_tasks_one_per_frame p "/proj/renders/shot010"
              "/out/footage/shot010" "shot010.%04d.exr" 1001 1003)
    as (L & _ & N & _); [reflexivity|lia|].
  split; [exact L|exact N].
Defined.

(** C6. The frame string takes the place of the whole span of the matched
    token, once: the rendered name is the text before the token, the frame
    string, and the text after the token (in which further tokens of the
    same family, if there are any, are replaced as well; when there are
    none the text after the token is kept as it is).  For the template
    plate.####.dpx and frame 7 the name is plate.0007.dpx. *)
Theorem frame_name_replaces_token_span :
  (forall basename p pre tok rest (frame : Z),
     parse_padding basename = Some p ->
     Re.search padding_pattern basename = Some (pre, tok, rest) ->
     let frame_str := Str.zfill (pad_len p) (Str.of_Z frame) in
     tok = pad_token p /\
     basename = pre +:+ tok +:+ rest /\
     frame_name p basename frame
     = pre +:+ frame_str +:+ Re.sub (pattern p) frame_str rest /\
     (Re.search (pattern p) rest = None ->
      frame_name p basename frame = pre +:+ frame_str +:+ rest)) /\
  (forall p, parse_padding "plate.####.dpx" = Some p ->
     frame_name p "plate.####.dpx" 7 = "plate.0007.dpx").
Proof.
  split.
  - intros basename p pre tok rest frame P Hs frame_str.
    destruct (parse_elim _ _ P) as (pre' & rest' & Hs' & _).
    rewrite Hs in Hs'. injection Hs' as <- -> <-.
    destruct (parse_cut _ _ P) as (pre' & rest' & Hcut & _ & _ & Hs').
    rewrite Hs in Hs'. injection Hs' as <- <-.
    pose proof (frame_name_cut _ _ _ _ frame P Hs) as E.
    split_and!; [done..|].
    intros N. rewrite E. by rewrite (sub_none _ _ _ N).
  - intros p [= <-]. reflexivity.
Qed.

Lemma frame_name_replaces_token_span_witness :
  frame_name (Padding "####" 4 hash_pattern) "plate.####.dpx" 7
  = "plate." +:+ "0007" +:+ ".dpx".
Proof.
  destruct frame_name_replaces_token_span as [H _].
  destruct (H "plate.####.dpx" (Padding "####" 4 hash_pattern)
              "plate." "####" ".dpx" 7 eq_refl eq_refl)
    as (_ & _ & _ & E).
  exact (E eq_refl).
Defined.

(* ===================================================================== *)
(** ** The width of a padding *)
(* ===================================================================== *)

Lemma parse_shape basename p :
  parse_padding basename = Some p ->
  (exists ds, Str.all_digits ds = true /\ pad_token p = printf_token ds /\
     pad_len p = (if bool_decide (ds = "") then 1%nat else Str.to_nat ds) /\
     pattern p = printf_pattern) \/
  (exists n, pad_token p = Str.repeat "#" (S n) /\ pad_len p = S n /\
     pattern p = hash_pattern).
Proof.
  intros P. pose proof P as P'. unfold parse_padding in P'.
  destruct (Re.search padding_pattern basename) as [[[pre t] rest]|] eqn:Hs;
    [|done].
  destruct (search_elim _ _ _ _ _ Hs) as (s' & _ & M & _).
  destruct (padding_at_elim _ _ _ M) as [_ [(ds & D & ->)|(n & -> & _)]].
  - left. exists ds.
    assert (Str.startswith "%" (printf_token ds) = true) as Hst by done.
    rewrite Hst in P'.
    case_bool_decide as Hd.
    + subst ds. by injection P' as <-.
    + rewrite (search_digits_of_token ds D Hd) in P'. by injection P' as <-.
  - right. exists n.
    assert (Str.startswith "%" (Str.repeat "#" (S n)) = false) as Hst by done.
    rewrite Hst in P'. injection P' as <-. cbn [pad_token pad_len pattern].
    by rewrite str_length_repeat.
Qed.

Lemma printf_token_inj ds ds' : printf_token ds = printf_token ds' -> ds = ds'.
Proof.
  unfold printf_token. rewrite !str_app_cons, !str_app_empty_l. intros [= E].
  assert (String.length ds = String.length ds') as L.
  { apply (f_equal String.length) in E. rewrite !str_length_app in E.
    simpl in E. lia. }
  by destruct (str_app_inv_length _ _ _ _ E L).
Qed.

Lemma to_nat_zeros k : Str.to_nat (Str.repeat "0" k) = 0%nat.
Proof. induction k as [|k IH]; [done|]. simpl. by rewrite to_nat_zero. Qed.

Lemma of_uint_acc_zero d acc :
  Nat.of_uint_acc d acc = 0%nat ->
  acc = 0%nat /\
  NilEmpty.string_of_uint d
  = Str.repeat "0" (String.length (NilEmpty.string_of_uint d)).
Proof.
  revert acc. induction d; intros acc E; simpl in E;
    try (apply IHd in E as [E _]; discriminate).
  - done.
  - apply IHd in E as [E Hd]. rewrite Nat.tail_mul_spec in E.
    split; [lia|]. simpl. by f_equal.
Qed.

Lemma to_nat_zero_inv ds :
  Str.all_digits ds = true -> Str.to_nat ds = 0%nat ->
  ds = Str.repeat "0" (String.length ds).
Proof.
  intros D E. unfold Str.to_nat in E.
  destruct (NilEmpty.uint_of_string ds) as [d|] eqn:U.
  - apply NilEmpty.sus in U. subst ds.
    by apply of_uint_acc_zero in E as [_ E].
  - exfalso. clear E. induction ds as [|c ds IH]; [done|].
    simpl in D, U. apply andb_true_iff in D as [Dc D].
    destruct (NilEmpty.uint_of_string ds); [|by apply IH].
    destruct c as [[] [] [] [] [] [] [] []]; done.
Qed.

Lemma zfill_width_zero (s : string) :
  s <> "" -> Str.zfill 0 s = Str.zfill 1 s.
Proof. destruct s as [|c s]; [done|]. intros _. unfold Str.zfill. done. Qed.

(** C7, as the source has it.  A hash run gives its length, which is at
    least 1; the bare %d gives 1; a printf token with digits gives the
    decimal value of its digits.  So the width is 0 exactly when the token
    is a printf token whose digits are all zeros, as in %0d; and a width of
    0 renders every frame as a width of 1 does. *)
Theorem padding_width_bounds basename p :
  parse_padding basename = Some p ->
  (Str.startswith "#" (pad_token p) = true ->
   pad_len p = String.length (pad_token p) /\ (1 <= pad_len p)%nat) /\
  (pad_token p = "%d" -> pad_len p = 1%nat) /\
  (forall ds, ds <> "" -> pad_token p = printf_token ds ->
     pad_len p = Str.to_nat ds) /\
  (pad_len p = 0%nat <->
   exists k, pad_token p = printf_token (Str.repeat "0" (S k))) /\
  (forall frame : Z,
     Str.zfill (pad_len p) (Str.of_Z frame)
     = Str.zfill (Nat.max 1 (pad_len p)) (Str.of_Z frame)).
Proof.
  intros P.
  destruct (parse_shape _ _ P) as [(ds & D & Ht & Hl & _)|(n & Ht & Hl & _)].
  - split_and!.
    + rewrite Ht. done.
    + rewrite Ht. change "%d" with (printf_token "").
      intros E%printf_token_inj. subst ds. by rewrite Hl.
    + intros ds' Hne. rewrite Ht. intros E%printf_token_inj. subst ds'.
      rewrite Hl. by rewrite bool_decide_eq_false_2.
    + rewrite Hl, Ht. split.
      * case_bool_decide as Hd; [done|]. intros E.
        pose proof (to_nat_zero_inv ds D E) as Hz.
        destruct ds as [|c ds]; [done|]. exists (String.length ds).
        by rewrite Hz at 1.
      * intros (k & E%printf_token_inj). subst ds.
        rewrite bool_decide_eq_false_2 by done. apply to_nat_zeros.
    + intros frame. destruct (pad_len p) as [|w] eqn:E.
      * apply zfill_width_zero, of_Z_nonempty.
      * by rewrite Nat.max_r by lia.
  - split_and!.
    + intros _. rewrite Ht, Hl, str_length_repeat. split; [done|lia].
    + rewrite Ht. done.
    + intros ds' _. rewrite Ht. done.
    + rewrite Hl, Ht. split; [done|]. by intros (k & E).
    + intros frame. rewrite Hl. by rewrite Nat.max_r by lia.
Qed.

Lemma padding_width_bounds_witness :
  pad_len (Padding "##" 2 hash_pattern) = 2%nat /\
  (1 <= pad_len (Padding "##" 2 hash_pattern))%nat.
Proof.
  destruct (padding_width_bounds "a.##.exr" (Padding "##" 2 hash_pattern)
              eq_refl) as (H & _).
  exact (H eq_refl).
Defined.

(** The claim C7 as it is written fails on the template plate.%0d.exr:
    its token %0d parses to width 0. *)
Lemma padding_width_zero :
  parse_padding "plate.%0d.exr" = Some (Padding "%0d" 0 printf_pattern) /\
  ~ (forall basename p,
       parse_padding basename = Some p -> (1 <= pad_len p)%nat).
Proof.
  split; [reflexivity|].
  intros H.
  specialize (H "plate.%0d.exr" (Padding "%0d" 0 printf_pattern) eq_refl).
  simpl in H. lia.
Qed.

(* ===================================================================== *)
(** ** Computations *)
(* ===================================================================== *)

Ltac munfold := unfold mbind, M_bind, mret, M_ret in *.

Lemma bind_ok {A B} (m : M A) (f : A -> M B) w a w' :
  m w = (Ok a, w') -> (m ≫= f) w = f a w'.
Proof. intros E. munfold. by rewrite E. Qed.

Lemma bind_raise {A B} (m : M A) (f : A -> M B) w e w' :
  m w = (Raise e, w') -> (m ≫= f) w = (Raise e, w').
Proof. intros E. munfold. by rewrite E. Qed.

Lemma outcomes_app t1 t2 : outcomes (t1 ++ t2) = outcomes t1 ++ outcomes t2.
Proof. apply omap_app. Qed.

Lemma submissions_app t1 t2 :
  submissions (t1 ++ t2) = submissions t1 ++ submissions t2.
Proof. apply omap_app. Qed.

Lemma updates_app t1 t2 : updates (t1 ++ t2) = updates t1 ++ updates t2.
Proof. apply omap_app. Qed.

Lemma attempted_app t1 t2 : attempted (t1 ++ t2) = attempted t1 ++ attempted t2.
Proof. unfold attempted. by rewrite outcomes_app, fmap_app. Qed.

(** *** [copy_file] *)

Lemma copy_file_spec h src dst w :
  let s := Path.normpath src in
  let d := Path.normpath dst in
  copy_file h src dst w =
  (Ok tt,
   if exists_in (fs w) s then
     match shutil_copy2 h s d (fs w) with
     | (Ok _, fs') =>
         World fs' (nodes w) (polls w) (cancelled w)
               (trace w ++ [Tprint (MsgCopy s d)])
     | (Raise e, fs') =>
         World fs' (nodes w) (polls w) (cancelled w)
               (trace w ++ [Tprint (MsgException s d e)])
     end
   else
     World (fs w) (nodes w) (polls w) (cancelled w)
           (trace w ++ [Tprint (MsgMissing s)])).
Proof.
  intros s d. unfold copy_file, try_except, path_exists, copy2, tprint, emit.
  munfold. fold s d. cbn [fst snd].
  destruct (exists_in (fs w) s).
  - by destruct (shutil_copy2 h s d (fs w)) as [[[]|e] fs'].
  - done.
Qed.

(** One call records one outcome, about its normalised source, and leaves
    the graph, the poll count, the flag and the submissions alone. *)
Lemma copy_file_frame h src dst w :
  exists w', copy_file h src dst w = (Ok tt, w') /\
    nodes w' = nodes w /\ polls w' = polls w /\ cancelled w' = cancelled w /\
    submissions (trace w') = submissions (trace w) /\
    updates (trace w') = updates (trace w) /\
    attempted (trace w') = attempted (trace w) ++ [Path.normpath src].
Proof.
  eexists. split; [apply copy_file_spec|].
  destruct (exists_in _ _).
  - destruct (shutil_copy2 _ _ _ _) as [[[]|e] fs']; cbn [nodes polls cancelled trace];
      by rewrite submissions_app, updates_app, attempted_app, !app_nil_r.
  - cbn [nodes polls cancelled trace].
    by rewrite submissions_app, updates_app, attempted_app, !app_nil_r.
Qed.

(** *** The pool *)

(** The pool finishes every job it was given, once. *)
Lemma completion_perm h pending :
  completion h (length pending) pending ≡ₚ pending.
Proof.
  remember (length pending) as fuel eqn:L. revert pending L.
  induction fuel as [|fuel IH]; intros pending L.
  - by destruct pending.
  - destruct pending as [|first rest]; [done|]. cbn [completion].
    set (i := (finishes_next h (first :: rest) `mod` length (first :: rest))%nat).
    assert (i < length (first :: rest))%nat as Hi
      by (apply Nat.mod_upper_bound; cbn; lia).
    destruct (lookup_lt_is_Some_2 _ _ Hi) as [job Hjob].
    rewrite (nth_lookup_Some _ _ _ _ Hjob).
    rewrite IH.
    + symmetry. by apply delete_Permutation.
    + rewrite length_delete by by eexists. cbn [length] in *. lia.
Qed.

Lemma run_jobs_spec h jobs w :
  exists w', run_jobs h jobs w = (Ok tt, w') /\
    nodes w' = nodes w /\ polls w' = polls w /\ cancelled w' = cancelled w /\
    submissions (trace w') = submissions (trace w) /\
    updates (trace w') = updates (trace w) /\
    attempted (trace w')
    = attempted (trace w) ++ (Path.normpath ∘ fst <$> jobs).
Proof.
  revert w. induction jobs as [|[src dst] jobs IH]; intros w.
  - exists w. by rewrite app_nil_r.
  - destruct (copy_file_frame h src dst w)
      as (w1 & E1 & N1 & P1 & C1 & S1 & U1 & A1).
    destruct (IH w1) as (w2 & E2 & N2 & P2 & C2 & S2 & U2 & A2).
    exists w2. split.
    + cbn [run_jobs]. unfold run_future. munfold. by rewrite E1.
    + split_and!; try congruence.
      rewrite A2, A1, <- app_assoc. done.
Qed.

(** At the wait every job that was submitted runs, once, in the order in
    which the pool finishes them. *)
Lemma wait_spec h futures w :
  exists w', wait h futures w = (Ok tt, w') /\
    nodes w' = nodes w /\ polls w' = polls w /\ cancelled w' = cancelled w /\
    submissions (trace w') = submissions (trace w) /\
    updates (trace w') = updates (trace w) /\
    attempted (trace w')
    = attempted (trace w)
      ++ (Path.normpath ∘ fst <$> completion h (length futures) futures) /\
    attempted (trace w')
    ≡ₚ attempted (trace w) ++ (Path.normpath ∘ fst <$> futures).
Proof.
  destruct (run_jobs_spec h (completion h (length futures) futures) w)
    as (w' & E & N & P & C & S & U & A).
  exists w'. split_and!; try done.
  by rewrite A, completion_perm.
Qed.

Lemma submit_tasks_cons h src dst name rest futures w :
  submit_tasks h ((src, dst, name) :: rest) futures w =
  if isCancelled h (polls w) then
    (Ok futures, World (fs w) (nodes w) (S (polls w)) true (trace w))
  else
    submit_tasks h rest (futures ++ [(src, dst)])
      (World (fs w) (nodes w) (S (polls w)) (cancelled w)
         (trace w ++ [Tprint (MsgFrame name);
                      SetMessage ("Collecting frame: " +:+ name);
                      Submit src dst])).
Proof.
  cbn [submit_tasks]. unfold is_cancelled, set_cancelled, tprint, emit.
  munfold. cbn [fs nodes polls cancelled trace].
  destruct (isCancelled h (polls w)); [done|].
  by rewrite <- !app_assoc.
Qed.

(** Whatever the polls answer, the loop submits the tasks of a head of the
    list, one after the other, and returns those jobs as its futures. *)
Lemma submit_tasks_frame h tasks futures w :
  exists k w',
    submit_tasks h tasks futures w
    = (Ok (futures ++ (task_job <$> take k tasks)), w') /\
    (k <= length tasks)%nat /\
    fs w' = fs w /\ nodes w' = nodes w /\ (polls w <= polls w')%nat /\
    (cancelled w = true -> cancelled w' = true) /\
    (k < length tasks -> cancelled w' = true)%nat /\
    submissions (trace w')
    = submissions (trace w) ++ (task_job <$> take k tasks) /\
    updates (trace w') = updates (trace w) /\
    attempted (trace w') = attempted (trace w).
Proof.
  revert futures w.
  induction tasks as [|[[src dst] name] tasks IH]; intros futures w.
  - exists 0%nat, w. cbn [take fmap list_fmap]. rewrite !app_nil_r.
    split_and!; try done; simpl; lia.
  - rewrite submit_tasks_cons. destruct (isCancelled h (polls w)).
    + exists 0%nat. eexists. rewrite take_0, fmap_nil, !app_nil_r.
      split; [done|]. cbn [fs nodes polls cancelled trace length].
      split_and!; try done; lia.
    + destruct (IH (futures ++ [(src, dst)])
                  (World (fs w) (nodes w) (S (polls w)) (cancelled w)
                     (trace w ++ [Tprint (MsgFrame name);
                        SetMessage ("Collecting frame: " +:+ name);
                        Submit src dst])))
        as (k & w' & E & Hk & F & N & P & C & Ck & S & U & A).
      cbn [fs nodes polls cancelled trace] in *.
      exists (Datatypes.S k), w'. rewrite E.
      cbn [take fmap list_fmap length]. split_and!; try done.
      * by rewrite <- app_assoc.
      * lia.
      * lia.
      * intros ?. apply Ck. lia.
      * rewrite S, submissions_app, <- app_assoc. done.
      * rewrite U, updates_app. by rewrite app_nil_r.
      * rewrite A, attempted_app. by rewrite app_nil_r.
Qed.

(** While the polls answer "not cancelled" every task is submitted. *)
Lemma submit_tasks_quiet h tasks futures w :
  quiet h (polls w) (polls w + length tasks) ->
  exists w',
    submit_tasks h tasks futures w = (Ok (futures ++ (task_job <$> tasks)), w') /\
    fs w' = fs w /\ nodes w' = nodes w /\
    polls w' = (polls w + length tasks)%nat /\
    cancelled w' = cancelled w /\
    submissions (trace w') = submissions (trace w) ++ (task_job <$> tasks) /\
    updates (trace w') = updates (trace w) /\
    attempted (trace w') = attempted (trace w).
Proof.
  revert futures w.
  induction tasks as [|[[src dst] name] tasks IH]; intros futures w Q.
  - exists w. cbn [fmap list_fmap length]. rewrite !app_nil_r.
    split_and!; try done; lia.
  - rewrite submit_tasks_cons. rewrite (Q (polls w)) by (simpl; lia).
    destruct (IH (futures ++ [(src, dst)])
                (World (fs w) (nodes w) (S (polls w)) (cancelled w)
                   (trace w ++ [Tprint (MsgFrame name);
                      SetMessage ("Collecting frame: " +:+ name);
                      Submit src dst])))
      as (w' & E & F & N & P & C & S & U & A).
    { intros k Hk. apply Q. cbn [polls length] in *. lia. }
    cbn [fs nodes polls cancelled trace] in *.
    exists w'. rewrite E. split_and!; try done.
    + by rewrite <- app_assoc.
    + simpl. lia.
    + rewrite S, submissions_app, <- app_assoc. done.
    + rewrite U, updates_app. by rewrite app_nil_r.
    + rewrite A, attempted_app. by rewrite app_nil_r.
Qed.

(** When the poll before a task answers "cancelled", that task and the
    ones behind it are not submitted. *)
Lemma submit_tasks_cancelled h done_ left futures w :
  quiet h (polls w) (polls w + length done_) ->
  isCancelled h (polls w + length done_) = true ->
  left <> [] ->
  exists w',
    submit_tasks h (done_ ++ left) futures w
    = (Ok (futures ++ (task_job <$> done_)), w') /\
    fs w' = fs w /\ nodes w' = nodes w /\
    polls w' = S (polls w + length done_) /\
    cancelled w' = true /\
    submissions (trace w') = submissions (trace w) ++ (task_job <$> done_) /\
    attempted (trace w') = attempted (trace w).
Proof.
  revert futures w.
  induction done_ as [|[[src dst] name] done_ IH]; intros futures w Q T Hl.
  - destruct left as [|[[src dst] name] left]; [done|].
    cbn [app length] in *. rewrite Nat.add_0_r in T.
    rewrite submit_tasks_cons, T. eexists. rewrite !app_nil_r.
    split; [done|]. cbn [fs nodes polls cancelled trace].
    split_and!; try done; lia.
  - cbn [app]. rewrite submit_tasks_cons.
    rewrite (Q (polls w)) by (simpl; lia).
    destruct (IH (futures ++ [(src, dst)])
                (World (fs w) (nodes w) (S (polls w)) (cancelled w)
                   (trace w ++ [Tprint (MsgFrame name);
                      SetMessage ("Collecting frame: " +:+ name);
                      Submit src dst])))
      as (w' & E & F & N & P & C & S & A); [| |done|].
    { intros k Hk. apply Q. cbn [polls length] in *. lia. }
    { cbn [polls length] in *. rewrite <- T. f_equal. lia. }
    cbn [fs nodes polls cancelled trace] in *.
    exists w'. rewrite E. split_and!; try done.
    + by rewrite <- app_assoc.
    + simpl. lia.
    + rewrite S, submissions_app, <- app_assoc. done.
    + rewrite A, attempted_app. by rewrite app_nil_r.
Qed.

(** *** [os.makedirs] *)

Lemma makedirs_returns h exist_ok p w :
  makedirs_error h exist_ok p (fs w) = None ->
  makedirs h exist_ok p w
  = (Ok tt,
     World (Filesystem (files (fs w)) (dirs (fs w) ∪ made_dirs p))
           (nodes w) (polls w) (cancelled w) (trace w)).
Proof. intros E. unfold makedirs. by rewrite E. Qed.

Lemma makedirs_raises h exist_ok p w e :
  makedirs_error h exist_ok p (fs w) = Some e ->
  makedirs h exist_ok p w = (Raise e, w).
Proof. intros E. unfold makedirs. by rewrite E. Qed.

(** *** [copy_sequence_parallel] *)

Lemma copy_sequence_parallel_unfold h file_path output_dir first last w :
  copy_sequence_parallel h file_path output_dir first last w =
  match makedirs_error h true (sequence_dir file_path output_dir) (fs w) with
  | Some e => (Raise e, w)
  | None =>
      match parse_padding (Path.basename file_path) with
      | None =>
          tprint (MsgNoPadding (Path.basename file_path))
            (sequence_started file_path output_dir first last w)
      | Some p =>
          (submit_tasks h (reference_tasks p file_path output_dir first last)
             [] ≫= wait h)
            (sequence_started file_path output_dir first last w)
      end
  end.
Proof.
  unfold copy_sequence_parallel. fold (sequence_dir file_path output_dir).
  destruct (makedirs_error h true (sequence_dir file_path output_dir) (fs w))
    as [e|] eqn:E.
  - by rewrite (bind_raise _ _ _ _ _ (makedirs_raises _ _ _ _ _ E)).
  - rewrite (bind_ok _ _ _ _ _ (makedirs_returns _ _ _ _ E)).
    unfold sequence_started, reference_tasks, tprint, emit.
    munfold.
    destruct (parse_padding (Path.basename file_path));
      cbn [fs nodes polls cancelled trace files dirs];
      by rewrite <- !app_assoc.
Qed.

Lemma sequence_started_frame file_path output_dir first last w :
  let w1 := sequence_started file_path output_dir first last w in
  nodes w1 = nodes w /\ polls w1 = polls w /\ cancelled w1 = cancelled w /\
  submissions (trace w1) = submissions (trace w) /\
  updates (trace w1) = updates (trace w) /\
  attempted (trace w1) = attempted (trace w).
Proof.
  cbn [sequence_started nodes polls cancelled trace].
  by rewrite submissions_app, updates_app, attempted_app, !app_nil_r.
Qed.

(** The jobs of a batch that run are the jobs that were submitted: a job,
    once submitted, runs, and no other job runs.  The batch returns unless
    its directory cannot be made, in which case nothing else happened. *)
Lemma copy_sequence_parallel_frame h file_path output_dir first last w :
  exists r w' jobs,
    copy_sequence_parallel h file_path output_dir first last w = (r, w') /\
    nodes w' = nodes w /\ (polls w <= polls w')%nat /\
    (cancelled w = true -> cancelled w' = true) /\
    updates (trace w') = updates (trace w) /\
    submissions (trace w') = submissions (trace w) ++ jobs /\
    attempted (trace w')
    ≡ₚ attempted (trace w) ++ (Path.normpath ∘ fst <$> jobs) /\
    match makedirs_error h true (sequence_dir file_path output_dir)
            (fs w) with
    | Some e => r = Raise e /\ w' = w
    | None => r = Ok tt
    end.
Proof.
  rewrite copy_sequence_parallel_unfold.
  destruct (makedirs_error h true (sequence_dir file_path output_dir) (fs w))
    as [e|].
  { exists (Raise e), w, []. rewrite !app_nil_r. split_and!; done. }
  destruct (sequence_started_frame file_path output_dir first last w)
    as (N0 & P0 & C0 & S0 & U0 & A0).
  destruct (parse_padding (Path.basename file_path)) as [p|].
  - destruct (submit_tasks_frame h
                (reference_tasks p file_path output_dir first last) []
                (sequence_started file_path output_dir first last w))
      as (k & w1 & E1 & _ & _ & N1 & P1 & C1 & _ & S1 & U1 & A1).
    destruct (wait_spec h
                ([] ++ (task_job <$>
                   take k (reference_tasks p file_path output_dir first last)))
                w1)
      as (w2 & E2 & N2 & P2 & C2 & S2 & U2 & _ & A2).
    exists (Ok tt), w2,
      (task_job <$>
         take k (reference_tasks p file_path output_dir first last)).
    split; [by rewrite (bind_ok _ _ _ _ _ E1)|].
    cbn [app] in *. split_and!.
    + congruence.
    + lia.
    + intros ?. rewrite C2. apply C1. congruence.
    + congruence.
    + congruence.
    + by rewrite A2, A1, A0.
    + done.
  - unfold tprint, emit. eexists _, _, []. split; [reflexivity|].
    cbn [nodes polls cancelled trace].
    rewrite submissions_app, updates_app, attempted_app, !app_nil_r.
    rewrite N0, P0, S0, U0, A0.
    split_and!; done.
Qed.

(** A batch during which no poll answers "cancelled" runs every task. *)
Lemma copy_sequence_parallel_quiet h file_path output_dir first last p w :
  makedirs_error h true (sequence_dir file_path output_dir) (fs w) = None ->
  parse_padding (Path.basename file_path) = Some p ->
  let tasks := reference_tasks p file_path output_dir first last in
  quiet h (polls w) (polls w + length tasks) ->
  exists w',
    copy_sequence_parallel h file_path output_dir first last w = (Ok tt, w') /\
    nodes w' = nodes w /\ polls w' = (polls w + length tasks)%nat /\
    cancelled w' = cancelled w /\
    submissions (trace w') = submissions (trace w) ++ (task_job <$> tasks) /\
    attempted (trace w')
    ≡ₚ attempted (trace w) ++ (Path.normpath ∘ fst ∘ task_job <$> tasks).
Proof.
  intros M P tasks Q. rewrite copy_sequence_parallel_unfold, M, P.
  destruct (sequence_started_frame file_path output_dir first last w)
    as (N0 & P0 & C0 & S0 & U0 & A0).
  destruct (submit_tasks_quiet h tasks []
              (sequence_started file_path output_dir first last w))
    as (w1 & E1 & _ & N1 & P1 & C1 & S1 & U1 & A1).
  { by rewrite P0. }
  destruct (wait_spec h ([] ++ (task_job <$> tasks)) w1)
    as (w2 & E2 & N2 & P2 & C2 & S2 & U2 & _ & A2).
  exists w2. split; [by rewrite (bind_ok _ _ _ _ _ E1)|].
  cbn [app] in *. split_and!.
  - congruence.
  - by rewrite P2, P1, P0.
  - congruence.
  - by rewrite S2, S1, S0.
  - rewrite A2, A1, A0. by rewrite !list_fmap_compose.
Qed.

(** A batch in which the poll before one of the tasks answers "cancelled"
    submits the tasks before that one and no other, runs those jobs, and
    sets the flag. *)
Lemma copy_sequence_parallel_cancelled
    h file_path output_dir first last p done_ left w :
  makedirs_error h true (sequence_dir file_path output_dir) (fs w) = None ->
  parse_padding (Path.basename file_path) = Some p ->
  reference_tasks p file_path output_dir first last = done_ ++ left ->
  quiet h (polls w) (polls w + length done_) ->
  isCancelled h (polls w + length done_) = true ->
  left <> [] ->
  exists w',
    copy_sequence_parallel h file_path output_dir first last w = (Ok tt, w') /\
    nodes w' = nodes w /\ polls w' = S (polls w + length done_) /\
    cancelled w' = true /\
    submissions (trace w') = submissions (trace w) ++ (task_job <$> done_) /\
    attempted (trace w')
    ≡ₚ attempted (trace w) ++ (Path.normpath ∘ fst ∘ task_job <$> done_).
Proof.
  intros M P T Q C L. rewrite copy_sequence_parallel_unfold, M, P, T.
  destruct (sequence_started_frame file_path output_dir first last w)
    as (N0 & P0 & C0 & S0 & U0 & A0).
  destruct (submit_tasks_cancelled h done_ left []
              (sequence_started file_path output_dir first last w))
    as (w1 & E1 & _ & N1 & P1 & C1 & S1 & A1); [by rewrite P0..|done|].
  destruct (wait_spec h ([] ++ (task_job <$> done_)) w1)
    as (w2 & E2 & N2 & P2 & C2 & S2 & U2 & _ & A2).
  exists w2. split; [by rewrite (bind_ok _ _ _ _ _ E1)|].
  cbn [app] in *. split_and!.
  - congruence.
  - by rewrite P2, P1, P0.
  - congruence.
  - by rewrite S2, S1, S0.
  - rewrite A2, A1, A0. by rewrite !list_fmap_compose.
Qed.

(** *** The main loop *)

Lemma knob_value_spec {A} n knob (v : node -> A) w :
  knob_value n knob v w =
  if has_knob n knob then (Ok (v n), w)
  else (Raise ("NameError: " +:+ knob), w).
Proof. unfold knob_value. by destruct (has_knob n knob). Qed.

Lemma collect_node_cases h footage_path n w :
  collect_node h footage_path n w =
  if negb (has_knob n "file") || has_knob n "Render" then (Ok tt, w)
  else if bool_decide (file_value n = "") then (Ok tt, w)
  else if bool_decide (extension (file_value n) ∈ video_exts) then
    copy_file h (file_value n) (single_file_dst footage_path (file_value n)) w
  else if has_knob n "first" then
    if has_knob n "last" then
      if first_value n =? last_value n then
        copy_file h (file_value n)
          (single_file_dst footage_path (file_value n)) w
      else
        copy_sequence_parallel h (file_value n) footage_path
          (first_value n) (last_value n) w
    else (Raise "NameError: last", w)
  else
    copy_file h (file_value n) (single_file_dst footage_path (file_value n)) w.
Proof.
  unfold collect_node, single_file_dst.
  destruct (has_knob n "file") eqn:Hfile; [|done].
  destruct (has_knob n "Render"); [done|]. cbn [negb orb].
  munfold. rewrite knob_value_spec, Hfile.
  destruct (bool_decide (file_value n = "")); [done|].
  destruct (bool_decide (extension (file_value n) ∈ video_exts)); [done|].
  destruct (has_knob n "first") eqn:Hfirst; [|done].
  rewrite knob_value_spec, Hfirst, knob_value_spec.
  destruct (has_knob n "last"); [|done].
  by destruct (first_value n =? last_value n).
Qed.

(** One turn of the loop leaves the graph and the reported updates alone,
    never takes a poll back and never clears the flag; on a node whose
    frame knobs come as a pair it returns normally, unless the directory
    of its sequence cannot be made: then it raises what [os.makedirs]
    raised, and nothing else has happened. *)
Lemma collect_node_frame h footage_path n w :
  exists r w',
    collect_node h footage_path n w = (r, w') /\
    nodes w' = nodes w /\ (polls w <= polls w')%nat /\
    (cancelled w = true -> cancelled w' = true) /\
    updates (trace w') = updates (trace w) /\
    (node_ok n = true ->
     match node_error h footage_path n (fs w) with
     | Some e => r = Raise e /\ w' = w
     | None => r = Ok tt
     end).
Proof.
  rewrite collect_node_cases. unfold node_error, batched.
  assert (exists r w', (Ok tt, w) = (r, w') /\
            nodes w' = nodes w /\ (polls w <= polls w')%nat /\
            (cancelled w = true -> cancelled w' = true) /\
            updates (trace w') = updates (trace w) /\
            (node_ok n = true -> r = Ok tt)) as Hskip.
  { exists (Ok tt), w. split_and!; (done || lia). }
  assert (exists r w',
            copy_file h (file_value n)
              (single_file_dst footage_path (file_value n)) w = (r, w') /\
            nodes w' = nodes w /\ (polls w <= polls w')%nat /\
            (cancelled w = true -> cancelled w' = true) /\
            updates (trace w') = updates (trace w) /\
            (node_ok n = true -> r = Ok tt)) as Hcopy.
  { destruct (copy_file_frame h (file_value n)
                (single_file_dst footage_path (file_value n)) w)
      as (w' & E & N & P & C & _ & U & _).
    exists (Ok tt), w'. split_and!; try done; try lia; congruence. }
  destruct (has_knob n "file"); cbn [negb orb andb]; [|done].
  destruct (has_knob n "Render"); cbn [negb orb andb]; [done|].
  destruct (bool_decide (file_value n = "")); cbn [negb andb]; [done|].
  destruct (bool_decide (extension (file_value n) ∈ video_exts));
    cbn [negb andb]; [done|].
  destruct (has_knob n "first") eqn:Hfirst; cbn [negb andb]; [|done].
  destruct (has_knob n "last") eqn:Hlast.
  - destruct (first_value n =? last_value n); cbn [negb]; [done|].
    destruct (copy_sequence_parallel_frame h (file_value n) footage_path
                (first_value n) (last_value n) w)
      as (r & w' & jobs & E & N & P & C & U & _ & _ & R).
    exists r, w'. by split_and!.
  - eexists _, w. split_and!; try done; try lia.
    unfold node_ok. by rewrite Hfirst, Hlast.
Qed.

Lemma collect_nodes_cons h footage_path total i n rest w :
  collect_nodes h footage_path total i (n :: rest) w =
  if isCancelled h (polls w) then
    (Ok tt, World (fs w) (nodes w) (S (polls w)) true (trace w))
  else
    (collect_node h footage_path n
       ≫= fun _ => collect_nodes h footage_path total (S i) rest)
      (World (fs w) (nodes w) (S (polls w)) (cancelled w)
         (trace w ++ [SetProgress (Z.of_nat i * 100 / Z.of_nat total);
                      SetMessage ("Processing node: " +:+ node_name n)])).
Proof.
  cbn [collect_nodes]. unfold is_cancelled, set_cancelled, emit.
  munfold. cbn [fs nodes polls cancelled trace].
  destruct (isCancelled h (polls w)); [done|].
  by rewrite <- !app_assoc.
Qed.

Lemma collect_nodes_frame h footage_path total i all w :
  exists r w',
    collect_nodes h footage_path total i all w = (r, w') /\
    nodes w' = nodes w /\ (polls w <= polls w')%nat /\
    (cancelled w = true -> cancelled w' = true) /\
    updates (trace w') = updates (trace w) /\
    (forallb node_ok all = true ->
     r = Ok tt \/
     exists e n f, r = Raise e /\ n ∈ all /\
                   node_error h footage_path n f = Some e).
Proof.
  revert i w. induction all as [|n rest IH]; intros i w.
  - exists (Ok tt), w. split_and!; (auto || lia).
  - rewrite collect_nodes_cons. destruct (isCancelled h (polls w)).
    + eexists _, _. split; [done|]. cbn [nodes polls cancelled trace].
      split_and!; (auto || lia).
    + set (w0 := World _ _ _ _ _).
      destruct (collect_node_frame h footage_path n w0)
        as (r1 & w1 & E1 & N1 & P1 & C1 & U1 & R1).
      assert (updates (trace w0) = updates (trace w)) as U0.
      { subst w0. cbn [trace]. by rewrite updates_app, app_nil_r. }
      destruct r1 as [[]|e].
      * destruct (IH (S i) w1) as (r2 & w2 & E2 & N2 & P2 & C2 & U2 & R2).
        exists r2, w2. split; [by rewrite (bind_ok _ _ _ _ _ E1)|].
        subst w0. cbn [nodes polls cancelled trace] in *.
        split_and!.
        -- congruence.
        -- lia.
        -- auto.
        -- congruence.
        -- cbn [forallb]. intros [_ Hr]%andb_true_iff.
           destruct (R2 Hr) as [->|(e & m & f & -> & Hm & He)]; [by left|].
           right. exists e, m, f. split_and!; [done|by right|done].
      * exists (Raise e), w1. split; [by rewrite (bind_raise _ _ _ _ _ E1)|].
        subst w0. cbn [nodes polls cancelled trace] in *.
        split_and!.
        -- congruence.
        -- lia.
        -- auto.
        -- congruence.
        -- cbn [forallb]. intros [Hn _]%andb_true_iff. right.
           specialize (R1 Hn). cbn [fs] in R1.
           destruct (node_error h footage_path n (fs w)) as [e'|] eqn:He.
           ++ destruct R1 as [[= ->] _]. exists e', n, (fs w).
              split_and!; [done|by left|done].
           ++ done.
Qed.

(** When the poll before a reference answers "cancelled", the loop ends
    there: the flag is set and nothing else happens. *)
Lemma collect_nodes_stop h footage_path total i n rest w :
  isCancelled h (polls w) = true ->
  collect_nodes h footage_path total i (n :: rest) w
  = (Ok tt, World (fs w) (nodes w) (S (polls w)) true (trace w)).
Proof. intros C. by rewrite collect_nodes_cons, C. Qed.

(** A pass over [pre] in which no poll answers "cancelled" goes through
    all of [pre], and the loop goes on behind it. *)
Lemma collect_nodes_app h footage_path total i pre rest w w1 :
  collect_nodes h footage_path total i pre w = (Ok tt, w1) ->
  quiet h (polls w) (polls w1) ->
  collect_nodes h footage_path total i (pre ++ rest) w
  = collect_nodes h footage_path total (i + length pre) rest w1.
Proof.
  revert i w. induction pre as [|n pre IH]; intros i w E Q.
  - injection E as <-. cbn [app length]. by rewrite Nat.add_0_r.
  - cbn [app]. rewrite collect_nodes_cons in *.
    destruct (isCancelled h (polls w)) eqn:C.
    + injection E as <-. cbn [polls] in Q.
      rewrite (Q (polls w)) in C by lia. done.
    + set (w0 := World _ _ _ _ _) in *.
      destruct (collect_node_frame h footage_path n w0)
        as (r1 & w2 & E1 & _ & P1 & _).
      destruct r1 as [[]|e].
      * rewrite (bind_ok _ _ _ _ _ E1) in E. rewrite (bind_ok _ _ _ _ _ E1).
        rewrite (IH (S i) w2 E).
        -- cbn [length]. f_equal. lia.
        -- intros k Hk. apply Q. subst w0. cbn [polls] in *. lia.
      * by rewrite (bind_raise _ _ _ _ _ E1) in E.
Qed.

(** *** Passes in which no poll answers "cancelled" *)

Lemma submit_tasks_complete h tasks futures w futures' w' :
  submit_tasks h tasks futures w = (Ok futures', w') ->
  quiet h (polls w) (polls w') ->
  futures' = futures ++ (task_job <$> tasks) /\
  cancelled w' = cancelled w /\
  submissions (trace w') = submissions (trace w) ++ (task_job <$> tasks) /\
  attempted (trace w') = attempted (trace w).
Proof.
  revert futures w.
  induction tasks as [|[[src dst] name] tasks IH]; intros futures w E Q.
  - injection E as <- <-. cbn [fmap list_fmap]. by rewrite !app_nil_r.
  - rewrite submit_tasks_cons in E.
    destruct (isCancelled h (polls w)) eqn:C.
    + injection E as <- <-. cbn [polls] in Q.
      rewrite (Q (polls w)) in C by lia. done.
    + destruct (submit_tasks_frame h tasks (futures ++ [(src, dst)])
                  (World (fs w) (nodes w) (S (polls w)) (cancelled w)
                     (trace w ++ [Tprint (MsgFrame name);
                        SetMessage ("Collecting frame: " +:+ name);
                        Submit src dst])))
        as (k & w'' & E' & _ & _ & _ & P & _).
      rewrite E in E'. injection E' as _ <-. cbn [polls] in P.
      destruct (IH _ _ E) as (-> & Cn & S & A).
      { intros j Hj. apply Q. cbn [polls] in Hj. lia. }
      cbn [cancelled trace fmap list_fmap] in *.
      split_and!.
      * by rewrite <- app_assoc.
      * done.
      * rewrite S, submissions_app, <- app_assoc. done.
      * rewrite A, attempted_app. by rewrite app_nil_r.
Qed.

Lemma copy_sequence_parallel_complete h file_path output_dir first last w w' :
  copy_sequence_parallel h file_path output_dir first last w = (Ok tt, w') ->
  quiet h (polls w) (polls w') ->
  cancelled w' = cancelled w /\
  attempted (trace w')
  ≡ₚ attempted (trace w)
     ++ match parse_padding (Path.basename file_path) with
        | None => []
        | Some p =>
            Path.normpath ∘ fst <$>
            (task_job <$> reference_tasks p file_path output_dir first last)
        end.
Proof.
  intros E Q. rewrite copy_sequence_parallel_unfold in E.
  destruct (makedirs_error h true (sequence_dir file_path output_dir) (fs w));
    [done|].
  destruct (sequence_started_frame file_path output_dir first last w)
    as (_ & P0 & C0 & _ & _ & A0).
  destruct (parse_padding (Path.basename file_path)) as [p|].
  - destruct (submit_tasks_frame h
                (reference_tasks p file_path output_dir first last) []
                (sequence_started file_path output_dir first last w))
      as (k & w1 & E1 & _).
    rewrite (bind_ok _ _ _ _ _ E1) in E.
    destruct (wait_spec h
                ([] ++ (task_job <$>
                   take k (reference_tasks p file_path output_dir first last)))
                w1)
      as (w2 & E2 & _ & P2 & C2 & _ & _ & _ & A2).
    rewrite E in E2. injection E2 as <-.
    destruct (submit_tasks_complete _ _ _ _ _ _ E1) as (Hf & C1 & _ & A1).
    { rewrite P0, <- P2. exact Q. }
    rewrite Hf in A2. cbn [app] in A2.
    split; [congruence|]. by rewrite A2, A1, A0.
  - unfold tprint, emit in E. injection E as <-. cbn [cancelled trace].
    split; [done|]. by rewrite !attempted_app, !app_nil_r.
Qed.

Lemma collect_node_complete h footage_path n w w' :
  collect_node h footage_path n w = (Ok tt, w') ->
  quiet h (polls w) (polls w') ->
  cancelled w' = cancelled w /\
  attempted (trace w')
  ≡ₚ attempted (trace w)
     ++ (Path.normpath ∘ fst <$> reference_jobs footage_path n).
Proof.
  rewrite collect_node_cases. unfold reference_jobs.
  assert (forall w'',
            copy_file h (file_value n)
              (single_file_dst footage_path (file_value n)) w = (Ok tt, w'') ->
            cancelled w'' = cancelled w /\
            attempted (trace w'')
            ≡ₚ attempted (trace w)
               ++ (Path.normpath ∘ fst <$>
                   [(file_value n,
                     single_file_dst footage_path (file_value n))]))
    as Hcopy.
  { intros w'' E.
    destruct (copy_file_frame h (file_value n)
                (single_file_dst footage_path (file_value n)) w)
      as (w1 & E1 & _ & _ & C & _ & _ & A).
    rewrite E in E1. injection E1 as <-. by rewrite A. }
  destruct (negb (has_knob n "file") || has_knob n "Render").
  { intros [= <-] _. by rewrite app_nil_r. }
  destruct (bool_decide (file_value n = "")).
  { intros [= <-] _. by rewrite app_nil_r. }
  destruct (bool_decide (extension (file_value n) ∈ video_exts)).
  { intros E _. by apply Hcopy. }
  destruct (has_knob n "first"); [|intros E _; by apply Hcopy].
  destruct (has_knob n "last"); [|done].
  destruct (first_value n =? last_value n).
  { intros E _. by apply Hcopy. }
  cbn [negb orb]. intros E Q.
  destruct (copy_sequence_parallel_complete _ _ _ _ _ _ _ E Q) as (C & A).
  split; [done|]. rewrite A.
  by destruct (parse_padding (Path.basename (file_value n))).
Qed.

(** A pass in which no poll answers "cancelled" runs every job of every
    reference, reference by reference (within a batch in the order in
    which the pool finishes the jobs), and leaves the flag as it was. *)
Lemma collect_nodes_complete h footage_path total i all w w' :
  collect_nodes h footage_path total i all w = (Ok tt, w') ->
  quiet h (polls w) (polls w') ->
  cancelled w' = cancelled w /\
  attempted (trace w')
  ≡ₚ attempted (trace w) ++ reference_sources footage_path all.
Proof.
  revert i w. induction all as [|n rest IH]; intros i w E Q.
  - injection E as <-. unfold reference_sources. cbn. by rewrite app_nil_r.
  - rewrite collect_nodes_cons in E.
    destruct (isCancelled h (polls w)) eqn:C.
    + injection E as <-. cbn [polls] in Q.
      rewrite (Q (polls w)) in C by lia. done.
    + set (w0 := World _ _ _ _ _) in *.
      destruct (collect_node_frame h footage_path n w0)
        as (r1 & w1 & E1 & _ & P1 & _).
      destruct r1 as [[]|e]; [|by rewrite (bind_raise _ _ _ _ _ E1) in E].
      rewrite (bind_ok _ _ _ _ _ E1) in E.
      destruct (collect_nodes_frame h footage_path total (S i) rest w1)
        as (r2 & w2 & E2 & _ & P2 & _).
      rewrite E in E2. injection E2 as _ <-.
      destruct (collect_node_complete _ _ _ _ _ E1) as (C1 & A1).
      { intros k Hk. apply Q. subst w0. cbn [polls] in *. lia. }
      destruct (IH _ _ E) as (C2 & A2).
      { intros k Hk. apply Q. subst w0. cbn [polls] in *. lia. }
      subst w0. cbn [cancelled trace] in *.
      split; [congruence|].
      rewrite A2, A1, attempted_app, app_nil_r, <- app_assoc.
      done.
Qed.

(** *** The post-pass *)

Lemma new_path_ok n w :
  has_knob n "file" = true -> node_ok n = true ->
  new_path n w = (Ok (relocated n), w).
Proof.
  intros Hfile Hok. unfold new_path, relocated, node_ok in *. munfold.
  rewrite knob_value_spec, Hfile.
  destruct (has_knob n "first") eqn:Hfirst.
  - cbn [implb] in Hok.
    rewrite knob_value_spec, Hfirst, knob_value_spec, Hok. cbn [andb].
    by destruct (negb (first_value n =? last_value n)
                 && negb (bool_decide (extension (file_value n) ∈ video_exts))).
  - done.
Qed.

Lemma update_node_path_spec i n w :
  nodes w !! i = Some n ->
  has_knob n "file" = true -> node_ok n = true ->
  update_node_path i w =
  (Ok tt,
   World (fs w) (alter (set_file_value (relocated n)) i (nodes w))
         (polls w) (cancelled w)
         (trace w ++ [Tprint (MsgUpdate (node_name n) (relocated n))])).
Proof.
  intros Hi Hfile Hok. unfold update_node_path, get_nodes. munfold.
  rewrite Hi, (new_path_ok n w Hfile Hok). done.
Qed.

Lemma update_nodes_spec all :
  forall done_ w,
    nodes w = done_ ++ all -> forallb node_ok all = true ->
    exists w',
      update_nodes (length done_) all w = (Ok tt, w') /\
      fs w' = fs w /\ polls w' = polls w /\ cancelled w' = cancelled w /\
      nodes w' = done_ ++ (rewritten <$> all) /\
      updates (trace w') = updates (trace w) ++ omap reported_update all /\
      submissions (trace w') = submissions (trace w) /\
      attempted (trace w') = attempted (trace w).
Proof.
  induction all as [|n rest IH]; intros done_ w Hn Hok.
  - exists w. rewrite Hn. cbn [fmap list_fmap omap list_omap].
    by rewrite !app_nil_r.
  - cbn [forallb] in Hok. apply andb_true_iff in Hok as [Hok Hrest].
    cbn [update_nodes fmap list_fmap omap list_omap].
    unfold rewritten at 1, reported_update at 1.
    destruct (has_knob n "file" && negb (has_knob n "Render")) eqn:El.
    + apply andb_true_iff in El as [Hfile _].
      assert (nodes w !! length done_ = Some n) as Hi.
      { rewrite Hn. by apply list_lookup_middle. }
      rewrite (bind_ok _ _ _ _ _
                 (update_node_path_spec _ _ _ Hi Hfile Hok)).
      set (w1 := World _ _ _ _ _).
      destruct (IH (done_ ++ [set_file_value (relocated n) n]) w1)
        as (w' & E & F & P & C & N & U & S & A); [|done|].
      { subst w1. cbn [nodes]. rewrite Hn.
        replace (length done_) with (length done_ + 0)%nat by lia.
        rewrite alter_app_r. cbn. by rewrite <- app_assoc. }
      rewrite length_app in E. cbn [length] in E.
      rewrite Nat.add_1_r in E.
      exists w'. subst w1. cbn [fs nodes polls cancelled trace] in *.
      split_and!; try done.
      * by rewrite N, <- app_assoc.
      * rewrite U, updates_app, <- app_assoc. done.
      * rewrite S, submissions_app. by rewrite app_nil_r.
      * rewrite A, attempted_app. by rewrite app_nil_r.
    + munfold.
      destruct (IH (done_ ++ [n]) w) as (w' & E & F & P & C & N & U & S & A);
        [by rewrite Hn, <- app_assoc|done|].
      rewrite length_app in E. cbn [length] in E.
      rewrite Nat.add_1_r in E.
      exists w'. split_and!; try done.
      by rewrite N, <- app_assoc.
Qed.

(** *** The conversion of line 153 *)

Lemma gizmo_remove_length x l : (length (Gizmo.remove x l) <= length l)%nat.
Proof.
  induction l as [|y l IH]; [done|]. cbn.
  case_bool_decide; cbn; lia.
Qed.

Lemma convert_one_length g node st :
  (length (Gizmo.gizmo_selection (Gizmo.convert_one g node st))
   <= length (Gizmo.gizmo_selection st))%nat.
Proof.
  unfold Gizmo.convert_one. destruct (_ && _); cbn; [|lia].
  apply gizmo_remove_length.
Qed.

(** The loop over the gizmos ends, on every host: each turn moves the
    index on and the list it runs over never grows. *)
Lemma convert_loop_ends g fuel :
  forall i st,
    (length (Gizmo.gizmo_selection st) <= fuel + i)%nat ->
    is_Some (Gizmo.convert_loop g fuel i st).
Proof.
  induction fuel as [|fuel IH]; intros i st Hl.
  - cbn. destruct (Gizmo.gizmo_selection st !! i) eqn:E; [|by eexists].
    apply lookup_lt_Some in E. lia.
  - cbn. destruct (Gizmo.gizmo_selection st !! i) eqn:E; [|by eexists].
    apply IH. pose proof (convert_one_length g n st). lia.
Qed.

Lemma conversion_total g :
  Gizmo.convert_gizmo_to_group g = Some (conversion_calls g).
Proof.
  unfold conversion_calls, Gizmo.convert_gizmo_to_group.
  destruct (Gizmo.allNodes g) as [|n0 l0]; [done|].
  cbv zeta.
  set (gs := filter (fun n => Gizmo.gizmo_file g n = true) (n0 :: l0)).
  destruct (convert_loop_ends g (length gs) 0 (Gizmo.State gs [] [] []))
    as [st E]; [cbn; lia|].
  by rewrite E.
Qed.

Lemma convert_gizmo_to_group_spec h w :
  convert_gizmo_to_group h w
  = (Ok tt,
     World (fs w) (nodes w) (polls w) (cancelled w)
           (trace w ++ (Conversion <$> conversion_calls (conversion h)))).
Proof. unfold convert_gizmo_to_group. by rewrite conversion_total. Qed.

Lemma conversion_events calls :
  updates (Conversion <$> calls) = [] /\
  submissions (Conversion <$> calls) = [] /\
  attempted (Conversion <$> calls) = [].
Proof.
  unfold attempted, updates, submissions, outcomes.
  induction calls as [|c calls (IH1 & IH2 & IH3)]; [done|].
  cbn. by split_and!.
Qed.

(** *** [collect] *)

Lemma preflight_cases h w :
  preflight h w =
  if negb (panel_result h =? 1) || bool_decide (panel_value h = "") then
    (Ok None,
     World (fs w) (nodes w) (polls w) (cancelled w)
           (trace w ++ [Tprint MsgPanelCancelled]))
  else
    let target_path := chosen_target h (fs w) in
    if exists_in (fs w) target_path then (Ok (Some target_path), w)
    else if ask_create h then
      match makedirs_error h false target_path (fs w) with
      | Some e => (Raise e, w)
      | None =>
          (Ok (Some target_path),
           World (Filesystem (files (fs w))
                    (dirs (fs w) ∪ made_dirs target_path))
                 (nodes w) (polls w) (cancelled w) (trace w))
      end
    else
      (Ok None,
       World (fs w) (nodes w) (polls w) (cancelled w)
             (trace w
              ++ [Message "Cannot proceed without valid target directory."])).
Proof.
  unfold preflight.
  destruct (negb (panel_result h =? 1) || bool_decide (panel_value h = "")).
  { unfold tprint, emit. by munfold. }
  unfold path_isfile, path_exists. munfold. fold (chosen_target h (fs w)).
  cbv zeta.
  destruct (exists_in (fs w) (chosen_target h (fs w))); [done|].
  destruct (ask_create h); [|unfold emit; by munfold].
  destruct (makedirs_error h false (chosen_target h (fs w)) (fs w))
    as [e|] eqn:E.
  - by rewrite (makedirs_raises _ _ _ _ _ E).
  - by rewrite (makedirs_returns _ _ _ _ E).
Qed.

(** The way to the output directory touches neither the graph nor the
    flag, polls nothing, and reports no update and no copy. *)
Lemma preflight_frame h w :
  exists r w',
    preflight h w = (r, w') /\
    nodes w' = nodes w /\ polls w' = polls w /\ cancelled w' = cancelled w /\
    updates (trace w') = updates (trace w) /\
    submissions (trace w') = submissions (trace w) /\
    attempted (trace w') = attempted (trace w).
Proof.
  rewrite preflight_cases.
  destruct (negb (panel_result h =? 1) || bool_decide (panel_value h = "")).
  - eexists _, _. split; [done|]. cbn [nodes polls cancelled trace].
    by rewrite updates_app, submissions_app, attempted_app, !app_nil_r.
  - cbv zeta. destruct (exists_in _ _); [by eexists _, _|].
    destruct (ask_create h).
    + destruct (makedirs_error _ _ _ _); by eexists _, _.
    + eexists _, _. split; [done|]. cbn [nodes polls cancelled trace].
      by rewrite updates_app, submissions_app, attempted_app, !app_nil_r.
Qed.

(** A run that gets past the way to the output directory. *)
Lemma preflight_passed h w target_path w0 :
  preflight h w = (Ok (Some target_path), w0) ->
  files (fs w0) = files (fs w) /\ dirs (fs w) ⊆ dirs (fs w0) /\
  nodes w0 = nodes w /\ polls w0 = polls w /\ cancelled w0 = cancelled w /\
  trace w0 = trace w.
Proof.
  rewrite preflight_cases.
  destruct (negb (panel_result h =? 1) || bool_decide (panel_value h = ""));
    [done|].
  cbv zeta. destruct (exists_in _ _); [by intros [= _ <-]|].
  destruct (ask_create h); [|done].
  destruct (makedirs_error _ _ _ _); [done|]. intros [= _ <-].
  cbn. split_and!; try done. apply union_subseteq_l.
Qed.

Lemma collect_into_unfold h target_path w :
  collect_into h target_path w
  = match makedirs_error h true (Path.join target_path "footage") (fs w) with
    | Some e => (Raise e, w)
    | None =>
        let (r, w1) :=
          collect_nodes h (Path.join target_path "footage")
            (length (nodes w)) 0 (nodes w)
            (collection_started h target_path w) in
        match r with
        | Ok _ =>
            if cancelled w1 then emit (Message "Collect cancelled.") w1
            else
              (emit (ScriptSaveAs (new_script_path h target_path));;
               update_nodes 0 (nodes w);;
               tprint MsgDone;;
               emit (Message "Collect done!")) w1
        | Raise e => (Raise e, w1)
        end
    end.
Proof.
  unfold collect_into.
  destruct (makedirs_error h true (Path.join target_path "footage") (fs w))
    as [e|] eqn:E.
  - by rewrite (bind_raise _ _ _ _ _ (makedirs_raises _ _ _ _ _ E)).
  - rewrite (bind_ok _ _ _ _ _ (makedirs_returns _ _ _ _ E)).
    set (w0 := World _ _ _ _ _).
    rewrite (bind_ok _ _ _ _ _ (convert_gizmo_to_group_spec h w0)).
    subst w0. cbn [fs nodes polls cancelled trace].
    fold (collection_started h target_path w).
    unfold get_nodes, get_cancelled, new_script_path. munfold.
    cbn [collection_started nodes].
    fold (collection_started h target_path w).
    destruct (collect_nodes _ _ _ _ _ _) as [[[]|e] w1]; [|done].
    by destruct (cancelled w1).
Qed.

(** Past the way to the output directory and with the footage directory
    made, a run on nodes whose frame knobs come as a pair goes as its main
    loop goes: when the loop raises, so does the run, the graph as it
    was and no update reported; when the loop returns, the run returns,
    and it ends either with the flag set, the graph as it was and no
    update reported, or with the flag clear, every node rewritten and its
    update reported. *)
Lemma collect_into_spec h target_path w :
  forallb node_ok (nodes w) = true ->
  makedirs_error h true (Path.join target_path "footage") (fs w) = None ->
  exists r1 w1 w',
    collect_nodes h (Path.join target_path "footage")
      (length (nodes w)) 0 (nodes w) (collection_started h target_path w)
    = (r1, w1) /\
    collect_into h target_path w = (r1, w') /\
    match r1 with
    | Raise _ =>
        w' = w1 /\ nodes w' = nodes w /\
        updates (trace w') = updates (trace w)
    | Ok _ =>
        (cancelled w' = true /\ nodes w' = nodes w /\
         updates (trace w') = updates (trace w)) \/
        (cancelled w' = false /\ nodes w' = rewritten <$> nodes w /\
         updates (trace w')
         = updates (trace w) ++ omap reported_update (nodes w))
    end /\
    cancelled w' = cancelled w1 /\ polls w' = polls w1 /\
    submissions (trace w') = submissions (trace w1) /\
    attempted (trace w') = attempted (trace w1).
Proof.
  intros Hok M. rewrite collect_into_unfold, M.
  destruct (collect_nodes_frame h (Path.join target_path "footage")
              (length (nodes w)) 0 (nodes w)
              (collection_started h target_path w))
    as (r & w1 & E1 & N1 & _ & _ & U1 & _).
  rewrite E1. cbn [collection_started nodes trace] in N1, U1.
  destruct (conversion_events (conversion_calls (conversion h)))
    as (Uc & _ & _).
  rewrite updates_app, Uc, app_nil_r in U1.
  destruct r as [[]|e].
  - destruct (cancelled w1) eqn:C1.
    + eexists _, w1, _. split; [done|]. split; [reflexivity|].
      cbn [nodes polls cancelled trace].
      rewrite updates_app, submissions_app, attempted_app, !app_nil_r.
      split; [left; auto|done].
    + set (w2 := World (fs w1) (nodes w1) (polls w1) (cancelled w1)
                   (trace w1
                    ++ [ScriptSaveAs (new_script_path h target_path)])).
      assert (emit (ScriptSaveAs (new_script_path h target_path)) w1
              = (Ok tt, w2)) as E2 by done.
      rewrite (bind_ok _ _ _ _ _ E2).
      destruct (update_nodes_spec (nodes w) [] w2)
        as (w3 & E3 & _ & P3 & C3 & N3 & U3 & S3 & A3); [by subst w2|done|].
      cbn [length] in E3. rewrite (bind_ok _ _ _ _ _ E3).
      unfold tprint, emit. munfold. cbn [fs nodes polls cancelled trace].
      eexists _, w1, _. split; [done|]. split; [reflexivity|].
      cbn [nodes polls cancelled trace]. subst w2.
      cbn [nodes polls cancelled trace app] in *.
      rewrite !updates_app, !submissions_app, !attempted_app, !app_nil_r.
      rewrite U3, S3, A3, N3, C3, P3.
      rewrite updates_app, submissions_app, attempted_app, !app_nil_r.
      rewrite C1, U1. split; [right; auto|done].
  - eexists _, w1, w1. split; [done|]. split; [done|]. by split_and!.
Qed.

(* ===================================================================== *)
(** ** Paths *)
(* ===================================================================== *)

Lemma has_char_app c s t :
  existsb (fun x => bool_decide (x = c)) (list_ascii_of_string (s +:+ t))
  = existsb (fun x => bool_decide (x = c)) (list_ascii_of_string s)
    || existsb (fun x => bool_decide (x = c)) (list_ascii_of_string t).
Proof.
  induction s as [|c' s IH]; [done|].
  simpl. by rewrite IH, orb_assoc.
Qed.

(** Cutting at the last separator loses nothing. *)
Lemma last_cut c s : s = Str.upto_last c s +:+ Str.after_last c s.
Proof.
  induction s as [|c' s IH]; [done|]. simpl.
  destruct (existsb _ _).
  - by rewrite str_app_cons, <- IH.
  - case_bool_decide; [by subst|done].
Qed.

Lemma after_last_free c s :
  existsb (fun x => bool_decide (x = c))
          (list_ascii_of_string (Str.after_last c s)) = false.
Proof.
  induction s as [|c' s IH]; [done|]. simpl.
  destruct (existsb _ (list_ascii_of_string s)) eqn:E; [done|].
  case_bool_decide as Hc; [done|].
  simpl. rewrite E. by rewrite bool_decide_eq_false_2.
Qed.

(** A base name does not start with a separator. *)
Lemma basename_not_absolute p :
  Str.startswith Path.sep (Path.basename p) = false.
Proof.
  pose proof (after_last_free Path.sep p) as F.
  unfold Path.basename. destruct (Str.after_last Path.sep p) as [|c s];
    [done|].
  simpl in *. by apply orb_false_iff in F as [-> _].
Qed.

Lemma endswith_app c s t :
  t <> "" -> Str.endswith c (s +:+ t) = Str.endswith c t.
Proof.
  intros Ht. induction s as [|c' s IH]; [done|].
  rewrite str_app_cons. simpl. rewrite IH.
  destruct (s +:+ t) eqn:E; [|done].
  destruct s; [|done]. by rewrite str_app_empty_l in E.
Qed.

(** The destination of a single file under an output directory written
    with its trailing separator, as line 140 writes it. *)
Lemma single_file_dst_text target file_path :
  single_file_dst (Path.join (target +:+ "/") "footage") file_path
  = target +:+ "/footage/" +:+ Path.basename file_path.
Proof.
  unfold single_file_dst.
  assert (Path.join (target +:+ "/") "footage" = target +:+ "/footage") as ->.
  { unfold Path.join. cbn [Str.startswith].
    rewrite bool_decide_eq_false_2 by done.
    rewrite endswith_app by done. cbn.
    destruct (target +:+ "/") eqn:E.
    - by destruct target.
    - by rewrite <- E, str_app_assoc. }
  unfold Path.join. rewrite basename_not_absolute.
  rewrite endswith_app by done. cbn [Str.endswith].
  rewrite bool_decide_eq_false_2 by done.
  destruct (target +:+ "/footage") eqn:E.
  - by destruct target.
  - rewrite <- E, str_app_assoc. done.
Qed.

Lemma rstrip_prefix c s : exists y, s = Str.rstrip c s +:+ y.
Proof.
  induction s as [|c' s [y IH]]; [by exists ""|].
  simpl. destruct (Str.rstrip c s) as [|c'' r] eqn:E.
  - case_bool_decide.
    + by exists (String c' s).
    + exists s. done.
  - exists y. rewrite str_app_cons. by rewrite <- IH.
Qed.

Lemma dirname_prefix p : exists y, p = Path.dirname p +:+ y.
Proof.
  unfold Path.dirname.
  pose proof (last_cut Path.sep p) as Hcut.
  destruct (rstrip_prefix Path.sep (Str.upto_last Path.sep p)) as [y Hy].
  destruct (Str.rstrip Path.sep (Str.upto_last Path.sep p)) as [|c r] eqn:E.
  - by eexists.
  - exists (y +:+ Str.after_last Path.sep p).
    rewrite <- str_app_assoc, <- Hy. exact Hcut.
Qed.

Lemma normpath_nonempty p : Path.normpath p <> "".
Proof.
  unfold Path.normpath. destruct p as [|c p]; [done|].
  by destruct (_ +:+ _).
Qed.

Lemma lineage_prefix fuel q x :
  x ∈ lineage fuel q -> exists y, q = x +:+ y.
Proof.
  revert q. induction fuel as [|fuel IH]; intros q; [by intros ?%elem_of_nil|].
  simpl. destruct q as [|c q]; [by intros ?%elem_of_nil|].
  intros [->|Hx]%elem_of_cons.
  - exists "". by rewrite str_app_empty_r.
  - destruct (IH _ Hx) as [y Hy].
    destruct (dirname_prefix (String c q)) as [z Hz].
    exists (y +:+ z). rewrite <- str_app_assoc, <- Hy. exact Hz.
Qed.

Lemma lineage_head q : q <> "" -> q ∈ lineage (String.length q) q.
Proof. destruct q as [|c q]; [done|]. intros _. simpl. apply elem_of_cons. by left. Qed.

(** Making a directory puts nothing into it. *)
Lemma lineage_not_entry q x :
  x ∈ lineage (String.length q) q -> ~ entry_of q x.
Proof.
  intros Hx [Hne Hd].
  destruct (lineage_prefix _ _ _ Hx) as [y Hy].
  destruct (dirname_prefix x) as [z Hz].
  rewrite Hd in Hz.
  assert (String.length q = (String.length x + String.length y)%nat) as L1
    by (by rewrite Hy at 1; rewrite str_length_app).
  assert (String.length x = (String.length q + String.length z)%nat) as L2
    by (by rewrite Hz at 1; rewrite str_length_app).
  destruct y as [|c y]; [|simpl in *; lia].
  rewrite str_app_empty_r in Hy. congruence.
Qed.

(* ===================================================================== *)
(** ** The copy primitive *)
(* ===================================================================== *)

(** A run on nodes whose frame knobs come as a pair returns normally or
    raises what one of its [os.makedirs] calls raised. *)
Lemma collect_result h w :
  forallb node_ok (nodes w) = true ->
  exists r w',
    collect h w = (r, w') /\
    (r = Ok tt \/
     exists e exist_ok p f,
       r = Raise e /\ makedirs_error h exist_ok p f = Some e).
Proof.
  intros Hok. unfold collect.
  destruct (preflight h w) as [[[target|]|e] w0] eqn:E.
  - rewrite (bind_ok _ _ _ _ _ E).
    destruct (preflight_passed _ _ _ _ E) as (_ & _ & N & _).
    rewrite <- N in Hok.
    destruct (makedirs_error h true (Path.join target "footage") (fs w0))
      as [e|] eqn:M.
    + rewrite collect_into_unfold, M. eexists _, _. split; [done|].
      right. by exists e, true, (Path.join target "footage"), (fs w0).
    + destruct (collect_into_spec h target w0 Hok M)
        as (r1 & w1 & w' & E1 & Ec & _).
      exists r1, w'. split; [done|].
      destruct (collect_nodes_frame h (Path.join target "footage")
                  (length (nodes w0)) 0 (nodes w0)
                  (collection_started h target w0))
        as (r & w1' & E1' & _ & _ & _ & _ & R).
      rewrite E1 in E1'. injection E1' as <- <-.
      destruct (R Hok) as [->|(e & n & f & -> & _ & He)]; [by left|].
      right. unfold node_error in He.
      destruct (batched n); [|done].
      by exists e, true,
        (sequence_dir (file_value n) (Path.join target "footage")), f.
  - rewrite (bind_ok _ _ _ _ _ E). exists (Ok tt), w0. split; [done|by left].
  - rewrite (bind_raise _ _ _ _ _ E). exists (Raise e), w0. split; [done|].
    right. revert E. rewrite preflight_cases.
    destruct (negb (panel_result h =? 1) || bool_decide (panel_value h = ""));
      [done|].
    cbv zeta. destruct (exists_in _ _); [done|].
    destruct (ask_create h); [|done].
    destruct (makedirs_error h false (chosen_target h (fs w)) (fs w))
      as [e'|] eqn:M; [|done].
    intros [= -> _]. by exists e, false, (chosen_target h (fs w)), (fs w).
Qed.

(** C2. [copy_file] returns normally whatever the copy does: when the
    source does not exist it prints the missing-source line, when
    [shutil.copy2] raises it prints the failure line with the reason, and
    when the copy succeeds it prints the copy line; nothing else of the
    world changes but what [shutil.copy2] did to the file system.  In a
    batch whose directory could be made, the jobs that run are exactly the
    jobs submitted, whatever their outcomes and in whatever order the pool
    finishes them, and while no poll answers "cancelled" every frame of
    the sequence is submitted and runs.  So no outcome of a copy ends a
    run: on a node whose frame knobs come as a pair the loop body returns
    normally unless the [os.makedirs] call for the node's own directory
    raises, and a run on such nodes returns normally or raises what one of
    its [os.makedirs] calls raised. *)
Theorem copy_file_isolates_failures h :
  (forall src dst w,
     let s := Path.normpath src in
     let d := Path.normpath dst in
     exists w',
       copy_file h src dst w = (Ok tt, w') /\
       (path_exists s w = (Ok false, w) ->
        w' = World (fs w) (nodes w) (polls w) (cancelled w)
                   (trace w ++ [Tprint (MsgMissing s)])) /\
       (forall fs',
          path_exists s w = (Ok true, w) ->
          shutil_copy2 h s d (fs w) = (Ok tt, fs') ->
          w' = World fs' (nodes w) (polls w) (cancelled w)
                     (trace w ++ [Tprint (MsgCopy s d)])) /\
       (forall e fs',
          path_exists s w = (Ok true, w) ->
          shutil_copy2 h s d (fs w) = (Raise e, fs') ->
          w' = World fs' (nodes w) (polls w) (cancelled w)
                     (trace w ++ [Tprint (MsgException s d e)]))) /\
  (forall file_path output_dir first last w,
     makedirs_error h true (sequence_dir file_path output_dir) (fs w) = None ->
     exists w' jobs,
       copy_sequence_parallel h file_path output_dir first last w
       = (Ok tt, w') /\
       submissions (trace w') = submissions (trace w) ++ jobs /\
       attempted (trace w')
       ≡ₚ attempted (trace w) ++ (Path.normpath ∘ fst <$> jobs)) /\
  (forall file_path output_dir first last p w,
     makedirs_error h true (sequence_dir file_path output_dir) (fs w) = None ->
     parse_padding (Path.basename file_path) = Some p ->
     let tasks := reference_tasks p file_path output_dir first last in
     quiet h (polls w) (polls w + length tasks) ->
     exists w',
       copy_sequence_parallel h file_path output_dir first last w
       = (Ok tt, w') /\
       submissions (trace w') = submissions (trace w) ++ (task_job <$> tasks) /\
       attempted (trace w')
       ≡ₚ attempted (trace w)
          ++ (Path.normpath ∘ fst ∘ task_job <$> tasks)) /\
  (forall footage_path n w,
     node_ok n = true ->
     exists w',
       collect_node h footage_path n w
       = (match node_error h footage_path n (fs w) with
          | Some e => Raise e
          | None => Ok tt
          end, w')) /\
  (forall w,
     forallb node_ok (nodes w) = true ->
     exists r w',
       collect h w = (r, w') /\
       (r = Ok tt \/
        exists e exist_ok p f,
          r = Raise e /\ makedirs_error h exist_ok p f = Some e)).
Proof.
  split_and!.
  - intros src dst w s d. eexists. split; [apply copy_file_spec|].
    fold s d. unfold path_exists.
    split_and!.
    + intros [= ->]. done.
    + intros fs' [= ->] ->. done.
    + intros e fs' [= ->] ->. done.
  - intros file_path output_dir first last w M.
    destruct (copy_sequence_parallel_frame h file_path output_dir first last w)
      as (r & w' & jobs & E & _ & _ & _ & _ & S & A & R).
    rewrite M in R. subst r. by exists w', jobs.
  - intros file_path output_dir first last p w M P tasks Q.
    destruct (copy_sequence_parallel_quiet h file_path output_dir first last
                p w M P Q) as (w' & E & _ & _ & _ & S & A).
    by exists w'.
  - intros footage_path n w Hok.
    destruct (collect_node_frame h footage_path n w)
      as (r & w' & E & _ & _ & _ & _ & R).
    exists w'. rewrite E. specialize (R Hok).
    destruct (node_error h footage_path n (fs w)).
    + by destruct R as [-> _].
    + by subst r.
  - apply collect_result.
Qed.

Lemma copy_file_isolates_failures_witness :
  exists w',
    copy_sequence_parallel (sample_host 100) "/proj/shots/plate.####.dpx"
      "/out/footage" 1 3 sample_world = (Ok tt, w') /\
    submissions (trace w')
    = submissions (trace sample_world)
      ++ (task_job <$>
          reference_tasks (Padding "####" 4 hash_pattern)
            "/proj/shots/plate.####.dpx" "/out/footage" 1 3) /\
    attempted (trace w')
    ≡ₚ attempted (trace sample_world)
       ++ (Path.normpath ∘ fst ∘ task_job <$>
           reference_tasks (Padding "####" 4 hash_pattern)
             "/proj/shots/plate.####.dpx" "/out/footage" 1 3).
Proof.
  destruct (copy_file_isolates_failures (sample_host 100))
    as (_ & _ & H & _).
  apply (H "/proj/shots/plate.####.dpx" "/out/footage" 1 3
           (Padding "####" 4 hash_pattern) sample_world).
  - vm_compute. reflexivity.
  - reflexivity.
  - intros k Hk. unfold sample_host. cbn [isCancelled].
    apply Nat.leb_gt. assert (k < 3)%nat as Hk3 by exact (proj2 Hk). lia.
Defined.

(* ===================================================================== *)
(** ** Classification *)
(* ===================================================================== *)

(** C5. A reference with a non-empty path that is not render-only is
    copied as a single file when its extension is a video extension,
    whatever its frame knobs say; otherwise as a sequence when it has a
    frame range with [first <> last]; otherwise, with [first = last] or
    without frame knobs, as a single file.  The single file goes to the
    base name of the path under the footage directory, which under an
    output directory [target/] is [target/footage/<base name>], by a call
    of [copy_file] that hands nothing to the pool. *)
Theorem classification h footage_path n w :
  has_knob n "file" = true -> has_knob n "Render" = false ->
  file_value n <> "" ->
  let path := file_value n in
  let single := copy_file h path (single_file_dst footage_path path) w in
  (extension path ∈ video_exts ->
   collect_node h footage_path n w = single) /\
  (extension path ∉ video_exts ->
   has_knob n "first" = true -> has_knob n "last" = true ->
   first_value n <> last_value n ->
   collect_node h footage_path n w
   = copy_sequence_parallel h path footage_path
       (first_value n) (last_value n) w) /\
  (extension path ∉ video_exts ->
   has_knob n "first" = true -> has_knob n "last" = true ->
   first_value n = last_value n ->
   collect_node h footage_path n w = single) /\
  (extension path ∉ video_exts -> has_knob n "first" = false ->
   collect_node h footage_path n w = single) /\
  single_file_dst footage_path path
  = Path.join footage_path (Path.basename path) /\
  (forall target,
     single_file_dst (Path.join (target +:+ "/") "footage") path
     = target +:+ "/footage/" +:+ Path.basename path) /\
  exists w',
    single = (Ok tt, w') /\
    submissions (trace w') = submissions (trace w) /\
    attempted (trace w') = attempted (trace w) ++ [Path.normpath path].
Proof.
  intros Hfile Hrender Hpath path single.
  pose proof (collect_node_cases h footage_path n w) as E.
  rewrite Hfile, Hrender in E. cbn [negb orb] in E.
  rewrite bool_decide_eq_false_2 in E by done.
  fold path in E. fold single in E.
  split_and!.
  - intros Hv. by rewrite bool_decide_eq_true_2 in E.
  - intros Hv Hfirst Hlast Hne.
    rewrite bool_decide_eq_false_2, Hfirst, Hlast in E by done.
    by rewrite (proj2 (Z.eqb_neq _ _) Hne) in E.
  - intros Hv Hfirst Hlast Heq.
    rewrite bool_decide_eq_false_2, Hfirst, Hlast in E by done.
    by rewrite (proj2 (Z.eqb_eq _ _) Heq) in E.
  - intros Hv Hfirst.
    by rewrite bool_decide_eq_false_2, Hfirst in E.
  - done.
  - intros target. apply single_file_dst_text.
  - destruct (copy_file_frame h path (single_file_dst footage_path path) w)
      as (w' & Ec & _ & _ & _ & S & _ & A).
    by exists w'.
Qed.

Lemma classification_witness :
  collect_node (sample_host 100) "/out/footage" clip sample_world
  = copy_file (sample_host 100) "/proj/clip.MOV" "/out/footage/clip.MOV"
      sample_world.
Proof.
  destruct (classification (sample_host 100) "/out/footage" clip sample_world)
    as (H & _); [reflexivity|reflexivity|discriminate|].
  apply H. vm_compute. set_solver.
Defined.

(* ===================================================================== *)
(** ** A sequence without a padding token *)
(* ===================================================================== *)

Lemma copy_sequence_parallel_no_token h file_path output_dir first last w :
  makedirs_error h true (sequence_dir file_path output_dir) (fs w) = None ->
  parse_padding (Path.basename file_path) = None ->
  copy_sequence_parallel h file_path output_dir first last w =
  (Ok tt,
   World (Filesystem (files (fs w))
            (dirs (fs w) ∪ made_dirs (sequence_dir file_path output_dir)))
         (nodes w) (polls w) (cancelled w)
         (trace w ++
          [Tprint (MsgSequence (Path.basename file_path) first last);
           Tprint (MsgOutputFolder (sequence_dir file_path output_dir));
           Tprint (MsgNoPadding (Path.basename file_path))])).
Proof.
  intros M P. rewrite copy_sequence_parallel_unfold, M, P.
  unfold tprint, emit, sequence_started.
  cbn [fs nodes polls cancelled trace]. by rewrite <- app_assoc.
Qed.

(** When the directory of the sequence cannot be made, the call raises
    what [os.makedirs] raised and nothing else has happened. *)
Lemma copy_sequence_parallel_raises h file_path output_dir first last w e :
  makedirs_error h true (sequence_dir file_path output_dir) (fs w) = Some e ->
  copy_sequence_parallel h file_path output_dir first last w = (Raise e, w).
Proof. intros M. by rewrite copy_sequence_parallel_unfold, M. Qed.

(** C4. The leftmost padding token of a base name decides the parse: a
    printf token with digits gives the decimal value of its digits, so
    %0Nd gives N; the bare %d gives 1; a run of hash signs gives its
    length.  A base name parses to nothing exactly when no padding token
    occurs in it; then [copy_sequence_parallel], once the directory of the
    sequence is made, prints the error line, submits and copies nothing
    and returns normally, and the main loop goes on with the next node.
    (When [os.makedirs] raises, the call raises with it, before anything
    is printed or parsed.) *)
Theorem padding_parse :
  (forall pre ds rest,
     token_free pre -> Str.all_digits ds = true -> ds <> "" ->
     parse_padding (pre +:+ printf_token ds +:+ rest)
     = Some (Padding (printf_token ds) (Str.to_nat ds) printf_pattern)) /\
  (forall pre (n : nat) rest,
     token_free pre ->
     parse_padding (pre +:+ printf_token ("0" +:+ Str.of_nat n) +:+ rest)
     = Some (Padding (printf_token ("0" +:+ Str.of_nat n)) n printf_pattern)) /\
  (forall pre rest,
     token_free pre ->
     parse_padding (pre +:+ "%d" +:+ rest)
     = Some (Padding "%d" 1 printf_pattern)) /\
  (forall pre (n : nat) rest,
     token_free pre -> Str.startswith "#" rest = false ->
     parse_padding (pre +:+ Str.repeat "#" (S n) +:+ rest)
     = Some (Padding (Str.repeat "#" (S n)) (S n) hash_pattern)) /\
  (forall s, token_free s <-> parse_padding s = None) /\
  (forall h file_path output_dir first last w,
     parse_padding (Path.basename file_path) = None ->
     makedirs_error h true (sequence_dir file_path output_dir) (fs w) = None ->
     exists w',
       copy_sequence_parallel h file_path output_dir first last w
       = (Ok tt, w') /\
       submissions (trace w') = submissions (trace w) /\
       attempted (trace w') = attempted (trace w) /\
       trace w' =
       trace w ++
       [Tprint (MsgSequence (Path.basename file_path) first last);
        Tprint (MsgOutputFolder (sequence_dir file_path output_dir));
        Tprint (MsgNoPadding (Path.basename file_path))]) /\
  (forall h file_path output_dir first last w e,
     makedirs_error h true (sequence_dir file_path output_dir) (fs w)
     = Some e ->
     copy_sequence_parallel h file_path output_dir first last w
     = (Raise e, w)) /\
  (forall h footage_path total i n rest w,
     isCancelled h (polls w) = false ->
     makedirs_error h true (sequence_dir (file_value n) footage_path) (fs w)
     = None ->
     has_knob n "file" = true -> has_knob n "Render" = false ->
     file_value n <> "" -> extension (file_value n) ∉ video_exts ->
     has_knob n "first" = true -> has_knob n "last" = true ->
     first_value n <> last_value n ->
     parse_padding (Path.basename (file_value n)) = None ->
     exists w',
       collect_nodes h footage_path total i (n :: rest) w
       = collect_nodes h footage_path total (S i) rest w' /\
       submissions (trace w') = submissions (trace w) /\
       attempted (trace w') = attempted (trace w)).
Proof.
  split_and!.
  - apply parse_printf_width.
  - intros pre n rest F.
    rewrite parse_printf_width; [|done| |done].
    + change ("0" +:+ Str.of_nat n) with (String "0" (Str.of_nat n)).
      by rewrite to_nat_zero, to_nat_of_nat.
    + change ("0" +:+ Str.of_nat n) with (String "0" (Str.of_nat n)).
      cbn [Str.all_digits]. apply all_digits_of_nat.
  - apply parse_printf_bare.
  - apply parse_hash.
  - intros s. by rewrite parse_none.
  - intros h file_path output_dir first last w P M.
    eexists. split; [by apply copy_sequence_parallel_no_token|].
    cbn [trace]. rewrite submissions_app, attempted_app, !app_nil_r.
    done.
  - intros h file_path output_dir first last w e M.
    by apply copy_sequence_parallel_raises.
  - intros h footage_path total i n rest w C M Hfile Hrender Hpath Hv Hfirst
      Hlast Hne P.
    rewrite collect_nodes_cons, C.
    set (w0 := World _ _ _ _ _).
    pose proof (collect_node_cases h footage_path n w0) as E.
    rewrite Hfile, Hrender in E. cbn [negb orb] in E.
    rewrite !bool_decide_eq_false_2, Hfirst, Hlast in E by done.
    rewrite (proj2 (Z.eqb_neq _ _) Hne) in E.
    rewrite (copy_sequence_parallel_no_token _ _ _ _ _ w0 M P) in E.
    eexists. split; [by rewrite (bind_ok _ _ _ _ _ E)|].
    subst w0. cbn [trace].
    rewrite !submissions_app, !attempted_app, !app_nil_r. done.
Qed.

Lemma padding_parse_witness :
  parse_padding ("shot010." +:+ printf_token ("0" +:+ Str.of_nat 4) +:+ ".exr")
  = Some (Padding "%04d" 4 printf_pattern) /\
  parse_padding ("plate." +:+ Str.repeat "#" 4 +:+ ".dpx")
  = Some (Padding "####" 4 hash_pattern).
Proof.
  destruct padding_parse as (_ & H1 & _ & H2 & _).
  split.
  - apply (H1 "shot010." 4%nat ".exr"). apply token_free_search. reflexivity.
  - apply (H2 "plate." 3%nat ".dpx"); [|reflexivity].
    apply token_free_search. reflexivity.
Defined.

(** C9. On a sequence reference whose base name has no padding token,
    [copy_sequence_parallel] submits nothing and copies nothing, yet,
    when [os.makedirs] returned, the directory of the sequence under the
    output directory exists when the call returns: it was made before the
    token was looked for.  No file was added, no directory was removed,
    and if the directory had no entry before, it has none now: a directory
    that did not exist before is new and empty.  (When [os.makedirs]
    raises, so does the call, and the file system is as it was.) *)
Theorem no_token_leaves_directory h file_path output_dir first last w :
  parse_padding (Path.basename file_path) = None ->
  let d := Path.normpath (sequence_dir file_path output_dir) in
  sequence_dir file_path output_dir
  = Path.join output_dir (Path.basename (Path.dirname file_path)) /\
  (makedirs_error h true (sequence_dir file_path output_dir) (fs w) = None ->
   exists w',
     copy_sequence_parallel h file_path output_dir first last w
     = (Ok tt, w') /\
     submissions (trace w') = submissions (trace w) /\
     attempted (trace w') = attempted (trace w) /\
     files (fs w') = files (fs w) /\
     dirs (fs w) ⊆ dirs (fs w') /\
     d ∈ dirs (fs w') /\
     (dir_empty d (fs w) -> dir_empty d (fs w'))) /\
  (forall e,
     makedirs_error h true (sequence_dir file_path output_dir) (fs w)
     = Some e ->
     copy_sequence_parallel h file_path output_dir first last w
     = (Raise e, w)).
Proof.
  intros P d. split; [done|]. split.
  - intros M.
    eexists. split; [by apply copy_sequence_parallel_no_token|].
    cbn [fs trace files dirs].
    rewrite submissions_app, attempted_app, !app_nil_r.
    split_and!; try done.
    + apply union_subseteq_l.
    + apply elem_of_union_r. unfold made_dirs. fold d.
      apply elem_of_list_to_set, lineage_head, normpath_nonempty.
    + intros Hempty p Hp. cbn [files dirs] in Hp.
      apply elem_of_union in Hp as [Hp|Hp].
      * apply Hempty. by apply elem_of_union_l.
      * apply elem_of_union in Hp as [Hp|Hp].
        -- apply Hempty. by apply elem_of_union_r.
        -- unfold made_dirs in Hp. fold d in Hp.
           apply elem_of_list_to_set in Hp. by apply lineage_not_entry.
  - intros e M. by apply copy_sequence_parallel_raises.
Qed.

Lemma no_token_leaves_directory_witness :
  "/out/footage/takes"
  ∈ dirs (fs (snd (copy_sequence_parallel (sample_host 100)
                     (file_value untokened) "/out/footage" 1 5
                     sample_world))).
Proof.
  destruct (no_token_leaves_directory (sample_host 100)
              (file_value untokened) "/out/footage" 1 5 sample_world)
    as (_ & H & _); [reflexivity|].
  destruct H as (w' & E & _ & _ & _ & _ & D & _); [vm_compute; reflexivity|].
  rewrite E. exact D.
Defined.

(* ===================================================================== *)
(** ** Cancellation *)
(* ===================================================================== *)

Lemma submit_tasks_stop h tasks futures w :
  isCancelled h (polls w) = true ->
  exists w',
    submit_tasks h tasks futures w = (Ok futures, w') /\
    fs w' = fs w /\ trace w' = trace w /\
    (tasks <> [] -> cancelled w' = true).
Proof.
  intros C. destruct tasks as [|[[src dst] name] tasks].
  - by exists w.
  - rewrite submit_tasks_cons, C. by eexists.
Qed.

(** C1.  Between references: when a pass over the references before
    reference K returned, having made only polls that answered "not
    cancelled", and the poll before reference K answers "cancelled", the
    run over all the references is that pass over the first K of them,
    with the flag set and one more poll made; the copy jobs that ran are
    all the jobs of the references before K, each once, and no other:
    reference K and the ones behind it add nothing.  In particular a batch
    whose directory could be made and whose polls all answer "not
    cancelled" submits and runs every frame.  Within such a batch: when
    the poll before one of its tasks answers "cancelled", the tasks before
    it are the ones submitted, those jobs and no others run, and the flag
    is set.  Whatever the polls answer, the jobs a batch runs are the jobs
    it submitted, in the order in which the pool finishes them.  And once
    the signal is set and stays set, neither the main loop nor a
    submission loop starts a job: the trace and the file system stay as
    they are. *)
Theorem cancellation_stops_new_jobs h footage_path :
  (forall total i pre n rest w w1,
     collect_nodes h footage_path total i pre w = (Ok tt, w1) ->
     quiet h (polls w) (polls w1) ->
     isCancelled h (polls w1) = true ->
     collect_nodes h footage_path total i (pre ++ n :: rest) w
     = (Ok tt, World (fs w1) (nodes w1) (S (polls w1)) true (trace w1)) /\
     attempted (trace w1)
     ≡ₚ attempted (trace w) ++ reference_sources footage_path pre) /\
  (forall file_path first last p w,
     makedirs_error h true (sequence_dir file_path footage_path) (fs w)
     = None ->
     parse_padding (Path.basename file_path) = Some p ->
     let tasks := reference_tasks p file_path footage_path first last in
     quiet h (polls w) (polls w + length tasks) ->
     exists w',
       copy_sequence_parallel h file_path footage_path first last w
       = (Ok tt, w') /\
       polls w' = (polls w + length tasks)%nat /\
       cancelled w' = cancelled w /\
       submissions (trace w') = submissions (trace w) ++ (task_job <$> tasks) /\
       attempted (trace w')
       ≡ₚ attempted (trace w)
          ++ (Path.normpath ∘ fst ∘ task_job <$> tasks)) /\
  (forall file_path first last p done_ left w,
     makedirs_error h true (sequence_dir file_path footage_path) (fs w)
     = None ->
     parse_padding (Path.basename file_path) = Some p ->
     reference_tasks p file_path footage_path first last = done_ ++ left ->
     quiet h (polls w) (polls w + length done_) ->
     isCancelled h (polls w + length done_) = true ->
     left <> [] ->
     exists w',
       copy_sequence_parallel h file_path footage_path first last w
       = (Ok tt, w') /\
       cancelled w' = true /\
       submissions (trace w') = submissions (trace w) ++ (task_job <$> done_) /\
       attempted (trace w')
       ≡ₚ attempted (trace w)
          ++ (Path.normpath ∘ fst ∘ task_job <$> done_)) /\
  (forall file_path first last w,
     makedirs_error h true (sequence_dir file_path footage_path) (fs w)
     = None ->
     exists w' jobs,
       copy_sequence_parallel h file_path footage_path first last w
       = (Ok tt, w') /\
       submissions (trace w') = submissions (trace w) ++ jobs /\
       attempted (trace w')
       ≡ₚ attempted (trace w) ++ (Path.normpath ∘ fst <$> jobs)) /\
  (forall k0 w,
     (forall k k', (k <= k')%nat ->
        isCancelled h k = true -> isCancelled h k' = true) ->
     (k0 <= polls w)%nat -> isCancelled h k0 = true ->
     (forall total i all,
        exists w',
          collect_nodes h footage_path total i all w = (Ok tt, w') /\
          fs w' = fs w /\ trace w' = trace w /\
          (all <> [] -> cancelled w' = true)) /\
     (forall tasks futures,
        exists w',
          submit_tasks h tasks futures w = (Ok futures, w') /\
          fs w' = fs w /\ trace w' = trace w /\
          (tasks <> [] -> cancelled w' = true))).
Proof.
  split_and!.
  - intros total i pre n rest w w1 E Q C. split.
    + rewrite (collect_nodes_app _ _ _ _ _ _ _ _ E Q).
      by apply collect_nodes_stop.
    + by destruct (collect_nodes_complete _ _ _ _ _ _ _ E Q).
  - intros file_path first last p w M P tasks Q.
    destruct (copy_sequence_parallel_quiet h file_path footage_path first
                last p w M P Q) as (w' & E & _ & Hp & C & S & A).
    by exists w'.
  - intros file_path first last p done_ left w M P T Q C L.
    destruct (copy_sequence_parallel_cancelled h file_path footage_path
                first last p done_ left w M P T Q C L)
      as (w' & E & _ & _ & C' & S & A).
    by exists w'.
  - intros file_path first last w M.
    destruct (copy_sequence_parallel_frame h file_path footage_path first
                last w) as (r & w' & jobs & E & _ & _ & _ & _ & S & A & R).
    rewrite M in R. subst r. by exists w', jobs.
  - intros k0 w Mono Hk0 C0.
    assert (isCancelled h (polls w) = true) as C by by apply (Mono k0).
    split.
    + intros total i [|n rest].
      * by exists w.
      * rewrite collect_nodes_stop by done. by eexists.
    + intros tasks futures. by apply submit_tasks_stop.
Qed.

Lemma cancellation_stops_new_jobs_witness :
  let run :=
    collect_nodes (sample_host 5) "/out/footage" 4 0
      [plate; clip; write; still] sample_world in
  fst run = Ok tt /\ cancelled (snd run) = true /\
  attempted (trace (snd run))
  ≡ₚ ["/proj/shots/plate.0001.dpx"; "/proj/shots/plate.0002.dpx";
      "/proj/shots/plate.0003.dpx"; "/proj/clip.MOV"].
Proof.
  destruct (cancellation_stops_new_jobs (sample_host 5) "/out/footage")
    as (H & _).
  pose (w1 := snd (collect_nodes (sample_host 5) "/out/footage" 4 0
                     [plate; clip] sample_world)).
  assert (polls w1 = 5%nat) as Hp by (vm_compute; reflexivity).
  intros run. subst run.
  change [plate; clip; write; still] with ([plate; clip] ++ write :: [still]).
  destruct (H 4%nat 0%nat [plate; clip] write [still] sample_world w1)
    as (E & A).
  - vm_compute. reflexivity.
  - intros k Hk. rewrite Hp in Hk. unfold sample_host. cbn [isCancelled].
    apply Nat.leb_gt. lia.
  - rewrite Hp. reflexivity.
  - rewrite E. cbn [fst snd cancelled trace].
    split; [reflexivity|]. split; [reflexivity|].
    rewrite A. vm_compute. reflexivity.
Defined.

(* ===================================================================== *)
(** ** The post-pass *)
(* ===================================================================== *)





(* ===================================================================== *)
(** ** The conversion of gizmos to groups *)
(* ===================================================================== *)

Lemma gizmo_converted_app t1 t2 :
  Gizmo.converted (t1 ++ t2) = Gizmo.converted t1 ++ Gizmo.converted t2.
Proof. apply omap_app. Qed.

Lemma gizmo_deleted_app t1 t2 :
  Gizmo.deleted (t1 ++ t2) = Gizmo.deleted t1 ++ Gizmo.deleted t2.
Proof. apply omap_app. Qed.

Lemma gizmo_alerts_app t1 t2 :
  Gizmo.alerts (t1 ++ t2) = Gizmo.alerts t1 ++ Gizmo.alerts t2.
Proof. apply omap_app. Qed.

Lemma omap_imap_none {A B C} (g : B -> option C) (f : nat -> A -> B) l :
  (forall i x, g (f i x) = None) -> omap g (imap f l) = [].
Proof.
  revert f. induction l as [|x l IH]; intros f Hf; [done|].
  cbn. rewrite Hf. apply IH. intros i y. apply Hf.
Qed.

Lemma omap_fmap_none {A B C} (g : B -> option C) (f : A -> B) (l : list A) :
  (forall x, g (f x) = None) -> omap g (f <$> l) = [].
Proof.
  intros Hf. induction l as [|x l IH]; [done|]. cbn. by rewrite Hf.
Qed.

Lemma gizmo_remove_middle x (done_ rest : list nat) :
  x ∉ done_ -> Gizmo.remove x (done_ ++ x :: rest) = done_ ++ rest.
Proof.
  induction done_ as [|y done_ IH]; intros Hx.
  - cbn. by rewrite bool_decide_eq_true_2.
  - apply not_elem_of_cons in Hx as [Hxy Hx]. cbn.
    rewrite bool_decide_eq_false_2 by done. by rewrite IH.
Qed.

(** One turn of the loop. *)
Lemma convert_one_spec h node st :
  let st1 := Gizmo.convert_one h node st in
  Gizmo.converted (Gizmo.trace st1)
  = Gizmo.converted (Gizmo.trace st) ++ [node] /\
  Gizmo.deleted (Gizmo.trace st1) = Gizmo.deleted (Gizmo.trace st) /\
  Gizmo.alerts (Gizmo.trace st1) = Gizmo.alerts (Gizmo.trace st) /\
  if Gizmo.fails h node then
    Gizmo.gizmo_selection st1 = Gizmo.remove node (Gizmo.gizmo_selection st) /\
    Gizmo.group_selection st1 = Gizmo.group_selection st /\
    Gizmo.error_selection st1 = Gizmo.error_selection st ++ [node]
  else
    Gizmo.gizmo_selection st1 = Gizmo.gizmo_selection st /\
    Gizmo.group_selection st1
    = Gizmo.group_selection st ++ [Gizmo.selectedNode h node] /\
    Gizmo.error_selection st1 = Gizmo.error_selection st.
Proof.
  unfold Gizmo.convert_one, Gizmo.fails.
  destruct (Gizmo.tcl_raises h node
            && negb (Gizmo.contains "ImagePlane" (Gizmo.name h node))).
  - cbn [Gizmo.trace Gizmo.gizmo_selection Gizmo.group_selection
         Gizmo.error_selection].
    rewrite gizmo_converted_app, gizmo_deleted_app, gizmo_alerts_app.
    cbn. by rewrite !app_nil_r.
  - cbn [Gizmo.trace Gizmo.gizmo_selection Gizmo.group_selection
         Gizmo.error_selection].
    rewrite !gizmo_converted_app, !gizmo_deleted_app, !gizmo_alerts_app.
    unfold Gizmo.converted, Gizmo.deleted, Gizmo.alerts.
    rewrite !omap_imap_none by done. rewrite !omap_fmap_none by done.
    cbn. by rewrite !app_nil_r.
Qed.

(** The loop, from the gizmo of index [length done_] on: it ends, and the
    lists and the calls are as [visited] and [remaining] say. *)
Lemma convert_loop_spec h n :
  forall rest done_ st fuel,
    (length rest <= n)%nat -> (length rest <= fuel)%nat ->
    Gizmo.gizmo_selection st = done_ ++ rest ->
    NoDup (done_ ++ rest) ->
    exists st',
      Gizmo.convert_loop h fuel (length done_) st = Some st' /\
      Gizmo.gizmo_selection st' = done_ ++ Gizmo.remaining h rest /\
      Gizmo.error_selection st'
      = Gizmo.error_selection st
        ++ filter (fun g => Gizmo.fails h g = true) (Gizmo.visited h rest) /\
      Gizmo.group_selection st'
      = Gizmo.group_selection st
        ++ (Gizmo.selectedNode h
            <$> filter (fun g => Gizmo.fails h g = false)
                  (Gizmo.visited h rest)) /\
      Gizmo.converted (Gizmo.trace st')
      = Gizmo.converted (Gizmo.trace st) ++ Gizmo.visited h rest /\
      Gizmo.deleted (Gizmo.trace st') = Gizmo.deleted (Gizmo.trace st) /\
      Gizmo.alerts (Gizmo.trace st') = Gizmo.alerts (Gizmo.trace st).
Proof.
  induction n as [|n IH]; intros rest done_ st fuel Hn Hfuel Hg Hnd.
  { destruct rest as [|x rest]; [|cbn in Hn; lia].
    exists st. destruct fuel; cbn [Gizmo.convert_loop];
      rewrite Hg, app_nil_r, lookup_ge_None_2 by done;
      cbn; by rewrite !app_nil_r. }
  destruct rest as [|x rest].
  { exists st. destruct fuel; cbn [Gizmo.convert_loop];
      rewrite Hg, app_nil_r, lookup_ge_None_2 by done;
      cbn; by rewrite !app_nil_r. }
  destruct fuel as [|fuel]; [cbn in Hfuel; lia|].
  cbn [length] in Hn, Hfuel. cbn [Gizmo.convert_loop].
  rewrite Hg, list_lookup_middle by done.
  destruct (convert_one_spec h x st) as (Hc & Hd & Ha & Hl).
  set (st1 := Gizmo.convert_one h x st) in *.
  assert (x ∉ done_) as Hx.
  { apply NoDup_app in Hnd as (_ & Hdis & _). intros Hin.
    apply (Hdis x Hin). by left. }
  cbn [Gizmo.visited Gizmo.remaining].
  destruct (Gizmo.fails h x) eqn:Hf.
  - destruct Hl as (Hg1 & Hgr1 & He1).
    rewrite Hg, (gizmo_remove_middle _ _ _ Hx) in Hg1.
    destruct rest as [|y rest].
    + exists st1. destruct fuel; cbn [Gizmo.convert_loop];
        rewrite Hg1, lookup_ge_None_2 by (rewrite app_nil_r; lia);
        rewrite filter_cons_True, filter_cons_False by congruence;
        cbn; rewrite Hgr1, He1, Hc, Hd, Ha, ?app_nil_r; done.
    + cbn [length] in Hn, Hfuel.
      destruct (IH rest (done_ ++ [y]) st1 fuel) as (st' & E & R);
        [lia|lia|by rewrite <- app_assoc|..].
      { rewrite <- app_assoc. cbn.
        apply NoDup_app in Hnd as (N1 & Hdis & N2).
        apply NoDup_app. split_and!; [done| |by apply NoDup_cons in N2 as [_ ?]].
        intros z Hz Hz'. apply (Hdis z Hz). by right. }
      rewrite length_app in E. cbn [length] in E.
      replace (length done_ + 1)%nat with (S (length done_)) in E by lia.
      exists st'. split; [done|].
      destruct R as (R1 & R2 & R3 & R4 & R5 & R6).
      rewrite R1, R2, R3, R4, R5, R6, Hgr1, He1, Hc, Hd, Ha.
      rewrite filter_cons_True, filter_cons_False by congruence.
      rewrite <- !app_assoc. done.
  - destruct Hl as (Hg1 & Hgr1 & He1). rewrite Hg in Hg1.
    destruct (IH rest (done_ ++ [x]) st1 fuel) as (st' & E & R);
      [lia|lia|by rewrite <- app_assoc|by rewrite <- app_assoc|].
    rewrite length_app in E. cbn [length] in E.
    replace (length done_ + 1)%nat with (S (length done_)) in E by lia.
    exists st'. split; [done|].
    destruct R as (R1 & R2 & R3 & R4 & R5 & R6).
    rewrite R1, R2, R3, R4, R5, R6, Hgr1, He1, Hc, Hd, Ha.
    rewrite filter_cons_False, filter_cons_True by congruence.
    rewrite <- !app_assoc. done.
Qed.

Lemma cleanup_spec no_gizmo st :
  let t := Gizmo.cleanup no_gizmo st in
  Gizmo.converted t = Gizmo.converted (Gizmo.trace st) /\
  Gizmo.deleted t
  = Gizmo.deleted (Gizmo.trace st) ++ Gizmo.gizmo_selection st /\
  Gizmo.alerts t
  = Gizmo.alerts (Gizmo.trace st)
    ++ match Gizmo.error_selection st with
       | [] => []
       | _ :: _ => [Gizmo.alert_text (length (Gizmo.error_selection st))]
       end.
Proof.
  unfold Gizmo.cleanup.
  rewrite !gizmo_converted_app, !gizmo_deleted_app, !gizmo_alerts_app.
  assert (forall l,
            Gizmo.converted
              (l ≫= fun y => [Gizmo.select y; Gizmo.Delete y]) = [] /\
            Gizmo.deleted
              (l ≫= fun y => [Gizmo.select y; Gizmo.Delete y]) = l /\
            Gizmo.alerts
              (l ≫= fun y => [Gizmo.select y; Gizmo.Delete y]) = [])
    as Hdel.
  { induction l as [|y l (IH1 & IH2 & IH3)]; [done|].
    cbn. unfold Gizmo.converted, Gizmo.deleted, Gizmo.alerts in *.
    by rewrite IH1, IH2, IH3. }
  destruct (Hdel (Gizmo.gizmo_selection st)) as (-> & -> & ->).
  unfold Gizmo.converted, Gizmo.deleted, Gizmo.alerts.
  rewrite !omap_fmap_none by done.
  destruct (Gizmo.error_selection st); cbn; by rewrite ?app_nil_r.
Qed.

(** The conversion as a whole, on a graph whose nodes are listed once. *)
Lemma convert_spec h :
  NoDup (Gizmo.allNodes h) ->
  exists t,
    Gizmo.convert_gizmo_to_group h = Some t /\
    Gizmo.converted t = Gizmo.visited h (Gizmo.gizmos h) /\
    Gizmo.deleted t = Gizmo.remaining h (Gizmo.gizmos h) /\
    Gizmo.alerts t
    = match filter (fun g => Gizmo.fails h g = true)
              (Gizmo.visited h (Gizmo.gizmos h)) with
      | [] => []
      | failed => [Gizmo.alert_text (length failed)]
      end /\
    (Gizmo.allNodes h <> [] ->
     exists t0,
       t = t0
           ++ (Gizmo.select
               <$> (Gizmo.selectedNode h
                    <$> filter (fun g => Gizmo.fails h g = false)
                          (Gizmo.visited h (Gizmo.gizmos h))))
           ++ (Gizmo.select <$> Gizmo.others h)
           ++ match filter (fun g => Gizmo.fails h g = true)
                      (Gizmo.visited h (Gizmo.gizmos h)) with
              | [] => []
              | failed => [Gizmo.Alert (Gizmo.alert_text (length failed))]
              end).
Proof.
  intros Hnd. unfold Gizmo.convert_gizmo_to_group, Gizmo.gizmos.
  destruct (Gizmo.allNodes h) as [|n0 l0] eqn:Hall.
  { exists []. by rewrite filter_nil. }
  rewrite <- Hall in *. fold (Gizmo.gizmos h). fold (Gizmo.others h).
  destruct (convert_loop_spec h (length (Gizmo.gizmos h)) (Gizmo.gizmos h) []
              (Gizmo.State (Gizmo.gizmos h) [] [] [])
              (length (Gizmo.gizmos h)))
    as (st & E & G & Er & Gr & C & D & A); [done|done|done| |].
  { cbn. by apply NoDup_filter. }
  cbn [length] in E. rewrite E. cbn [mbind option_bind].
  cbn [Gizmo.error_selection Gizmo.group_selection Gizmo.trace app] in *.
  destruct (cleanup_spec (Gizmo.others h) st) as (Cc & Cd & Ca).
  eexists. split; [done|]. rewrite Cc, Cd, Ca, C, D, A, G, Er.
  split_and!.
  - done.
  - done.
  - by destruct (filter _ _).
  - intros _.
    exists (Gizmo.trace st
            ++ (Gizmo.gizmo_selection st
                ≫= fun y => [Gizmo.select y; Gizmo.Delete y])).
    unfold Gizmo.cleanup. rewrite Gr, Er, <- app_assoc.
    do 4 f_equal. destruct (filter _ _); reflexivity.
Qed.

Lemma filter_none {A} (P : A -> Prop) `{forall x, Decision (P x)} (l : list A) :
  (forall x, x ∈ l -> ~ P x) -> filter P l = [].
Proof.
  induction l as [|a l IH]; intros Hl; [done|].
  rewrite filter_cons_False by (apply Hl; by left).
  apply IH. intros x Hx. apply Hl. by right.
Qed.

Lemma filter_all {A} (P : A -> Prop) `{forall x, Decision (P x)} (l : list A) :
  (forall x, x ∈ l -> P x) -> filter P l = l.
Proof.
  induction l as [|a l IH]; intros Hl; [done|].
  rewrite filter_cons_True by (apply Hl; by left).
  f_equal. apply IH. intros x Hx. apply Hl. by right.
Qed.

Lemma list_ind_pairs {A} (P : list A -> Prop) :
  P [] -> (forall x, P [x]) ->
  (forall x y l, P l -> P (y :: l) -> P (x :: y :: l)) ->
  forall l, P l.
Proof.
  intros H0 H1 H2 l. enough (P l /\ forall x, P (x :: l)) by tauto.
  induction l as [|y l [IH1 IH2]]; [by split|].
  split; [apply IH2|]. intros x. by apply H2.
Qed.

Lemma visited_subset h l x : x ∈ Gizmo.visited h l -> x ∈ l.
Proof.
  revert x. induction l as [|a|a b l IH1 IH2] using list_ind_pairs; intros x.
  - done.
  - cbn. by destruct (Gizmo.fails h a).
  - cbn [Gizmo.visited]. intros [->|Hx]%elem_of_cons; [by left|].
    destruct (Gizmo.fails h a).
    + right. right. by apply IH1.
    + right. by apply IH2.
Qed.

Lemma remaining_subset h l x : x ∈ Gizmo.remaining h l -> x ∈ l.
Proof.
  revert x. induction l as [|a|a b l IH1 IH2] using list_ind_pairs; intros x.
  - done.
  - cbn. destruct (Gizmo.fails h a); [by intros ?%elem_of_nil|done].
  - cbn [Gizmo.remaining]. destruct (Gizmo.fails h a).
    + intros [->|Hx]%elem_of_cons; [right; by left|].
      right. right. by apply IH1.
    + intros [->|Hx]%elem_of_cons; [by left|]. right. by apply IH2.
Qed.

Lemma visited_clean h l :
  (forall g, g ∈ l -> Gizmo.fails h g = false) ->
  Gizmo.visited h l = l /\ Gizmo.remaining h l = l.
Proof.
  induction l as [|a l IH]; intros Hl; [done|].
  cbn. rewrite (Hl a) by by left.
  destruct IH as [-> ->]; [|done]. intros g Hg. apply Hl. by right.
Qed.

Lemma visited_app_clean h pre l :
  (forall g, g ∈ pre -> Gizmo.fails h g = false) ->
  Gizmo.visited h (pre ++ l) = pre ++ Gizmo.visited h l /\
  Gizmo.remaining h (pre ++ l) = pre ++ Gizmo.remaining h l.
Proof.
  induction pre as [|a pre IH]; intros Hl; [done|].
  cbn. rewrite (Hl a) by by left.
  destruct IH as [-> ->]; [|done]. intros g Hg. apply Hl. by right.
Qed.

(** X10.  On a graph whose nodes are listed once, the conversion returns:
    its loop over the gizmos ends, although it takes failed gizmos out of
    the list it runs over.  The gizmos it calls the conversion on are the
    ones [visited] lists, in order; the nodes it deletes in the end are
    the ones [remaining] lists, in order; and it shows one alert, with the
    number of reported failures, exactly when there was one. *)
Theorem conversion_returns h :
  NoDup (Gizmo.allNodes h) ->
  exists t,
    Gizmo.convert_gizmo_to_group h = Some t /\
    Gizmo.converted t = Gizmo.visited h (Gizmo.gizmos h) /\
    Gizmo.deleted t = Gizmo.remaining h (Gizmo.gizmos h) /\
    Gizmo.alerts t
    = match filter (fun g => Gizmo.fails h g = true)
              (Gizmo.visited h (Gizmo.gizmos h)) with
      | [] => []
      | failed => [Gizmo.alert_text (length failed)]
      end.
Proof.
  intros Hnd. destruct (convert_spec h Hnd) as (t & E & C & D & A & _).
  by exists t.
Qed.

Lemma conversion_returns_witness :
  exists t,
    Gizmo.convert_gizmo_to_group Gizmo.sample_host = Some t /\
    Gizmo.converted t
    = Gizmo.visited Gizmo.sample_host (Gizmo.gizmos Gizmo.sample_host) /\
    Gizmo.deleted t
    = Gizmo.remaining Gizmo.sample_host (Gizmo.gizmos Gizmo.sample_host) /\
    Gizmo.alerts t
    = match filter (fun g => Gizmo.fails Gizmo.sample_host g = true)
              (Gizmo.visited Gizmo.sample_host
                 (Gizmo.gizmos Gizmo.sample_host)) with
      | [] => []
      | failed => [Gizmo.alert_text (length failed)]
      end.
Proof.
  apply (conversion_returns Gizmo.sample_host).
  apply (bool_decide_unpack _). vm_compute. exact I.
Defined.

(** X11.  When the conversion of a gizmo fails and is reported, and all
    gizmos before it converted, the failed gizmo is kept in the script,
    but the gizmo that follows it in the list is passed over by the loop
    and deleted in the end all the same: it is deleted without the
    conversion having been called on it, so no group stands in for it. *)
Theorem gizmo_after_failure_deleted_unconverted h pre failed next rest :
  NoDup (Gizmo.allNodes h) ->
  Gizmo.gizmos h = pre ++ failed :: next :: rest ->
  (forall g, g ∈ pre -> Gizmo.fails h g = false) ->
  Gizmo.fails h failed = true ->
  exists t,
    Gizmo.convert_gizmo_to_group h = Some t /\
    (failed ∈ Gizmo.converted t) /\ (failed ∉ Gizmo.deleted t) /\
    (next ∉ Gizmo.converted t) /\ (next ∈ Gizmo.deleted t).
Proof.
  intros Hnd Hg Hpre Hf.
  destruct (convert_spec h Hnd) as (t & E & C & D & _).
  exists t. split; [done|]. rewrite C, D, Hg.
  destruct (visited_app_clean h pre (failed :: next :: rest) Hpre)
    as [-> ->].
  cbn [Gizmo.visited Gizmo.remaining]. rewrite Hf.
  assert (NoDup (pre ++ failed :: next :: rest)) as Hnd'.
  { rewrite <- Hg. by apply NoDup_filter. }
  apply NoDup_app in Hnd' as (_ & Hdis & Hnd').
  apply NoDup_cons in Hnd' as [Hfn Hnd'].
  apply NoDup_cons in Hnd' as [Hnr _].
  split_and!.
  - apply elem_of_app. right. by left.
  - intros [Hin|Hin]%elem_of_app.
    + apply (Hdis _ Hin). by left.
    + apply elem_of_cons in Hin as [->|Hin].
      * apply Hfn. by left.
      * apply Hfn. right. by apply (remaining_subset h).
  - intros [Hin|Hin]%elem_of_app.
    + apply (Hdis _ Hin). right. by left.
    + apply elem_of_cons in Hin as [->|Hin].
      * apply Hfn. by left.
      * apply Hnr. by apply (visited_subset h).
  - apply elem_of_app. right. by left.
Qed.

Lemma gizmo_after_failure_deleted_unconverted_witness :
  exists t,
    Gizmo.convert_gizmo_to_group Gizmo.sample_host = Some t /\
    (1%nat ∈ Gizmo.converted t) /\ (1%nat ∉ Gizmo.deleted t) /\
    (2%nat ∉ Gizmo.converted t) /\ (2%nat ∈ Gizmo.deleted t).
Proof.
  apply (gizmo_after_failure_deleted_unconverted Gizmo.sample_host
           [] 1%nat 2%nat [3%nat]).
  - apply (bool_decide_unpack _). vm_compute. exact I.
  - reflexivity.
  - intros g Hg. by apply elem_of_nil in Hg.
  - reflexivity.
Defined.

(** X12.  When no conversion fails and is reported (each call returns, or
    raises on a gizmo whose name holds [ImagePlane]), the conversion is
    called on every gizmo of the graph once, in order; then every gizmo
    is deleted, in order; no alert is shown; and the last calls select, one
    by one, the node that was selected after each conversion and then
    every node that is not a gizmo. *)
Theorem clean_conversion_replaces_every_gizmo h :
  NoDup (Gizmo.allNodes h) ->
  Gizmo.allNodes h <> [] ->
  (forall g, g ∈ Gizmo.gizmos h -> Gizmo.fails h g = false) ->
  exists t t0,
    Gizmo.convert_gizmo_to_group h = Some t /\
    Gizmo.converted t = Gizmo.gizmos h /\
    Gizmo.deleted t = Gizmo.gizmos h /\
    Gizmo.alerts t = [] /\
    t = t0
        ++ (Gizmo.select <$> (Gizmo.selectedNode h <$> Gizmo.gizmos h))
        ++ (Gizmo.select <$> Gizmo.others h).
Proof.
  intros Hnd Hne Hclean.
  destruct (convert_spec h Hnd) as (t & E & C & D & A & T).
  destruct (T Hne) as (t0 & Ht).
  destruct (visited_clean h _ Hclean) as [Hv Hr].
  rewrite Hv in *. rewrite Hr in *.
  assert (filter (fun g => Gizmo.fails h g = true) (Gizmo.gizmos h) = [])
    as Hnone.
  { apply filter_none. intros g Hg. by rewrite (Hclean g Hg). }
  assert (filter (fun g => Gizmo.fails h g = false) (Gizmo.gizmos h)
          = Gizmo.gizmos h) as Hall.
  { apply filter_all. intros g Hg. by apply Hclean. }
  rewrite Hnone in A, Ht. rewrite Hall in Ht.
  exists t, t0. rewrite app_nil_r in Ht. done.
Qed.

Lemma clean_conversion_replaces_every_gizmo_witness :
  let h := Gizmo.Host [1; 2]%nat (fun n => bool_decide (n = 1%nat))
             (fun _ => "ImagePlane1") (fun _ => 0%nat) (fun _ _ => None)
             (fun _ => true) (fun n => n) in
  exists t t0,
    Gizmo.convert_gizmo_to_group h = Some t /\
    Gizmo.converted t = Gizmo.gizmos h /\
    Gizmo.deleted t = Gizmo.gizmos h /\
    Gizmo.alerts t = [] /\
    t = t0
        ++ (Gizmo.select <$> (Gizmo.selectedNode h <$> Gizmo.gizmos h))
        ++ (Gizmo.select <$> Gizmo.others h).
Proof.
  apply (clean_conversion_replaces_every_gizmo
           (Gizmo.Host [1; 2]%nat (fun n => bool_decide (n = 1%nat))
              (fun _ => "ImagePlane1") (fun _ => 0%nat) (fun _ _ => None)
              (fun _ => true) (fun n => n))).
  - apply (bool_decide_unpack _). vm_compute. exact I.
  - discriminate.
  - intros g Hg. reflexivity.
Defined.

(** X13.  On a graph without gizmos the conversion deletes and converts
    nothing, but it is not without effect: it selects every node of the
    graph, in the order the host lists them (on an empty graph it makes
    no call at all). *)
Theorem conversion_without_gizmos_selects_all h :
  (forall n, n ∈ Gizmo.allNodes h -> Gizmo.gizmo_file h n = false) ->
  Gizmo.convert_gizmo_to_group h
  = Some (Gizmo.select <$> Gizmo.allNodes h).
Proof.
  intros Hno. unfold Gizmo.convert_gizmo_to_group.
  destruct (Gizmo.allNodes h) as [|n0 l0] eqn:Hall; [done|].
  assert (filter (fun n => Gizmo.gizmo_file h n = true) (n0 :: l0) = [])
    as ->.
  { apply filter_none. intros n Hn. by rewrite (Hno n Hn). }
  assert (filter (fun n => Gizmo.gizmo_file h n = false) (n0 :: l0)
          = n0 :: l0) as ->.
  { apply filter_all. intros n Hn. by apply Hno. }
  cbn. by rewrite app_nil_r.
Qed.

Lemma conversion_without_gizmos_selects_all_witness :
  let h := Gizmo.Host [1; 2]%nat (fun _ => false) (fun _ => "Read")
             (fun _ => 0%nat) (fun _ _ => None) (fun _ => false)
             (fun n => n) in
  Gizmo.convert_gizmo_to_group h = Some (Gizmo.select <$> Gizmo.allNodes h).
Proof.
  apply (conversion_without_gizmos_selects_all
           (Gizmo.Host [1; 2]%nat (fun _ => false) (fun _ => "Read")
              (fun _ => 0%nat) (fun _ _ => None) (fun _ => false)
              (fun n => n))).
  intros n Hn. reflexivity.
Defined.

(** The loop shows no alert, and the conversion at most one, on every
    host. *)
Lemma convert_loop_alerts h fuel :
  forall i st st',
    Gizmo.convert_loop h fuel i st = Some st' ->
    Gizmo.alerts (Gizmo.trace st') = Gizmo.alerts (Gizmo.trace st).
Proof.
  induction fuel as [|fuel IH]; intros i st st'; cbn;
    destruct (Gizmo.gizmo_selection st !! i) as [node|].
  - done.
  - by intros [= <-].
  - intros E. rewrite (IH _ _ _ E).
    by destruct (convert_one_spec h node st) as (_ & _ & A & _).
  - by intros [= <-].
Qed.

Lemma conversion_alerts g :
  (length (Gizmo.alerts (conversion_calls g)) <= 1)%nat.
Proof.
  unfold conversion_calls, Gizmo.convert_gizmo_to_group.
  destruct (Gizmo.allNodes g) as [|n0 l0]; [cbn; lia|].
  cbv zeta.
  destruct (Gizmo.convert_loop g _ 0 _) as [st|] eqn:E; [|cbn; lia].
  change (length (Gizmo.alerts
            (Gizmo.cleanup
               (filter (fun n => Gizmo.gizmo_file g n = false) (n0 :: l0))
               st)) <= 1)%nat.
  destruct (cleanup_spec
              (filter (fun n => Gizmo.gizmo_file g n = false) (n0 :: l0)) st)
    as (_ & _ & A).
  cbv zeta in A. rewrite A, (convert_loop_alerts _ _ _ _ _ E). cbn.
  destruct (Gizmo.error_selection st); cbn; lia.
Qed.

(* ===================================================================== *)
(** ** The flag and the polls *)
(* ===================================================================== *)

Lemma tracks_same h w w' :
  polls w' = polls w -> cancelled w' = cancelled w -> tracks h w w'.
Proof.
  intros P C. unfold tracks, observed. rewrite P, C, Nat.sub_diag.
  split; [done|]. by rewrite orb_false_r.
Qed.

Lemma tracks_trans h w w1 w2 :
  tracks h w w1 -> tracks h w1 w2 -> tracks h w w2.
Proof.
  unfold tracks, observed. intros [P1 C1] [P2 C2]. split; [lia|].
  rewrite C2, C1, <- orb_assoc. f_equal.
  replace (polls w2 - polls w)%nat
    with ((polls w1 - polls w) + (polls w2 - polls w1))%nat by lia.
  rewrite seq_app, existsb_app. do 3 f_equal. lia.
Qed.

(** One poll, and the flag set when it answers "cancelled". *)
Lemma tracks_poll h w stop_flag f n t :
  stop_flag = cancelled w || isCancelled h (polls w) ->
  tracks h w (World f n (S (polls w)) stop_flag t).
Proof.
  intros ->. unfold tracks, observed. cbn [polls cancelled].
  split; [lia|].
  replace (S (polls w) - polls w)%nat with 1%nat by lia.
  cbn. by rewrite orb_false_r.
Qed.

Lemma submit_tasks_tracks h tasks futures w :
  tracks h w (snd (submit_tasks h tasks futures w)).
Proof.
  revert futures w.
  induction tasks as [|[[src dst] name] tasks IH]; intros futures w.
  - by apply tracks_same.
  - rewrite submit_tasks_cons. destruct (isCancelled h (polls w)) eqn:C.
    + cbn [snd]. apply tracks_poll. by rewrite C, orb_true_r.
    + eapply tracks_trans; [|apply IH].
      apply tracks_poll. by rewrite C, orb_false_r.
Qed.

Lemma copy_sequence_parallel_tracks h file_path output_dir first last w :
  tracks h w (snd (copy_sequence_parallel h file_path output_dir first last w)).
Proof.
  rewrite copy_sequence_parallel_unfold.
  destruct (makedirs_error h true (sequence_dir file_path output_dir) (fs w))
    as [e|]; [by apply tracks_same|].
  destruct (sequence_started_frame file_path output_dir first last w)
    as (_ & P0 & C0 & _).
  destruct (parse_padding (Path.basename file_path)) as [p|].
  - pose proof (submit_tasks_tracks h
                  (reference_tasks p file_path output_dir first last) []
                  (sequence_started file_path output_dir first last w)) as T.
    destruct (submit_tasks_frame h
                (reference_tasks p file_path output_dir first last) []
                (sequence_started file_path output_dir first last w))
      as (k & w1 & E1 & _).
    rewrite E1 in T. cbn [snd] in T. rewrite (bind_ok _ _ _ _ _ E1).
    destruct (wait_spec h
                ([] ++ (task_job <$>
                   take k (reference_tasks p file_path output_dir first last)))
                w1)
      as (w2 & E2 & _ & P2 & C2 & _).
    rewrite E2. cbn [snd].
    eapply tracks_trans; [by apply tracks_same|].
    eapply tracks_trans; [exact T|]. by apply tracks_same.
  - by apply tracks_same.
Qed.

Lemma collect_node_tracks h footage_path n w :
  tracks h w (snd (collect_node h footage_path n w)).
Proof.
  rewrite collect_node_cases.
  assert (tracks h w w) as Hw by by apply tracks_same.
  assert (tracks h w
            (snd (copy_file h (file_value n)
                    (single_file_dst footage_path (file_value n)) w)))
    as Hcopy.
  { destruct (copy_file_frame h (file_value n)
                (single_file_dst footage_path (file_value n)) w)
      as (w' & E & _ & P & C & _).
    rewrite E. by apply tracks_same. }
  destruct (negb (has_knob n "file") || has_knob n "Render"); [done|].
  destruct (bool_decide (file_value n = "")); [done|].
  destruct (bool_decide (extension (file_value n) ∈ video_exts)); [done|].
  destruct (has_knob n "first"); [|done].
  destruct (has_knob n "last"); [|done].
  destruct (first_value n =? last_value n); [done|].
  apply copy_sequence_parallel_tracks.
Qed.

Lemma collect_nodes_tracks h footage_path total i all w :
  tracks h w (snd (collect_nodes h footage_path total i all w)).
Proof.
  revert i w. induction all as [|n rest IH]; intros i w.
  - by apply tracks_same.
  - rewrite collect_nodes_cons. destruct (isCancelled h (polls w)) eqn:C.
    + cbn [snd]. apply tracks_poll. by rewrite C, orb_true_r.
    + set (w0 := World _ _ _ _ _).
      assert (tracks h w w0) as T0
        by (apply tracks_poll; by rewrite C, orb_false_r).
      pose proof (collect_node_tracks h footage_path n w0) as T1.
      destruct (collect_node h footage_path n w0) as [[[]|e] w1] eqn:E1.
      * rewrite (bind_ok _ _ _ _ _ E1).
        eapply tracks_trans; [exact T0|].
        eapply tracks_trans; [exact T1|]. apply IH.
      * rewrite (bind_raise _ _ _ _ _ E1). cbn [snd] in *.
        exact (tracks_trans _ _ _ _ T0 T1).
Qed.

Lemma update_nodes_same i all w :
  polls (snd (update_nodes i all w)) = polls w /\
  cancelled (snd (update_nodes i all w)) = cancelled w.
Proof.
  revert i w. induction all as [|n rest IH]; intros i w; [done|].
  cbn [update_nodes].
  assert (forall (m : M unit),
            polls (snd (m w)) = polls w /\
            cancelled (snd (m w)) = cancelled w ->
            polls (snd ((m ≫= fun _ => update_nodes (S i) rest) w)) = polls w /\
            cancelled (snd ((m ≫= fun _ => update_nodes (S i) rest) w))
            = cancelled w) as Hbind.
  { intros m [P C]. munfold. destruct (m w) as [[[]|e] w1]; cbn [snd] in *.
    - destruct (IH (S i) w1) as [P' C']. split; congruence.
    - done. }
  apply Hbind.
  destruct (has_knob n "file" && negb (has_knob n "Render")); [|done].
  unfold update_node_path, get_nodes. munfold.
  destruct (nodes w !! i) as [n'|]; [|done].
  unfold new_path. munfold. rewrite knob_value_spec.
  destruct (has_knob n' "file"); [|done].
  destruct (has_knob n' "first").
  - rewrite knob_value_spec.
    destruct (has_knob n' "first"); [|done].
    rewrite knob_value_spec.
    destruct (has_knob n' "last"); [|done].
    by destruct (negb (first_value n' =? last_value n')
                 && negb (bool_decide (extension (file_value n') ∈ video_exts))).
  - done.
Qed.

Lemma collect_tracks h w : tracks h w (snd (collect h w)).
Proof.
  unfold collect.
  destruct (preflight_frame h w) as (r0 & w0 & E0 & _ & P0 & C0 & _).
  assert (tracks h w w0) as T0 by by apply tracks_same.
  destruct r0 as [target|e]; [|by rewrite (bind_raise _ _ _ _ _ E0)].
  rewrite (bind_ok _ _ _ _ _ E0).
  destruct target as [target_path|]; [|done].
  eapply tracks_trans; [exact T0|].
  rewrite collect_into_unfold.
  destruct (makedirs_error h true (Path.join target_path "footage") (fs w0));
    [by apply tracks_same|].
  assert (tracks h w0 (collection_started h target_path w0)) as T1
    by by apply tracks_same.
  pose proof (collect_nodes_tracks h (Path.join target_path "footage")
                (length (nodes w0)) 0 (nodes w0)
                (collection_started h target_path w0)) as T2.
  destruct (collect_nodes h (Path.join target_path "footage")
              (length (nodes w0)) 0 (nodes w0)
              (collection_started h target_path w0)) as [[[]|e] w2];
    cbn [snd] in *; [|exact (tracks_trans _ _ _ _ T1 T2)].
  eapply tracks_trans; [exact T1|]. eapply tracks_trans; [exact T2|].
  destruct (cancelled w2) eqn:C2; [by apply tracks_same|].
  set (w3 := World (fs w2) (nodes w2) (polls w2) (cancelled w2)
                 (trace w2
                  ++ [ScriptSaveAs (new_script_path h target_path)])).
  assert (emit (ScriptSaveAs (new_script_path h target_path)) w2
          = (Ok tt, w3)) as E2 by done.
  rewrite (bind_ok _ _ _ _ _ E2).
  destruct (update_nodes_same 0 (nodes w0) w3) as [P3 C3].
  destruct (update_nodes 0 (nodes w0) w3) as [[[]|e] w4] eqn:E3;
    cbn [snd] in *.
  - rewrite (bind_ok _ _ _ _ _ E3). unfold tprint, emit. munfold.
    cbn [snd]. by apply tracks_same.
  - rewrite (bind_raise _ _ _ _ _ E3). by apply tracks_same.
Qed.

(** X1.  A run on a fresh collector ends with the flag set exactly when
    one of the polls it made answered "cancelled": the flag is never set
    for another reason, and no answer "cancelled" is overlooked.  This
    holds also for a run that ends by raising. *)
Theorem flag_set_iff_cancel_observed h f graph :
  let w := World f graph 0 false [] in
  let w' := snd (main h f graph) in
  cancelled w' = existsb (isCancelled h) (seq 0 (polls w')) /\
  (cancelled w' = true <->
   exists k, (k < polls w')%nat /\ isCancelled h k = true).
Proof.
  intros w w'. subst w w'. unfold main.
  destruct (collect_tracks h (World f graph 0 false [])) as [_ C].
  unfold observed in C. cbn [polls cancelled orb] in C.
  rewrite Nat.sub_0_r in C. split; [exact C|].
  rewrite C, existsb_exists. split.
  - intros (k & Hk & Hc). exists k. split; [|done].
    apply in_seq in Hk. lia.
  - intros (k & Hk & Hc). exists k. split; [|done].
    apply in_seq. lia.
Qed.

(* ===================================================================== *)
(** ** The run as a whole *)
(* ===================================================================== *)

Lemma saves_app t1 t2 : saves (t1 ++ t2) = saves t1 ++ saves t2.
Proof. apply omap_app. Qed.

Lemma dialogs_app t1 t2 : dialogs (t1 ++ t2) = dialogs t1 ++ dialogs t2.
Proof. apply omap_app. Qed.

Lemma progress_app t1 t2 : progress (t1 ++ t2) = progress t1 ++ progress t2.
Proof. apply omap_app. Qed.

Lemma silent_refl w w' : trace w' = trace w -> silent w w'.
Proof. intros E. exists []. by rewrite app_nil_r. Qed.

Lemma silent_trans w w1 w2 : silent w w1 -> silent w1 w2 -> silent w w2.
Proof.
  intros (e1 & E1 & S1 & D1 & P1) (e2 & E2 & S2 & D2 & P2).
  exists (e1 ++ e2).
  rewrite E2, E1, <- app_assoc, saves_app, dialogs_app, progress_app.
  by rewrite S1, S2, D1, D2, P1, P2.
Qed.

Lemma silent_events w w' evs :
  trace w' = trace w ++ evs ->
  saves evs = [] -> dialogs evs = [] -> progress evs = [] ->
  silent w w'.
Proof. intros. by exists evs. Qed.

Lemma copy_file_silent h src dst w : silent w (snd (copy_file h src dst w)).
Proof.
  rewrite copy_file_spec. cbn [snd]. destruct (exists_in _ _).
  - destruct (shutil_copy2 _ _ _ _) as [[[]|e] fs'];
      by eapply silent_events.
  - by eapply silent_events.
Qed.

Lemma run_jobs_silent h jobs w : silent w (snd (run_jobs h jobs w)).
Proof.
  revert w. induction jobs as [|[src dst] jobs IH]; intros w.
  - by apply silent_refl.
  - cbn [run_jobs]. unfold run_future. munfold. cbn [fst snd].
    eapply silent_trans; [apply (copy_file_silent h src dst)|apply IH].
Qed.

Lemma wait_silent h futures w : silent w (snd (wait h futures w)).
Proof. apply run_jobs_silent. Qed.

Lemma submit_tasks_silent h tasks futures w :
  silent w (snd (submit_tasks h tasks futures w)).
Proof.
  revert futures w.
  induction tasks as [|[[src dst] name] tasks IH]; intros futures w.
  - by apply silent_refl.
  - rewrite submit_tasks_cons. destruct (isCancelled h (polls w)).
    + by apply silent_refl.
    + eapply silent_trans; [|apply IH]. by eapply silent_events.
Qed.

Lemma copy_sequence_parallel_silent h file_path output_dir first last w :
  silent w (snd (copy_sequence_parallel h file_path output_dir first last w)).
Proof.
  rewrite copy_sequence_parallel_unfold.
  destruct (makedirs_error h true (sequence_dir file_path output_dir) (fs w))
    as [e|]; [by apply silent_refl|].
  assert (silent w (sequence_started file_path output_dir first last w)) as S0
    by by eapply silent_events.
  destruct (parse_padding (Path.basename file_path)) as [p|].
  - pose proof (submit_tasks_silent h
                  (reference_tasks p file_path output_dir first last) []
                  (sequence_started file_path output_dir first last w)) as S1.
    destruct (submit_tasks_frame h
                (reference_tasks p file_path output_dir first last) []
                (sequence_started file_path output_dir first last w))
      as (k & w1 & E1 & _).
    rewrite E1 in S1. cbn [snd] in S1. rewrite (bind_ok _ _ _ _ _ E1).
    eapply silent_trans; [exact S0|].
    eapply silent_trans; [exact S1|]. apply wait_silent.
  - eapply silent_trans; [exact S0|]. by eapply silent_events.
Qed.

Lemma collect_node_silent h footage_path n w :
  silent w (snd (collect_node h footage_path n w)).
Proof.
  rewrite collect_node_cases.
  assert (silent w w) as Hw by by apply silent_refl.
  pose proof (copy_file_silent h (file_value n)
                (single_file_dst footage_path (file_value n)) w) as Hcopy.
  destruct (negb (has_knob n "file") || has_knob n "Render"); [done|].
  destruct (bool_decide (file_value n = "")); [done|].
  destruct (bool_decide (extension (file_value n) ∈ video_exts)); [done|].
  destruct (has_knob n "first"); [|done].
  destruct (has_knob n "last"); [|done].
  destruct (first_value n =? last_value n); [done|].
  apply copy_sequence_parallel_silent.
Qed.

(** What the main loop adds to the trace: no save, no dialog, and the
    progress values of the nodes it came to, in order. *)
Lemma collect_nodes_events h footage_path total all :
  forall i w,
  exists evs k,
    trace (snd (collect_nodes h footage_path total i all w))
    = trace w ++ evs /\
    saves evs = [] /\ dialogs evs = [] /\
    (k <= length all)%nat /\
    progress evs = percent total <$> seq i k.
Proof.
  induction all as [|n rest IH]; intros i w.
  - exists [], 0%nat. by rewrite app_nil_r.
  - rewrite collect_nodes_cons. destruct (isCancelled h (polls w)).
    + exists [], 0%nat. cbn. rewrite app_nil_r. split_and!; try done; lia.
    + set (w0 := World _ _ _ _ _).
      pose proof (collect_node_silent h footage_path n w0)
        as (e1 & T1 & S1 & D1 & P1).
      destruct (collect_node h footage_path n w0) as [[[]|e] w1] eqn:E1.
      * rewrite (bind_ok _ _ _ _ _ E1).
        destruct (IH (S i) w1) as (e2 & k & T2 & S2 & D2 & K2 & P2).
        eexists (_ :: _ :: e1 ++ e2), (S k).
        rewrite T2. cbn [snd] in T1. rewrite T1. subst w0. cbn [trace].
        rewrite <- !app_assoc. split; [done|].
        change (?a :: ?b :: e1 ++ e2) with ([a; b] ++ e1 ++ e2).
        rewrite !saves_app, !dialogs_app, !progress_app.
        rewrite S1, S2, D1, D2, P1, P2. cbn. split_and!; try done; lia.
      * rewrite (bind_raise _ _ _ _ _ E1).
        eexists (_ :: _ :: e1), 1%nat.
        cbn [snd] in T1 |- *. rewrite T1. subst w0. cbn [trace].
        rewrite <- !app_assoc. split; [done|].
        change (?a :: ?b :: e1) with ([a; b] ++ e1).
        rewrite !saves_app, !dialogs_app, !progress_app.
        rewrite S1, D1, P1. cbn. split_and!; try done; lia.
Qed.

Lemma update_nodes_silent all :
  forall done_ w,
    nodes w = done_ ++ all -> forallb node_ok all = true ->
    silent w (snd (update_nodes (length done_) all w)).
Proof.
  induction all as [|n rest IH]; intros done_ w Hn Hok.
  - by apply silent_refl.
  - cbn [forallb] in Hok. apply andb_true_iff in Hok as [Hok Hrest].
    cbn [update_nodes].
    destruct (has_knob n "file" && negb (has_knob n "Render")) eqn:El.
    + apply andb_true_iff in El as [Hfile _].
      assert (nodes w !! length done_ = Some n) as Hi.
      { rewrite Hn. by apply list_lookup_middle. }
      rewrite (bind_ok _ _ _ _ _
                 (update_node_path_spec _ _ _ Hi Hfile Hok)).
      set (w1 := World _ _ _ _ _).
      assert (silent w w1) as S1 by by eapply silent_events.
      eapply silent_trans; [exact S1|].
      replace (S (length done_))
        with (length (done_ ++ [set_file_value (relocated n) n]))
        by (rewrite length_app; cbn; lia).
      apply IH; [|done]. subst w1. cbn [nodes]. rewrite Hn.
      replace (length done_) with (length done_ + 0)%nat by lia.
      rewrite alter_app_r. cbn. by rewrite <- app_assoc.
    + munfold.
      replace (S (length done_)) with (length (done_ ++ [n]))
        by (rewrite length_app; cbn; lia).
      apply IH; [|done]. by rewrite Hn, <- app_assoc.
Qed.


(** What the calls of the conversion are in a run's trace: no save and no
    progress value, and its alert among the dialogs. *)
Lemma conversion_shown calls :
  saves (Conversion <$> calls) = [] /\
  progress (Conversion <$> calls) = [] /\
  dialogs (Conversion <$> calls) = Gizmo.alerts calls.
Proof.
  unfold saves, progress, dialogs, Gizmo.alerts.
  induction calls as [|c calls (IH1 & IH2 & IH3)]; [done|].
  cbn. rewrite IH1, IH2, IH3. by destruct c.
Qed.

(** X2.  Take a run that got past the way to the output directory, on
    nodes whose frame knobs come as a pair, whose footage directory could
    be made and whose main loop returned.  The run returns.  Up to the end
    of the loop it has made the calls of the conversion of gizmos, which
    show one alert at most, and then the calls of the loop, which save no
    script, rewrite no node and show no dialog.  If the flag is set then,
    one more call follows: the dialog that says the collect was cancelled;
    the script is not saved and no node rewritten.  If the flag is clear,
    the script is saved next, once, under its own base name in the output
    directory; then the nodes are rewritten, with no save and no dialog in
    between; and the dialog that says the collect is done is the last call
    of the run, after the last rewrite. *)
Theorem script_saved_once_before_rewrites h w target_path w0 w1 :
  preflight h w = (Ok (Some target_path), w0) ->
  forallb node_ok (nodes w) = true ->
  makedirs_error h true (Path.join target_path "footage") (fs w0) = None ->
  collect_nodes h (Path.join target_path "footage")
    (length (nodes w)) 0 (nodes w) (collection_started h target_path w0)
  = (Ok tt, w1) ->
  let calls := conversion_calls (conversion h) in
  exists w' loop,
    collect h w = (Ok tt, w') /\
    trace w1 = trace w ++ (Conversion <$> calls) ++ loop /\
    saves loop = [] /\ updates loop = [] /\ dialogs loop = [] /\
    (length (Gizmo.alerts calls) <= 1)%nat /\
    if cancelled w' then
      trace w' = trace w1 ++ [Message "Collect cancelled."] /\
      saves (trace w') = saves (trace w) /\
      updates (trace w') = updates (trace w) /\
      dialogs (trace w')
      = dialogs (trace w) ++ Gizmo.alerts calls ++ ["Collect cancelled."]
    else
      exists rewrites,
        trace w'
        = trace w1
          ++ [ScriptSaveAs
                (Path.join target_path (Path.basename (root_name h)))]
          ++ rewrites
          ++ [Tprint MsgDone; Message "Collect done!"] /\
        saves rewrites = [] /\ dialogs rewrites = [] /\
        updates rewrites = omap reported_update (nodes w) /\
        saves (trace w')
        = saves (trace w)
          ++ [Path.join target_path (Path.basename (root_name h))] /\
        dialogs (trace w')
        = dialogs (trace w) ++ Gizmo.alerts calls ++ ["Collect done!"].
Proof.
  intros E Hok M E1 calls. unfold collect. rewrite (bind_ok _ _ _ _ _ E).
  destruct (preflight_passed _ _ _ _ E) as (_ & _ & N & _ & _ & T0).
  rewrite collect_into_unfold, M, N, E1.
  destruct (collect_nodes_events h (Path.join target_path "footage")
              (length (nodes w)) (nodes w) 0%nat
              (collection_started h target_path w0))
    as (ev1 & k1 & T1 & S1 & D1 & _).
  rewrite E1 in T1. cbn [snd collection_started trace] in T1.
  fold calls in T1. rewrite T0 in T1.
  destruct (collect_nodes_frame h (Path.join target_path "footage")
              (length (nodes w)) 0 (nodes w)
              (collection_started h target_path w0))
    as (r & w1' & E1' & _ & _ & _ & U1 & _).
  rewrite E1 in E1'. injection E1' as <- <-.
  cbn [collection_started trace] in U1. fold calls in U1.
  rewrite T0 in U1.
  destruct (conversion_events calls) as (Uc & _ & _).
  destruct (conversion_shown calls) as (Sc & _ & Dc).
  rewrite T1, <- app_assoc, !updates_app, Uc in U1.
  cbn [app] in U1. rewrite app_nil_r in U1.
  assert (updates ev1 = []) as U1'.
  { apply (app_inv_head (updates (trace w))). by rewrite app_nil_r. }
  pose proof (conversion_alerts (conversion h)) as Ha. fold calls in Ha.
  destruct (cancelled w1) eqn:C1.
  - eexists _, ev1. split; [reflexivity|].
    cbn [trace cancelled]. rewrite C1.
    split; [by rewrite T1, <- app_assoc|]. split_and!; try done.
    + by rewrite T1, !saves_app, Sc, S1, !app_nil_r.
    + by rewrite T1, !updates_app, Uc, U1', !app_nil_r.
    + by rewrite T1, !dialogs_app, Dc, D1, <- !app_assoc.
  - set (w2 := World (fs w1) (nodes w1) (polls w1) (cancelled w1)
                 (trace w1
                  ++ [ScriptSaveAs (new_script_path h target_path)])).
    assert (emit (ScriptSaveAs (new_script_path h target_path)) w1
            = (Ok tt, w2)) as E2 by done.
    rewrite (bind_ok _ _ _ _ _ E2).
    assert (nodes w1 = nodes w) as N1.
    { destruct (collect_nodes_frame h (Path.join target_path "footage")
                  (length (nodes w)) 0 (nodes w)
                  (collection_started h target_path w0))
        as (r & w1' & E1' & N1 & _).
      rewrite E1 in E1'. injection E1' as <- <-.
      by rewrite N1. }
    destruct (update_nodes_spec (nodes w) [] w2)
      as (w3 & E3 & _ & _ & C3 & _ & U3 & _); [by subst w2|done|].
    cbn [length] in E3.
    pose proof (update_nodes_silent (nodes w) [] w2)
      as (ev3 & T3 & S3 & D3 & _); [by subst w2|done|].
    cbn [length] in T3. rewrite E3 in T3. cbn [snd] in T3.
    rewrite T3, updates_app in U3. apply app_inv_head in U3.
    rewrite (bind_ok _ _ _ _ _ E3).
    unfold tprint, emit. munfold. cbn [fs nodes polls cancelled trace].
    eexists _, ev1. split; [reflexivity|].
    cbn [trace cancelled]. rewrite C3. subst w2.
    cbn [trace cancelled] in *. rewrite C1.
    split; [by rewrite T1, <- app_assoc|]. split_and!; try done.
    exists ev3. unfold new_script_path in *. rewrite T3.
    split; [by rewrite <- !app_assoc|]. split_and!; try done.
    + rewrite T1, !saves_app, Sc, S1, S3. cbn. by rewrite !app_nil_r.
    + rewrite T1, !dialogs_app, Dc, D1, D3. cbn.
      by rewrite !app_nil_r, <- !app_assoc.
Qed.

Lemma script_saved_once_before_rewrites_witness :
  let w1 :=
    snd (collect_nodes patient_host (Path.join "/out/" "footage")
           (length (nodes sample_world)) 0 (nodes sample_world)
           (collection_started patient_host "/out/"
              (snd (preflight patient_host sample_world)))) in
  let calls := conversion_calls (conversion patient_host) in
  exists w' loop,
    collect patient_host sample_world = (Ok tt, w') /\
    trace w1 = trace sample_world ++ (Conversion <$> calls) ++ loop /\
    saves loop = [] /\ updates loop = [] /\ dialogs loop = [] /\
    (length (Gizmo.alerts calls) <= 1)%nat /\
    if cancelled w' then
      trace w' = trace w1 ++ [Message "Collect cancelled."] /\
      saves (trace w') = saves (trace sample_world) /\
      updates (trace w') = updates (trace sample_world) /\
      dialogs (trace w')
      = dialogs (trace sample_world) ++ Gizmo.alerts calls
        ++ ["Collect cancelled."]
    else
      exists rewrites,
        trace w'
        = trace w1
          ++ [ScriptSaveAs
                (Path.join "/out/" (Path.basename (root_name patient_host)))]
          ++ rewrites
          ++ [Tprint MsgDone; Message "Collect done!"] /\
        saves rewrites = [] /\ dialogs rewrites = [] /\
        updates rewrites = omap reported_update (nodes sample_world) /\
        saves (trace w')
        = saves (trace sample_world)
          ++ [Path.join "/out/" (Path.basename (root_name patient_host))] /\
        dialogs (trace w')
        = dialogs (trace sample_world) ++ Gizmo.alerts calls
          ++ ["Collect done!"].
Proof.
  apply (script_saved_once_before_rewrites patient_host sample_world "/out/"
           (snd (preflight patient_host sample_world))).
  - vm_compute. reflexivity.
  - reflexivity.
  - vm_compute. reflexivity.
  - vm_compute. reflexivity.
Defined.




(* ===================================================================== *)
(** ** The progress bar *)
(* ===================================================================== *)

Lemma new_path_state n w : snd (new_path n w) = w.
Proof.
  unfold new_path. munfold. rewrite knob_value_spec.
  destruct (has_knob n "file"); [|done].
  destruct (has_knob n "first") eqn:Hfirst.
  - rewrite knob_value_spec, Hfirst, knob_value_spec.
    destruct (has_knob n "last"); [|done].
    by destruct (negb (first_value n =? last_value n)
                 && negb (bool_decide (extension (file_value n) ∈ video_exts))).
  - done.
Qed.

Lemma update_node_path_silent i w : silent w (snd (update_node_path i w)).
Proof.
  unfold update_node_path, get_nodes. munfold.
  destruct (nodes w !! i) as [n|]; [|by apply silent_refl].
  pose proof (new_path_state n w) as Hs.
  destruct (new_path n w) as [[path|e] w1]; cbn [snd] in Hs; subst w1.
  - unfold tprint, emit, set_node_file. cbn [snd trace].
    by eapply silent_events.
  - by apply silent_refl.
Qed.

Lemma update_nodes_quiet all :
  forall i w, silent w (snd (update_nodes i all w)).
Proof.
  induction all as [|n rest IH]; intros i w.
  - by apply silent_refl.
  - cbn [update_nodes].
    destruct (has_knob n "file" && negb (has_knob n "Render")).
    + pose proof (update_node_path_silent i w) as S1.
      destruct (update_node_path i w) as [[[]|e] w1] eqn:E1.
      * rewrite (bind_ok _ _ _ _ _ E1).
        eapply silent_trans; [exact S1|apply IH].
      * by rewrite (bind_raise _ _ _ _ _ E1).
    + munfold. apply IH.
Qed.

Lemma preflight_silent_progress h w :
  exists evs,
    trace (snd (preflight h w)) = trace w ++ evs /\ progress evs = [] /\
    nodes (snd (preflight h w)) = nodes w.
Proof.
  rewrite preflight_cases.
  destruct (negb (panel_result h =? 1) || bool_decide (panel_value h = "")).
  - by eexists.
  - cbv zeta. destruct (exists_in _ _).
    + exists []. by rewrite app_nil_r.
    + destruct (ask_create h).
      * destruct (makedirs_error _ _ _ _);
          exists []; by rewrite app_nil_r.
      * by eexists.
Qed.

Lemma percent_bounds total i :
  (i < total)%nat -> 0 <= percent total i < 100.
Proof.
  intros Hi. unfold percent. split.
  - apply Z.div_pos; lia.
  - apply Z.div_lt_upper_bound; lia.
Qed.

Lemma percent_mono total i j :
  (i <= j)%nat -> percent total i <= percent total j.
Proof.
  intros Hij. unfold percent.
  destruct total as [|t].
  - cbn. by rewrite !Z.div_0_r.
  - apply Z.div_le_mono; lia.
Qed.

(** X4.  The values the progress bar is set to in a run are the shares
    [i * 100 // len(all_nodes)] of the nodes the main loop came to, in
    order from the node of index 0: each lies between 0 and 99, so the bar
    is never set to 100, whatever the run does after, and the values never
    fall. *)
Theorem progress_rises_below_100 h w :
  exists added k,
    trace (snd (collect h w)) = trace w ++ added /\
    (k <= length (nodes w))%nat /\
    progress added = percent (length (nodes w)) <$> seq 0 k /\
    Forall (fun p => 0 <= p < 100) (progress added) /\
    forall i j p q,
      (i <= j)%nat ->
      progress added !! i = Some p -> progress added !! j = Some q ->
      p <= q.
Proof.
  assert (exists added k,
    trace (snd (collect h w)) = trace w ++ added /\
    (k <= length (nodes w))%nat /\
    progress added = percent (length (nodes w)) <$> seq 0 k)
    as (added & k & T & K & P).
  { unfold collect.
    destruct (preflight_silent_progress h w) as (e0 & T0 & P0 & N0).
    destruct (preflight h w) as [[[target_path|]|e] w0] eqn:E0;
      cbn [snd] in T0, N0.
    2,3: rewrite ?(bind_ok _ _ _ _ _ E0), ?(bind_raise _ _ _ _ _ E0);
         exists e0, 0%nat; cbn [snd]; split_and!; [done|lia|done].
    rewrite (bind_ok _ _ _ _ _ E0), collect_into_unfold.
    destruct (makedirs_error h true (Path.join target_path "footage")
                (fs w0)).
    { exists e0, 0%nat. cbn [snd]. split_and!; [done|lia|done]. }
    destruct (collect_nodes_events h (Path.join target_path "footage")
                (length (nodes w0)) (nodes w0) 0%nat
                (collection_started h target_path w0))
      as (e1' & k & T1 & _ & _ & K1 & P1').
    rewrite N0 in K1, P1'. cbn [collection_started trace] in T1.
    destruct (conversion_shown (conversion_calls (conversion h)))
      as (_ & Pc & _).
    rewrite <- app_assoc in T1.
    set (e1 := (Conversion <$> conversion_calls (conversion h)) ++ e1')
      in T1.
    assert (progress e1 = percent (length (nodes w)) <$> seq 0 k) as P1
      by (subst e1; by rewrite progress_app, Pc).
    clearbody e1.
    destruct (collect_nodes _ _ _ _ _ _) as [[[]|e] w1]; cbn [snd] in T1.
    - destruct (cancelled w1).
      + exists (e0 ++ e1 ++ [Message "Collect cancelled."]), k.
        unfold emit. cbn [snd trace]. rewrite T1, T0, <- !app_assoc.
        split; [done|]. split; [done|].
        rewrite !progress_app, P0, P1. cbn. by rewrite app_nil_r.
      + set (w2 := World (fs w1) (nodes w1) (polls w1) (cancelled w1)
                     (trace w1
                      ++ [ScriptSaveAs (new_script_path h target_path)])).
        assert (emit (ScriptSaveAs (new_script_path h target_path)) w1
                = (Ok tt, w2)) as E2 by done.
        rewrite (bind_ok _ _ _ _ _ E2).
        pose proof (update_nodes_quiet (nodes w0) 0 w2)
          as (e3 & T3 & _ & _ & P3).
        destruct (update_nodes 0 (nodes w0) w2) as [[[]|e] w3] eqn:E3;
          cbn [snd] in T3.
        * rewrite (bind_ok _ _ _ _ _ E3). unfold tprint, emit. munfold.
          cbn [snd trace].
          exists (e0 ++ e1 ++ [ScriptSaveAs (new_script_path h target_path)]
                     ++ e3 ++ [Tprint MsgDone] ++ [Message "Collect done!"]), k.
          subst w2. cbn [trace] in T3. rewrite T3, T1, T0, <- !app_assoc.
          split; [done|]. split; [done|].
          rewrite !progress_app, P0, P1, P3. cbn. by rewrite app_nil_r.
        * rewrite (bind_raise _ _ _ _ _ E3). cbn [snd].
          exists (e0 ++ e1 ++ [ScriptSaveAs (new_script_path h target_path)]
                     ++ e3), k.
          subst w2. cbn [trace] in T3. rewrite T3, T1, T0, <- !app_assoc.
          split; [done|]. split; [done|].
          rewrite !progress_app, P0, P1, P3. cbn. by rewrite app_nil_r.
    - exists (e0 ++ e1), k. cbn [snd]. rewrite T1, T0, <- !app_assoc.
      split; [done|]. split; [done|].
      rewrite !progress_app, P0, P1. done. }
  exists added, k. split_and!; try done.
  - rewrite P. apply Forall_fmap, Forall_forall. intros i Hi.
    apply elem_of_seq in Hi. cbn. apply percent_bounds. lia.
  - intros i j p q Hij. rewrite P, !list_lookup_fmap.
    intros Hp Hq.
    destruct (seq 0 k !! i) as [i'|] eqn:Ei; [|done].
    destruct (seq 0 k !! j) as [j'|] eqn:Ej; [|done].
    apply lookup_seq in Ei as [-> _]. apply lookup_seq in Ej as [-> _].
    cbn in Hp, Hq. injection Hp as <-. injection Hq as <-.
    apply percent_mono. lia.
Qed.

(* ===================================================================== *)
(** ** The way to the output directory *)
(* ===================================================================== *)

Lemma rstrip_no_trailing c s : Str.endswith c (Str.rstrip c s) = false.
Proof.
  induction s as [|c' s IH]; [done|]. cbn [Str.rstrip].
  destruct (Str.rstrip c s) as [|c'' r] eqn:E.
  - case_bool_decide as Hc; [done|]. cbn. by rewrite bool_decide_eq_false_2.
  - exact IH.
Qed.

Lemma join_under_directory stem b :
  Str.startswith Path.sep b = false ->
  Path.join (stem +:+ "/") b = (stem +:+ "/") +:+ b.
Proof.
  intros Hb. unfold Path.join. rewrite Hb.
  assert (Str.endswith Path.sep (stem +:+ "/") = true) as He
    by by rewrite endswith_app.
  rewrite He. destruct (stem +:+ "/") as [|c s] eqn:E; [|done].
  by destruct stem.
Qed.

(** X5.  When [collect] goes on past the panel, the output directory it
    works with ends in exactly one separator and exists (it was there, or
    it has just been made with the user's consent: no file was touched and
    no directory removed on the way), so that the footage directory and
    the script are placed directly in it: their paths are the directory's
    text followed by [footage] and by the script's base name. *)
Theorem output_directory_ready h w target_path w0 :
  preflight h w = (Ok (Some target_path), w0) ->
  (exists stem,
     target_path = stem +:+ "/" /\ Str.endswith Path.sep stem = false) /\
  path_exists target_path w0 = (Ok true, w0) /\
  files (fs w0) = files (fs w) /\ dirs (fs w) ⊆ dirs (fs w0) /\
  Path.join target_path "footage" = target_path +:+ "footage" /\
  Path.join target_path (Path.basename (root_name h))
  = target_path +:+ Path.basename (root_name h).
Proof.
  intros E.
  destruct (preflight_passed _ _ _ _ E) as (Hf & Hd & _).
  rewrite preflight_cases in E.
  destruct (negb (panel_result h =? 1) || bool_decide (panel_value h = ""));
    [done|].
  cbv zeta in E. unfold chosen_target in E.
  set (stem := Str.rstrip Path.sep
                 (if isfile_in (fs w) (panel_value h)
                  then Path.dirname (panel_value h) else panel_value h))
    in E.
  assert (target_path = stem +:+ "/" /\
          exists_in (fs w0) target_path = true) as [-> Ex].
  { destruct (exists_in (fs w) (stem +:+ "/")) eqn:Ex.
    - by injection E as <- <-.
    - destruct (ask_create h); [|done].
      unfold makedirs_error in E.
      destruct (bool_decide (Path.normpath (stem +:+ "/") ∈ files (fs w))
                || negb (passes (stem +:+ "/") (fs w))) eqn:Hc; [done|].
      apply orb_false_iff in Hc as [_ Hp].
      apply negb_false_iff in Hp.
      destruct (bool_decide (Path.normpath (stem +:+ "/") ∈ dirs (fs w)));
        [done|].
      destruct (makedirs_fails h _ _); [done|].
      injection E as <- <-. split; [done|].
      unfold exists_in. cbn [fs].
      assert (passes (stem +:+ "/")
                (Filesystem (files (fs w))
                   (dirs (fs w) ∪ made_dirs (stem +:+ "/"))) = true) as ->
        by exact Hp.
      rewrite andb_true_r. apply andb_true_iff. split.
      + by destruct stem.
      + apply bool_decide_eq_true_2. cbn [files dirs].
        apply elem_of_union_r, elem_of_union_r, elem_of_list_to_set.
        apply lineage_head, normpath_nonempty. }
  split_and!; try done.
  - exists stem. split; [done|]. apply rstrip_no_trailing.
  - unfold path_exists. by rewrite Ex.
  - by apply join_under_directory.
  - apply join_under_directory, basename_not_absolute.
Qed.

Lemma output_directory_ready_witness :
  (exists stem, "/out/" = stem +:+ "/" /\ Str.endswith Path.sep stem = false) /\
  path_exists "/out/" (snd (preflight patient_host sample_world))
  = (Ok true, snd (preflight patient_host sample_world)) /\
  files (fs (snd (preflight patient_host sample_world)))
  = files (fs sample_world) /\
  dirs (fs sample_world)
  ⊆ dirs (fs (snd (preflight patient_host sample_world))) /\
  Path.join "/out/" "footage" = "/out/" +:+ "footage" /\
  Path.join "/out/" (Path.basename (root_name patient_host))
  = "/out/" +:+ Path.basename (root_name patient_host).
Proof.
  apply (output_directory_ready patient_host sample_world "/out/"
           (snd (preflight patient_host sample_world))).
  vm_compute. reflexivity.
Defined.

(** X6.  When the panel is not left by OK or the path it gives is empty,
    [collect] returns at once, having printed the one line that says the
    collect was cancelled.  When the panel is left by OK with a path, the
    output directory does not exist and the user declines to have it
    made, [collect] returns at once, having shown the one dialog that says
    the run cannot proceed.  In both cases nothing else was done: files,
    directories, nodes and the cancelled flag are as before, and the
    progress task was not polled.  And these are the only ways in which
    the way to the output directory ends early. *)
Theorem declined_collect_changes_nothing h w :
  (panel_result h <> 1 \/ panel_value h = "" ->
   collect h w
   = (Ok tt,
      World (fs w) (nodes w) (polls w) (cancelled w)
            (trace w ++ [Tprint MsgPanelCancelled]))) /\
  (panel_result h = 1 -> panel_value h <> "" ->
   exists_in (fs w) (chosen_target h (fs w)) = false ->
   ask_create h = false ->
   collect h w
   = (Ok tt,
      World (fs w) (nodes w) (polls w) (cancelled w)
            (trace w
             ++ [Message "Cannot proceed without valid target directory."]))) /\
  (forall w0,
     preflight h w = (Ok None, w0) ->
     (panel_result h <> 1 \/ panel_value h = "") \/
     (panel_result h = 1 /\ panel_value h <> "" /\
      exists_in (fs w) (chosen_target h (fs w)) = false /\
      ask_create h = false)).
Proof.
  unfold collect. split_and!.
  - intros Hc.
    assert (negb (panel_result h =? 1) || bool_decide (panel_value h = "")
            = true) as Hb.
    { destruct Hc as [Hr| ->]; [|by rewrite orb_true_r].
      apply Z.eqb_neq in Hr. by rewrite Hr. }
    assert (preflight h w
            = (Ok None,
               World (fs w) (nodes w) (polls w) (cancelled w)
                     (trace w ++ [Tprint MsgPanelCancelled]))) as E
      by by rewrite preflight_cases, Hb.
    by rewrite (bind_ok _ _ _ _ _ E).
  - intros Hr Hv Hx Ha.
    assert (preflight h w
            = (Ok None,
               World (fs w) (nodes w) (polls w) (cancelled w)
                     (trace w
                      ++ [Message
                            "Cannot proceed without valid target directory."])))
      as E.
    { rewrite preflight_cases. apply Z.eqb_eq in Hr. rewrite Hr.
      rewrite bool_decide_eq_false_2 by done. cbn [negb orb]. cbv zeta.
      by rewrite Hx, Ha. }
    by rewrite (bind_ok _ _ _ _ _ E).
  - intros w0. rewrite preflight_cases.
    destruct (panel_result h =? 1) eqn:Hr; cbn [negb orb].
    + apply Z.eqb_eq in Hr. case_bool_decide as Hv; [auto|].
      cbv zeta. destruct (exists_in _ _); [done|].
      destruct (ask_create h); [|by right].
      by destruct (makedirs_error _ _ _ _).
    + apply Z.eqb_neq in Hr. auto.
Qed.

Lemma declined_collect_changes_nothing_witness :
  collect declining_host sample_world
  = (Ok tt,
     World (fs sample_world) (nodes sample_world) (polls sample_world)
           (cancelled sample_world)
           (trace sample_world ++ [Tprint MsgPanelCancelled])) /\
  collect refusing_host sample_world
  = (Ok tt,
     World (fs sample_world) (nodes sample_world) (polls sample_world)
           (cancelled sample_world)
           (trace sample_world
            ++ [Message "Cannot proceed without valid target directory."])).
Proof.
  split.
  - destruct (declined_collect_changes_nothing declining_host sample_world)
      as (H & _).
    apply H. left. discriminate.
  - destruct (declined_collect_changes_nothing refusing_host sample_world)
      as (_ & H & _).
    apply H.
    + reflexivity.
    + discriminate.
    + vm_compute. reflexivity.
    + reflexivity.
Defined.

(* ===================================================================== *)
(** ** Names and directories *)
(* ===================================================================== *)

Lemma has_char_append c s t :
  has_char c (s +:+ t) = has_char c s || has_char c t.
Proof. apply has_char_app. Qed.

Lemma basename_free p : has_char Path.sep (Path.basename p) = false.
Proof. apply after_last_free. Qed.

Lemma has_char_cons c c' s :
  has_char c (String c' s) = bool_decide (c' = c) || has_char c s.
Proof. done. Qed.

Lemma after_last_cons c c' s :
  Str.after_last c (String c' s)
  = if has_char c s then Str.after_last c s
    else if bool_decide (c' = c) then s else String c' s.
Proof. done. Qed.

Lemma upto_last_cons c c' s :
  Str.upto_last c (String c' s)
  = if has_char c s then String c' (Str.upto_last c s)
    else if bool_decide (c' = c) then String c' "" else "".
Proof. done. Qed.

Lemma after_last_app c s b :
  has_char c b = false -> Str.after_last c (s +:+ String c b) = b.
Proof.
  intros Hb. induction s as [|c' s IH].
  - rewrite str_app_empty_l, after_last_cons, Hb.
    by rewrite bool_decide_eq_true_2.
  - rewrite str_app_cons, after_last_cons, has_char_append, has_char_cons.
    by rewrite bool_decide_eq_true_2, orb_true_r.
Qed.

Lemma upto_last_app c s b :
  has_char c b = false ->
  Str.upto_last c (s +:+ String c b) = s +:+ String c "".
Proof.
  intros Hb. induction s as [|c' s IH].
  - rewrite !str_app_empty_l, upto_last_cons, Hb.
    by rewrite bool_decide_eq_true_2.
  - rewrite !str_app_cons, upto_last_cons, has_char_append, has_char_cons.
    by rewrite bool_decide_eq_true_2, orb_true_r, IH.
Qed.

Lemma after_last_none c s : has_char c s = false -> Str.after_last c s = s.
Proof.
  destruct s as [|c' s]; [done|]. rewrite has_char_cons, after_last_cons.
  intros [Hc Hs]%orb_false_iff. by rewrite Hs, Hc.
Qed.

Lemma upto_last_none c s : has_char c s = false -> Str.upto_last c s = "".
Proof.
  destruct s as [|c' s]; [done|]. rewrite has_char_cons, upto_last_cons.
  intros [Hc Hs]%orb_false_iff. by rewrite Hs, Hc.
Qed.

Lemma basename_app s b :
  has_char Path.sep b = false -> Path.basename (s +:+ String Path.sep b) = b.
Proof. apply after_last_app. Qed.

Lemma rstrip_app_sep c s : Str.rstrip c (s +:+ String c "") = Str.rstrip c s.
Proof.
  induction s as [|c' s IH].
  - rewrite str_app_empty_l. cbn [Str.rstrip].
    by rewrite bool_decide_eq_true_2.
  - rewrite str_app_cons. cbn [Str.rstrip]. by rewrite IH.
Qed.

Lemma rstrip_id c s : Str.endswith c s = false -> Str.rstrip c s = s.
Proof.
  induction s as [|c' s IH]; [done|]. cbn [Str.rstrip Str.endswith].
  destruct s as [|c'' s].
  - cbn. intros ->. done.
  - intros He. by rewrite (IH He).
Qed.

Lemma endswith_free c s : has_char c s = false -> Str.endswith c s = false.
Proof.
  induction s as [|c' s IH]; [done|]. rewrite has_char_cons.
  intros [Hc Hs]%orb_false_iff. cbn [Str.endswith].
  destruct s as [|c'' s]; [done|]. by apply IH.
Qed.

(** The directory of a name in a directory: [dirname(d + '/' + b)] is [d]
    when [d] does not end in a separator. *)
Lemma dirname_app d b :
  d <> "" -> Str.endswith Path.sep d = false ->
  has_char Path.sep b = false ->
  Path.dirname (d +:+ String Path.sep b) = d.
Proof.
  intros Hd He Hb. unfold Path.dirname.
  rewrite (upto_last_app _ _ _ Hb), rstrip_app_sep, (rstrip_id _ _ He).
  by destruct d.
Qed.

Lemma str_app_inv_head (s a b : string) : s +:+ a = s +:+ b -> a = b.
Proof.
  intros E. by destruct (str_app_inv_length _ _ _ _ E eq_refl).
Qed.

Lemma extension_basename p q :
  Path.basename p = Path.basename q -> extension p = extension q.
Proof. intros E. unfold extension, Path.splitext_ext. by rewrite E. Qed.

Lemma new_path_cases n w :
  new_path n w
  = if has_knob n "file" then
      if has_knob n "first" && negb (has_knob n "last")
      then (Raise "NameError: last", w)
      else (Ok (if is_sequence n
                then root_dir +:+ "/footage/"
                     +:+ Path.basename (Path.dirname (file_value n))
                     +:+ "/" +:+ Path.basename (file_value n)
                else root_dir +:+ "/footage/"
                     +:+ Path.basename (file_value n)), w)
    else (Raise "NameError: file", w).
Proof.
  unfold new_path, is_sequence. munfold. rewrite knob_value_spec.
  destruct (has_knob n "file"); [|done].
  destruct (has_knob n "first") eqn:Hfirst; [|done].
  rewrite knob_value_spec, Hfirst, knob_value_spec.
  destruct (has_knob n "last"); [|done]. cbn [negb andb].
  by destruct (negb (first_value n =? last_value n)
               && negb (bool_decide (extension (file_value n) ∈ video_exts))).
Qed.

(** X7.  The location [update_node_path] computes keeps the file name of
    the reference, and with it its extension and so its kind.  Computed
    again from the rewritten node it is the same location (a second
    collect of the same script points the node where the first did),
    except for a sequence whose directory has an empty name, as one in
    the root directory or a bare relative name.  That one is first put
    under [footage] with an empty directory name between two separators;
    the second rewrite puts it in a directory [footage] under [footage],
    which is another location; and there it stays at every rewrite that
    follows. *)
Theorem relocation_keeps_name_and_settles n w p w' :
  new_path n w = (Ok p, w') ->
  Path.basename p = Path.basename (file_value n) /\
  extension p = extension (file_value n) /\
  (is_sequence n = false
   \/ Path.basename (Path.dirname (file_value n)) <> "" ->
   new_path (set_file_value p n) w = (Ok p, w)) /\
  (is_sequence n = true ->
   Path.basename (Path.dirname (file_value n)) = "" ->
   let p2 :=
     root_dir +:+ "/footage/footage/" +:+ Path.basename (file_value n) in
   p = root_dir +:+ "/footage//" +:+ Path.basename (file_value n) /\
   p2 <> p /\
   new_path (set_file_value p n) w = (Ok p2, w) /\
   new_path (set_file_value p2 n) w = (Ok p2, w)).
Proof.
  rewrite new_path_cases.
  destruct (has_knob n "file") eqn:Hfile; [|done].
  destruct (has_knob n "first" && negb (has_knob n "last")) eqn:Hpair; [done|].
  intros [= <- <-].
  set (b := Path.basename (file_value n)).
  set (d := Path.basename (Path.dirname (file_value n))).
  pose proof (basename_free (file_value n)) as Fb. fold b in Fb.
  pose proof (basename_free (Path.dirname (file_value n))) as Fd. fold d in Fd.
  assert (forall s, Path.basename (s +:+ "/" +:+ b) = b) as Hbase
    by (intros s; by apply basename_app).
  assert (Path.basename (if is_sequence n
                         then root_dir +:+ "/footage/" +:+ d +:+ "/" +:+ b
                         else root_dir +:+ "/footage/" +:+ b) = b) as Hb.
  { destruct (is_sequence n).
    - exact (Hbase (root_dir +:+ "/footage/" +:+ d)).
    - exact (Hbase (root_dir +:+ "/footage")). }
  split; [done|].
  assert (extension (if is_sequence n
                     then root_dir +:+ "/footage/" +:+ d +:+ "/" +:+ b
                     else root_dir +:+ "/footage/" +:+ b)
          = extension (file_value n)) as Hext
    by by apply extension_basename.
  split; [done|].
  assert (forall q, has_knob (set_file_value q n) = has_knob n) as Hk by done.
  assert (forall q, is_sequence (set_file_value q n)
                    = has_knob n "first"
                      && negb (first_value n =? last_value n)
                      && negb (bool_decide (extension q ∈ video_exts)))
    as Hseq by done.
  assert (forall q, Path.basename q = b ->
                    is_sequence (set_file_value q n) = is_sequence n)
    as Hseq'.
  { intros q Hq. rewrite Hseq.
    by rewrite (extension_basename q (file_value n) Hq). }
  assert (forall e, Path.dirname (root_dir +:+ "/footage/" +:+ e
                                  +:+ "/" +:+ b)
                    = root_dir +:+ "/footage/" +:+ e ->
                    Path.basename (root_dir +:+ "/footage/" +:+ e) = e ->
                    new_path
                      (set_file_value
                         (root_dir +:+ "/footage/" +:+ e +:+ "/" +:+ b) n) w
                    = (if is_sequence n
                       then Ok (root_dir +:+ "/footage/" +:+ e
                                +:+ "/" +:+ b)
                       else Ok (root_dir +:+ "/footage/" +:+ b), w))
    as Hstay.
  { intros e Hdir Hbn.
    assert (Path.basename (root_dir +:+ "/footage/" +:+ e +:+ "/" +:+ b) = b)
      as Hb' by exact (Hbase (root_dir +:+ "/footage/" +:+ e)).
    rewrite new_path_cases, !Hk, Hfile, Hpair, (Hseq' _ Hb').
    cbn [set_file_value file_value]. rewrite Hb', Hdir, Hbn.
    by destruct (is_sequence n). }
  assert (Path.basename (root_dir +:+ "/footage/" +:+ b) = b) as Hflat
    by exact (Hbase (root_dir +:+ "/footage")).
  assert (forall e, e <> "" -> has_char Path.sep e = false ->
                    Path.dirname (root_dir +:+ "/footage/" +:+ e
                                  +:+ "/" +:+ b)
                    = root_dir +:+ "/footage/" +:+ e /\
                    Path.basename (root_dir +:+ "/footage/" +:+ e) = e)
    as Hparts.
  { intros e He Fe. split.
    - refine (dirname_app (root_dir +:+ "/footage/" +:+ e) b _ _ Fb).
      + done.
      + change (root_dir +:+ "/footage/" +:+ e)
          with ((root_dir +:+ "/footage/") +:+ e).
        rewrite endswith_app by done. by apply endswith_free.
    - change (root_dir +:+ "/footage/" +:+ e)
        with ((root_dir +:+ "/footage") +:+ String Path.sep e).
      by rewrite (basename_app _ _ Fe). }
  split.
  - intros Hcase. destruct (is_sequence n) eqn:Hs.
    + destruct Hcase as [|Hd]; [done|].
      destruct (Hparts d Hd Fd) as [Hdir Hbn].
      exact (Hstay d Hdir Hbn).
    + rewrite new_path_cases, !Hk, Hfile, Hpair, (Hseq' _ Hflat), ?Hs.
      cbn [set_file_value file_value]. by rewrite Hflat.
  - intros Hs Hd p2. subst p2. rewrite Hs in *. rewrite Hd in *.
    cbv iota.
    assert (Path.dirname (root_dir +:+ "/footage/" +:+ "" +:+ "/" +:+ b)
            = root_dir +:+ "/footage") as Hdir.
    { unfold Path.dirname.
      change (root_dir +:+ "/footage/" +:+ "" +:+ "/" +:+ b)
        with ((root_dir +:+ "/footage/") +:+ String Path.sep b).
      by rewrite (upto_last_app _ _ _ Fb). }
    assert (Path.basename (root_dir +:+ "/footage/" +:+ "" +:+ "/" +:+ b)
            = b) as Hb0
      by exact (Hbase (root_dir +:+ "/footage/")).
    split_and!.
    + done.
    + intros E. apply str_app_inv_head in E. discriminate.
    + rewrite new_path_cases, !Hk, Hfile, Hpair, (Hseq' _ Hb0).
      cbn [set_file_value file_value]. by rewrite Hb0, Hdir.
    + destruct (Hparts "footage") as [Hdir2 Hbn2]; [done|done|].
      exact (Hstay "footage" Hdir2 Hbn2).
Qed.

Lemma relocation_keeps_name_and_settles_witness :
  let p := "[file dirname [value root.name]]/footage//plate.####.dpx" in
  let p2 := "[file dirname [value root.name]]/footage/footage/plate.####.dpx" in
  new_path rooted sample_world = (Ok p, sample_world) /\
  new_path (set_file_value p rooted) sample_world = (Ok p2, sample_world) /\
  new_path (set_file_value p2 rooted) sample_world = (Ok p2, sample_world).
Proof.
  destruct (relocation_keeps_name_and_settles rooted sample_world
              "[file dirname [value root.name]]/footage//plate.####.dpx"
              sample_world)
    as (_ & _ & _ & H).
  - reflexivity.
  - destruct H as (_ & _ & H1 & H2); [reflexivity|reflexivity|].
    split; [reflexivity|]. split; [exact H1|exact H2].
Defined.

Lemma has_char_repeat c c' n : c' <> c -> has_char c (Str.repeat c' n) = false.
Proof.
  intros Hc. induction n as [|n IH]; [done|].
  cbn [Str.repeat]. by rewrite has_char_cons, IH, bool_decide_eq_false_2.
Qed.

Lemma has_char_digits c s :
  Str.is_digit c = false -> Str.all_digits s = true -> has_char c s = false.
Proof.
  intros Hc. induction s as [|c' s IH]; [done|]. cbn [Str.all_digits].
  intros [Hd Hs]%andb_true_iff. rewrite has_char_cons, (IH Hs).
  rewrite bool_decide_eq_false_2; [done|]. intros ->. congruence.
Qed.

Lemma has_char_of_Z (f : Z) : has_char Path.sep (Str.of_Z f) = false.
Proof.
  destruct f as [|p|p]; [done| |].
  - rewrite of_Z_pos. by apply has_char_digits, all_digits_uint.
  - rewrite of_Z_neg, has_char_cons.
    rewrite bool_decide_eq_false_2 by done.
    by apply has_char_digits, all_digits_uint.
Qed.

Lemma has_char_zfill c w s :
  c <> "0"%char -> has_char c s = false -> has_char c (Str.zfill w s) = false.
Proof.
  intros Hc Hs. unfold Str.zfill. destruct s as [|c' s].
  - apply has_char_repeat. congruence.
  - rewrite has_char_cons in Hs. apply orb_false_iff in Hs as [Hc' Hs].
    destruct (_ || _).
    + rewrite has_char_cons, Hc', has_char_append, Hs.
      rewrite has_char_repeat by congruence. done.
    + rewrite has_char_append, has_char_cons, Hc', Hs.
      rewrite has_char_repeat by congruence. done.
Qed.

(** A substitution brings in no character that is neither in the subject
    nor in the replacement. *)
Lemma has_char_sub_from c r repl s :
  has_char c repl = false -> has_char c s = false ->
  forall k, has_char c (Re.sub_from r repl s k) = false.
Proof.
  intros Hr. induction s as [|c' s IH]; intros Hs k.
  - destruct k as [|k]; [|done]. cbn [Re.sub_from].
    destruct (Re.match_at r "") as [[m rest]|]; [|done].
    by rewrite str_app_empty_r.
  - rewrite has_char_cons in Hs. apply orb_false_iff in Hs as [Hc Hs].
    destruct k as [|k]; cbn [Re.sub_from]; [|by apply IH].
    destruct (Re.match_at r (String c' s)) as [[m rest]|].
    + rewrite has_char_append, Hr.
      destruct (String.length m).
      * by rewrite has_char_cons, Hc, IH.
      * by apply IH.
    + by rewrite has_char_cons, Hc, IH.
Qed.

Lemma frame_name_free p basename frame :
  has_char Path.sep basename = false ->
  has_char Path.sep (frame_name p basename frame) = false.
Proof.
  intros Hb. unfold frame_name, Re.sub.
  apply has_char_sub_from; [|done].
  apply has_char_zfill; [done|apply has_char_of_Z].
Qed.

Lemma endswith_cut c s : Str.endswith c s = true -> exists x, s = x +:+ String c "".
Proof.
  induction s as [|c' s IH]; [done|]. cbn [Str.endswith].
  destruct s as [|c'' s].
  - intros ->%bool_decide_eq_true. by exists "".
  - intros [x Hx]%IH. exists (String c' x). by rewrite str_app_cons, <- Hx.
Qed.

Lemma startswith_free c s : has_char c s = false -> Str.startswith c s = false.
Proof.
  destruct s as [|c' s]; [done|]. rewrite has_char_cons.
  by intros [? _]%orb_false_iff.
Qed.

(** [basename(join(d, name)) == name] for a name without separator. *)
Lemma basename_join d name :
  has_char Path.sep name = false -> Path.basename (Path.join d name) = name.
Proof.
  intros Hn. unfold Path.join. rewrite (startswith_free _ _ Hn).
  destruct d as [|c d]; [by apply after_last_none|].
  destruct (Str.endswith Path.sep (String c d)) eqn:He.
  - destruct (endswith_cut _ _ He) as [x ->].
    rewrite str_app_assoc. by apply basename_app.
  - by apply basename_app.
Qed.

Lemma rstrip_all c s : Str.rstrip c s = "" -> forall n, Str.rstrip c (s +:+ Str.repeat c n) = "".
Proof.
  induction s as [|c' s IH]; intros E n.
  - rewrite str_app_empty_l. induction n as [|n IHn]; [done|].
    cbn [Str.repeat Str.rstrip]. by rewrite IHn, bool_decide_eq_true_2.
  - cbn [Str.rstrip] in E. rewrite str_app_cons. cbn [Str.rstrip].
    destruct (Str.rstrip c s) eqn:Es; [|done].
    rewrite (IH eq_refl). done.
Qed.

(** [dirname(join(dirname(p), name)) == dirname(p)] for a name without
    separator. *)
Lemma dirname_join_dirname p name :
  has_char Path.sep name = false ->
  Path.dirname (Path.join (Path.dirname p) name) = Path.dirname p.
Proof.
  intros Hn. unfold Path.join. rewrite (startswith_free _ _ Hn).
  destruct (Path.dirname p) as [|c d] eqn:Ed.
  - unfold Path.dirname. by rewrite (upto_last_none _ _ Hn).
  - destruct (Str.endswith Path.sep (String c d)) eqn:He.
    + assert (Str.rstrip Path.sep (String c d) = "") as Hall.
      { revert Ed He. unfold Path.dirname.
        pose proof (rstrip_no_trailing Path.sep (Str.upto_last Path.sep p))
          as Hno.
        destruct (Str.rstrip Path.sep (Str.upto_last Path.sep p)) eqn:Er.
        - by intros <- _.
        - intros <-. congruence. }
      destruct (endswith_cut _ _ He) as [x Hx].
      unfold Path.dirname. rewrite Hx, str_app_assoc.
      rewrite (upto_last_app _ _ _ Hn), <- Hx, Hall. done.
    + apply dirname_app; done.
Qed.

(** X8.  Every frame task of a sequence copies a file of the reference's
    own directory to a file of the same name: the task's file name holds no
    separator, it is the base name of the task's source and of its
    destination, and the directory of the source is the directory of the
    reference. *)
Theorem frame_task_keeps_directory_and_name
    p file_path new_dir frame_start frame_end src dst name :
  (src, dst, name)
  ∈ sequence_tasks p (Path.dirname file_path) new_dir
      (Path.basename file_path) frame_start frame_end ->
  has_char Path.sep name = false /\
  Path.basename src = name /\ Path.basename dst = name /\
  Path.dirname src = Path.dirname file_path.
Proof.
  unfold sequence_tasks. intros (frame & [= -> -> ->] & _)%list_elem_of_fmap.
  pose proof (frame_name_free p _ frame (basename_free file_path)) as Hn.
  split_and!; [done|by apply basename_join..|by apply dirname_join_dirname].
Qed.

Lemma frame_task_keeps_directory_and_name_witness :
  has_char Path.sep "plate.0002.dpx" = false /\
  Path.basename "/proj/shots/plate.0002.dpx" = "plate.0002.dpx" /\
  Path.basename "/out/footage/shots/plate.0002.dpx" = "plate.0002.dpx" /\
  Path.dirname "/proj/shots/plate.0002.dpx"
  = Path.dirname "/proj/shots/plate.####.dpx".
Proof.
  apply (frame_task_keeps_directory_and_name
           (Padding "####" 4 hash_pattern) "/proj/shots/plate.####.dpx"
           "/out/footage/shots" 1 3
           "/proj/shots/plate.0002.dpx" "/out/footage/shots/plate.0002.dpx"
           "plate.0002.dpx").
  apply (bool_decide_unpack _). vm_compute. exact I.
Defined.

Lemma all_dots_app s t :
  Path.all_dots (s +:+ t) = Path.all_dots s && Path.all_dots t.
Proof.
  induction s as [|c s IH]; [done|].
  rewrite str_app_cons. cbn [Path.all_dots]. by rewrite IH, andb_assoc.
Qed.

Lemma splitext_ext_name stem e :
  has_char "." e = false ->
  Path.splitext_ext (stem +:+ String "." e)
  = if has_char Path.sep (stem +:+ String "." e) then
      Path.splitext_ext (stem +:+ String "." e)
    else if Path.all_dots stem then "" else String "." e.
Proof.
  intros He. destruct (has_char Path.sep _) eqn:Hs; [done|].
  unfold Path.splitext_ext, Path.basename.
  rewrite (after_last_none _ _ Hs).
  rewrite (upto_last_app _ _ _ He), (after_last_app _ _ _ He).
  rewrite all_dots_app.
  assert (Path.all_dots "." = true) as -> by done. rewrite andb_true_r.
  destruct (stem +:+ ".") eqn:E; [by destruct stem|done].
Qed.

(** X9.  The extension [collect] and [update_node_path] classify a path
    by is taken from the last component alone and compared in lower case:
    for a file [stem.e] in any directory, [e] holding no dot, it is [e] in
    lower case (so [clip.MOV] counts as a video) unless the stem is empty
    or made of dots only, in which case the file has no extension (so a
    file named [.mov] does not count as one). *)
Theorem extension_of_file_name dir stem e :
  has_char Path.sep stem = false ->
  has_char Path.sep e = false -> has_char "." e = false ->
  extension (Path.join dir (stem +:+ "." +:+ e))
  = if Path.all_dots stem then "" else Str.lower e.
Proof.
  intros Hs He Hd. change ("." +:+ e) with (String "." e).
  assert (has_char Path.sep (stem +:+ String "." e) = false) as Hn.
  { rewrite has_char_append, Hs, has_char_cons, He.
    by rewrite bool_decide_eq_false_2. }
  rewrite (extension_basename _ (stem +:+ String "." e)).
  - unfold extension. rewrite (splitext_ext_name _ _ Hd), Hn.
    by destruct (Path.all_dots stem).
  - rewrite (basename_join _ _ Hn). symmetry. by apply after_last_none.
Qed.

Lemma extension_of_file_name_witness :
  extension (Path.join "/proj" ("clip" +:+ "." +:+ "MOV"))
  = if Path.all_dots "clip" then "" else Str.lower "MOV".
Proof.
  apply (extension_of_file_name "/proj" "clip" "MOV"); reflexivity.
Defined.
